(** * flam edge detector: the native frame-transformation engine

    Shallow embedding of [opencv_processor.h], [opencv_processor.cpp] and
    [native-lib.cpp].

    - A buffer is the list of its bytes, each one its bit pattern in
      [0,255]; this is what a [uint8_t*] reads.  A Java [byte[]] is the
      same memory read as signed [jbyte] ([as_jbyte]), so that the
      [reinterpret_cast] between the two views is the identity.  A pointer
      that may be [nullptr] is an [option].
    - [int] is a 32-bit two's complement integer.  C++ leaves signed
      overflow undefined; the products that depend on the frame size are
      written with their wrap-around ([int_mul]).  The theorems about
      frames are stated for frames whose byte count fits an [int];
      [boundary_length_check_overflow] evaluates the boundary beyond
      that.
    - [float] and [double] are IEEE binary32 and binary64, computed with
      the Standard Library's [SpecFloat] operations, every operation being
      rounded to nearest-even on its own (no contraction into a fused
      multiply-add, no wider intermediate format).
    - An access outside a buffer is undefined in C++; here a load outside
      the list yields 0 and a store outside it does nothing, and the
      theorems about frames carry the bounds that keep the code inside
      its buffers.
    - An array from [new uint8_t[n]] is not initialised: its contents are
      whatever the [Allocator] gives, of which only the length is
      known. *)

From Stdlib Require Import ZArith Lia Bool List.
From Stdlib Require Import Floats.SpecFloat.
From stdpp Require Import base list.

Local Open Scope Z_scope.

(** ** Machine integers *)

Definition INT_MAX : Z := 2147483647.

Definition wrap_int (x : Z) : Z := (x + 2^31) mod 2^32 - 2^31.
Definition int_mul (a b : Z) : Z := wrap_int (a * b).

Definition wrap_u64 (x : Z) : Z := x mod 2^64.
Definition wrap_i64 (x : Z) : Z := (x + 2^63) mod 2^64 - 2^63.

(** [static_cast<size_t>] of an [int]. *)
Definition to_size_t (x : Z) : Z := x mod 2^64.

(** [static_cast<uint8_t>] or [static_cast<jbyte>] of an [int]: the byte
    stored, and the value a [jbyte] read gives back. *)
Definition to_u8 (x : Z) : Z := x mod 256.
Definition as_jbyte (b : Z) : Z := if b <? 128 then b else b - 256.

Definition is_byte (v : Z) : Prop := 0 <= v <= 255.

(** ** Buffers *)

Definition load (buf : list Z) (i : Z) : Z :=
  if i <? 0 then 0 else default 0 (buf !! Z.to_nat i).

Definition store (buf : list Z) (i v : Z) : list Z :=
  if i <? 0 then buf else <[Z.to_nat i := v]> buf.

(** [std::memcpy(dst, src, n)] and [std::memset(dst, v, n)]. *)
Definition memcpy (dst src : list Z) (n : Z) : list Z :=
  take (Z.to_nat n) src ++ drop (Z.to_nat n) dst.

Definition memset (dst : list Z) (v n : Z) : list Z :=
  replicate (Z.to_nat n) v ++ drop (Z.to_nat n) dst.

(** [for (int i = lo; i < hi; i++) s = body i s]. *)
Definition for_loop {S : Type} (lo hi : Z) (body : Z -> S -> S) (s : S) : S :=
  foldl (fun acc i => body i acc) s (seqZ lo (hi - lo)).

(** ** Floating point *)

(** [static_cast<int>] of a floating-point value: truncation toward zero. *)
Definition trunc (x : spec_float) : Z :=
  match x with
  | S754_finite s m e =>
      let a := match e with
               | Zneg p => Z.shiftr (Zpos m) (Zpos p)
               | _ => Z.shiftl (Zpos m) e
               end in
      if s then - a else a
  | _ => 0
  end.

Module F32.
Definition prec : Z := 24.
Definition emax : Z := 128.
Definition of_Z (n : Z) : spec_float := binary_normalize prec emax n 0 false.
Definition add : spec_float -> spec_float -> spec_float := SFadd prec emax.
Definition mul : spec_float -> spec_float -> spec_float := SFmul prec emax.
Definition div : spec_float -> spec_float -> spec_float := SFdiv prec emax.
End F32.

Module F64.
Definition prec : Z := 53.
Definition emax : Z := 1024.
Definition of_Z (n : Z) : spec_float := binary_normalize prec emax n 0 false.
Definition div : spec_float -> spec_float -> spec_float := SFdiv prec emax.
Definition sqrt : spec_float -> spec_float := SFsqrt prec emax.
Definition zero : spec_float := S754_zero false.
End F64.

(** The literals [0.299f], [0.587f] and [0.114f]: the binary32 values
    nearest to the decimal fractions (bit patterns 0x3E991687, 0x3F1645A2
    and 0x3DE978D5). *)
Definition lit_0_299f : spec_float :=
  Eval vm_compute in F32.div (F32.of_Z 299) (F32.of_Z 1000).
Definition lit_0_587f : spec_float :=
  Eval vm_compute in F32.div (F32.of_Z 587) (F32.of_Z 1000).
Definition lit_0_114f : spec_float :=
  Eval vm_compute in F32.div (F32.of_Z 114) (F32.of_Z 1000).

(** ** [namespace ImageUtils] *)

Module ImageUtils.

(** [static_cast<uint8_t>(0.299f * r + 0.587f * g + 0.114f * b)]: the
    bytes are promoted to [int] and converted to [float] exactly; each
    product and each sum is rounded to binary32 on its own, in the order
    the expression is written (no contraction into fused multiply-adds);
    the sum is truncated (it never leaves [0,255], see
    [rgbaToGray_floor]). *)
Definition rgbaToGray (r g b : Z) : Z :=
  trunc (F32.add
           (F32.add (F32.mul lit_0_299f (F32.of_Z r))
                    (F32.mul lit_0_587f (F32.of_Z g)))
           (F32.mul lit_0_114f (F32.of_Z b))).

Definition sobelX : list (list Z) := [[-1; 0; 1]; [-2; 0; 2]; [-1; 0; 1]].
Definition sobelY : list (list Z) := [[-1; -2; -1]; [0; 0; 0]; [1; 2; 1]].

Definition kernel (k : list (list Z)) (i j : Z) : Z :=
  load (default [] (k !! Z.to_nat i)) j.

(** The two inner loops over [ky] and [kx]: the pair [(gx, gy)]. *)
Definition convolve (grayscale : list Z) (width x y : Z) : Z * Z :=
  for_loop (-1) 2 (fun ky acc =>
    for_loop (-1) 2 (fun kx '(gx, gy) =>
      let pixel := load grayscale ((y + ky) * width + (x + kx)) in
      (gx + pixel * kernel sobelX (ky + 1) (kx + 1),
       gy + pixel * kernel sobelY (ky + 1) (kx + 1))) acc) (0, 0).

(** [std::min(255, static_cast<int>(std::sqrt(gx * gx + gy * gy)))]:
    [std::sqrt] of an [int] is the [double] overload. *)
Definition magnitude (gx gy : Z) : Z :=
  Z.min 255 (trunc (F64.sqrt (F64.of_Z (gx * gx + gy * gy)))).

(** The buffer after the [memset] and the Sobel loops, before the
    threshold loop. *)
Definition sobelPass (grayscale : list Z) (width height : Z)
    (output : list Z) : list Z :=
  for_loop 1 (height - 1) (fun y out =>
    for_loop 1 (width - 1) (fun x out =>
      let g := convolve grayscale width x y in
      let magnitude := magnitude (fst g) (snd g) in
      store out (y * width + x) (to_u8 magnitude)) out)
    (memset output 0 (to_size_t (int_mul width height))).

Definition thresholdPass (threshold width height : Z) (output : list Z)
    : list Z :=
  for_loop 0 (int_mul width height) (fun i out =>
    store out i (if threshold <? load out i then 255 else 0)) output.

Definition simpleEdgeDetection (grayscale : list Z) (width height : Z)
    (output : list Z) : list Z :=
  thresholdPass 50 width height (sobelPass grayscale width height output).

(** [applyThreshold]: the parameter [threshold] is a [uint8_t], which
    holds the argument of the call reduced modulo 256. *)
Definition applyThreshold (input : list Z) (width height threshold : Z)
    (output : list Z) : list Z :=
  let threshold := to_u8 threshold in
  for_loop 0 (int_mul width height) (fun i out =>
    store out i (if threshold <? load input i then 255 else 0)) output.

End ImageUtils.

(** ** The accelerated backend

    OpenCV is an external library.  What the engine needs from it is
    whether the probe of [initialize] succeeds, and the RGBA matrix each
    [try] block builds before its [memcpy], [None] standing for a thrown
    exception.  A build without [HAVE_OPENCV] is the instance whose probe
    fails. *)
Class OpenCV := {
  cv_probe : bool;
  cv_canny : list Z -> Z -> Z -> spec_float -> spec_float -> Z -> option (list Z);
  cv_gray : list Z -> Z -> Z -> option (list Z)
}.

(** ** Uninitialised arrays

    [new uint8_t[n]] does not initialise its elements: a fresh array holds
    whatever the allocator left there, and only its length is known.  The
    first argument numbers the arrays one call allocates. *)
Class Allocator := {
  new_uint8 : nat -> Z -> list Z;
  new_uint8_length : forall k n, length (new_uint8 k n) = Z.to_nat n
}.

(** ** [enum ProcessingMode], [struct ProcessingMetrics] *)

Definition MODE_RAW : Z := 0.
Definition MODE_EDGE : Z := 1.
Definition MODE_GRAYSCALE : Z := 2.

Record ProcessingMetrics := {
  processingTimeMs : Z;
  width : Z;
  height : Z;
  mode : Z;
  success : bool
}.

(** ** [class OpenCVProcessor] *)

Record OpenCVProcessor := {
  mInitialized : bool;
  mOpenCVAvailable : bool;
  mCannyLowThreshold : spec_float;
  mCannyHighThreshold : spec_float;
  mCannyApertureSize : Z;
  mTotalFramesProcessed : Z;
  mTotalProcessingTimeMs : Z;
  mLastProcessingTimeMs : Z
}.

(** The values [getStatistics] formats into its text. *)
Record Statistics := {
  statFrames : Z;
  statAvgTime : spec_float;
  statLastTime : Z;
  statOpenCV : bool
}.

Module Processor.
Section WithBackend.
Context {cv : OpenCV} {heap : Allocator}.

(** The constructor. *)
Definition create : OpenCVProcessor :=
  {| mInitialized := false;
     mOpenCVAvailable := false;
     mCannyLowThreshold := F64.of_Z 50;
     mCannyHighThreshold := F64.of_Z 150;
     mCannyApertureSize := 3;
     mTotalFramesProcessed := 0;
     mTotalProcessingTimeMs := 0;
     mLastProcessingTimeMs := 0 |}.

Definition initialize (p : OpenCVProcessor) : bool * OpenCVProcessor :=
  if mInitialized p then (true, p)
  else
    (true,
     {| mInitialized := true;
        mOpenCVAvailable := cv_probe;
        mCannyLowThreshold := mCannyLowThreshold p;
        mCannyHighThreshold := mCannyHighThreshold p;
        mCannyApertureSize := mCannyApertureSize p;
        mTotalFramesProcessed := mTotalFramesProcessed p;
        mTotalProcessingTimeMs := mTotalProcessingTimeMs p;
        mLastProcessingTimeMs := mLastProcessingTimeMs p |}).

Definition isOpenCVAvailable (p : OpenCVProcessor) : bool :=
  mOpenCVAvailable p.

Definition copyRawFrame (inputData : list Z) (width height : Z)
    (outputData : list Z) : bool * list Z :=
  let dataSize := to_size_t (int_mul (int_mul width height) 4) in
  (true, memcpy outputData inputData dataSize).

Definition convertToGrayscaleFallback (inputData : list Z)
    (width height : Z) (outputData : list Z) : bool * list Z :=
  (true,
   for_loop 0 (int_mul width height) (fun i out =>
     let idx := i * 4 in
     let gray := ImageUtils.rgbaToGray (load inputData idx)
                   (load inputData (idx + 1)) (load inputData (idx + 2)) in
     store (store (store (store out idx gray) (idx + 1) gray)
              (idx + 2) gray) (idx + 3) 255) outputData).

(** The first loop of [applyCannyEdgeFallback], filling [grayData]. *)
Definition grayPlane (inputData : list Z) (n : Z) (grayData : list Z)
    : list Z :=
  for_loop 0 n (fun i gray =>
    let idx := i * 4 in
    store gray i (ImageUtils.rgbaToGray (load inputData idx)
                    (load inputData (idx + 1)) (load inputData (idx + 2))))
    grayData.

(** The two temporaries, [grayData] and [edgeData], come from
    [new uint8_t[width * height]] and start with the allocator's
    contents. *)
Definition applyCannyEdgeFallback (inputData : list Z)
    (width height : Z) (outputData : list Z) : bool * list Z :=
  let n := int_mul width height in
  let grayData := grayPlane inputData n (new_uint8 0 n) in
  let edgeData :=
    ImageUtils.simpleEdgeDetection grayData width height (new_uint8 1 n) in
  (true,
   for_loop 0 n (fun i out =>
     let idx := i * 4 in
     let edgeValue := load edgeData i in
     store (store (store (store out idx edgeValue) (idx + 1) edgeValue)
              (idx + 2) edgeValue) (idx + 3) 255) outputData).

Definition applyCannyEdge (p : OpenCVProcessor) (inputData : list Z)
    (width height : Z) (outputData : list Z) : bool * list Z :=
  if mOpenCVAvailable p then
    match cv_canny inputData width height (mCannyLowThreshold p)
            (mCannyHighThreshold p) (mCannyApertureSize p) with
    | Some outputMat =>
        (true, memcpy outputData outputMat
                 (to_size_t (int_mul (int_mul width height) 4)))
    | None => applyCannyEdgeFallback inputData width height outputData
    end
  else applyCannyEdgeFallback inputData width height outputData.

Definition convertToGrayscale (p : OpenCVProcessor) (inputData : list Z)
    (width height : Z) (outputData : list Z) : bool * list Z :=
  if mOpenCVAvailable p then
    match cv_gray inputData width height with
    | Some outputMat =>
        (true, memcpy outputData outputMat
                 (to_size_t (int_mul (int_mul width height) 4)))
    | None => convertToGrayscaleFallback inputData width height outputData
    end
  else convertToGrayscaleFallback inputData width height outputData.

Definition setCannyThresholds (p : OpenCVProcessor)
    (lowThreshold highThreshold : spec_float) : OpenCVProcessor :=
  {| mInitialized := mInitialized p;
     mOpenCVAvailable := mOpenCVAvailable p;
     mCannyLowThreshold := lowThreshold;
     mCannyHighThreshold := highThreshold;
     mCannyApertureSize := mCannyApertureSize p;
     mTotalFramesProcessed := mTotalFramesProcessed p;
     mTotalProcessingTimeMs := mTotalProcessingTimeMs p;
     mLastProcessingTimeMs := mLastProcessingTimeMs p |}.

Definition getStatistics (p : OpenCVProcessor) : Statistics :=
  {| statFrames := mTotalFramesProcessed p;
     statAvgTime :=
       if 0 <? mTotalFramesProcessed p
       then F64.div (F64.of_Z (mTotalProcessingTimeMs p))
                    (F64.of_Z (mTotalFramesProcessed p))
       else F64.zero;
     statLastTime := mLastProcessingTimeMs p;
     statOpenCV := mOpenCVAvailable p |}.

Definition release (p : OpenCVProcessor) : OpenCVProcessor :=
  if mInitialized p then
    {| mInitialized := false;
       mOpenCVAvailable := mOpenCVAvailable p;
       mCannyLowThreshold := mCannyLowThreshold p;
       mCannyHighThreshold := mCannyHighThreshold p;
       mCannyApertureSize := mCannyApertureSize p;
       mTotalFramesProcessed := mTotalFramesProcessed p;
       mTotalProcessingTimeMs := mTotalProcessingTimeMs p;
       mLastProcessingTimeMs := mLastProcessingTimeMs p |}
  else p.

(** The counters are [uint64_t], [uint64_t] and [int64_t]. *)
Definition updateStatistics (p : OpenCVProcessor) (processingTimeMs : Z)
    : OpenCVProcessor :=
  {| mInitialized := mInitialized p;
     mOpenCVAvailable := mOpenCVAvailable p;
     mCannyLowThreshold := mCannyLowThreshold p;
     mCannyHighThreshold := mCannyHighThreshold p;
     mCannyApertureSize := mCannyApertureSize p;
     mTotalFramesProcessed := wrap_u64 (mTotalFramesProcessed p + 1);
     mTotalProcessingTimeMs :=
       wrap_u64 (mTotalProcessingTimeMs p + processingTimeMs);
     mLastProcessingTimeMs := processingTimeMs |}.

(** [processFrame].  The two readings of [getCurrentTimeMs] (the steady
    clock, in milliseconds) are the pair [clock]; the result is the
    metrics, the engine afterwards and the output buffer afterwards. *)
Definition processFrame (p : OpenCVProcessor) (clock : Z * Z)
    (inputData : option (list Z)) (width height mode : Z)
    (outputData : option (list Z))
    : ProcessingMetrics * OpenCVProcessor * option (list Z) :=
  let metrics := {| processingTimeMs := 0; width := width;
                    height := height; mode := mode; success := false |} in
  if negb (mInitialized p) then (metrics, p, outputData)
  else
    match inputData, outputData with
    | Some input, Some output =>
        if (width <=? 0) || (height <=? 0) then (metrics, p, outputData)
        else
          let startTime := fst clock in
          let '(ok, output') :=
            if mode =? MODE_RAW then copyRawFrame input width height output
            else if mode =? MODE_EDGE
                 then applyCannyEdge p input width height output
            else if mode =? MODE_GRAYSCALE
                 then convertToGrayscale p input width height output
            else copyRawFrame input width height output in
          let endTime := snd clock in
          let elapsed := wrap_i64 (endTime - startTime) in
          ({| processingTimeMs := elapsed; width := width;
              height := height; mode := mode; success := ok |},
           updateStatistics p elapsed,
           Some output')
    | _, _ => (metrics, p, outputData)
    end.

End WithBackend.
End Processor.

(** ** [native-lib.cpp]: the JNI boundary

    [g_processor] is an [option OpenCVProcessor]; a Java array reference is
    an [option] ([None] for [null]).  [GetByteArrayElements] may return
    [nullptr]; whether it does for a given array is the [pins] field of
    the environment. *)

Record JNIEnv := { pins : list Z -> bool }.

Module NativeLib.
Section WithBackend.
Context {cv : OpenCV} {heap : Allocator}.

(** [initOpenCV]; the allocation by [new] is taken to succeed. *)
Definition initOpenCV (g_processor : option OpenCVProcessor)
    : bool * option OpenCVProcessor :=
  match g_processor with
  | Some _ => (true, g_processor)
  | None =>
      let '(ok, p) := Processor.initialize Processor.create in
      if ok then (true, Some p) else (false, None)
  end.

Definition isOpenCVAvailable (g_processor : option OpenCVProcessor) : bool :=
  match g_processor with
  | None => false
  | Some p => Processor.isOpenCVAvailable p
  end.

(** The result is the [jlong] returned, [g_processor] afterwards and the
    contents of [outputArray] afterwards. *)
Definition processFrame (env : JNIEnv)
    (g_processor : option OpenCVProcessor) (clock : Z * Z)
    (inputArray : option (list Z)) (width height mode : Z)
    (outputArray : option (list Z))
    : Z * option OpenCVProcessor * option (list Z) :=
  match g_processor with
  | None => (-1, g_processor, outputArray)
  | Some p =>
      match inputArray, outputArray with
      | Some input, Some output =>
          let inputLength := Z.of_nat (length input) in
          let expectedLength := int_mul (int_mul width height) 4 in
          if inputLength <? expectedLength then (-1, g_processor, outputArray)
          else
            let outputLength := Z.of_nat (length output) in
            if outputLength <? expectedLength
            then (-1, g_processor, outputArray)
            else if negb (pins env input) || negb (pins env output)
            then (-1, g_processor, outputArray)
            else
              let '(metrics, p', out') :=
                Processor.processFrame p clock (Some input) width height
                  mode (Some output) in
              if negb (success metrics) then (-1, Some p', out')
              else (processingTimeMs metrics, Some p', out')
      | _, _ => (-1, g_processor, outputArray)
      end
  end.

Definition setCannyThresholds (g_processor : option OpenCVProcessor)
    (lowThreshold highThreshold : spec_float) : option OpenCVProcessor :=
  match g_processor with
  | Some p => Some (Processor.setCannyThresholds p lowThreshold highThreshold)
  | None => None
  end.

Definition getStatistics (g_processor : option OpenCVProcessor)
    : option Statistics :=
  match g_processor with
  | None => None
  | Some p => Some (Processor.getStatistics p)
  end.

Definition releaseOpenCV (g_processor : option OpenCVProcessor)
    : option OpenCVProcessor := None.

Definition clamp255 (v : Z) : Z :=
  if v <? 0 then 0 else if 255 <? v then 255 else v.

(** One iteration of the conversion loop: the pixel at [(x, y)]. *)
Definition yuvPixel (yData uData vData : list Z)
    (width yRowStride uvRowStride uvPixelStride : Z) (x y : Z)
    (outData : list Z) : list Z :=
  let yIndex := y * yRowStride + x in
  let uvIndex := (y ÷ 2) * uvRowStride + (x ÷ 2) * uvPixelStride in
  let Y := Z.land (as_jbyte (load yData yIndex)) 255 in
  let U := Z.land (as_jbyte (load uData uvIndex)) 255 in
  let V := Z.land (as_jbyte (load vData uvIndex)) 255 in
  let C := Y - 16 in
  let D := U - 128 in
  let E := V - 128 in
  let R := Z.shiftr (298 * C + 409 * E + 128) 8 in
  let G := Z.shiftr (298 * C - 100 * D - 208 * E + 128) 8 in
  let B := Z.shiftr (298 * C + 516 * D + 128) 8 in
  let R := clamp255 R in
  let G := clamp255 G in
  let B := clamp255 B in
  let outIndex := (y * width + x) * 4 in
  store (store (store (store outData outIndex (to_u8 R))
                  (outIndex + 1) (to_u8 G))
           (outIndex + 2) (to_u8 B))
    (outIndex + 3) (to_u8 255).

(** [yuv420ToRgba]: a plane is [None] when [GetByteArrayElements] gave
    [nullptr] for it; the result is [outputArray] afterwards. *)
Definition yuv420ToRgba (yPlane uPlane vPlane : option (list Z))
    (width height yRowStride uvRowStride uvPixelStride : Z)
    (outputArray : option (list Z)) : option (list Z) :=
  match yPlane, uPlane, vPlane, outputArray with
  | Some yData, Some uData, Some vData, Some outData =>
      Some (for_loop 0 height (fun y out =>
              for_loop 0 width (fun x out =>
                yuvPixel yData uData vData width yRowStride uvRowStride
                  uvPixelStride x y out) out) outData)
  | _, _, _, _ => outputArray
  end.

End WithBackend.
End NativeLib.

(** A build without [HAVE_OPENCV]. *)
Definition no_opencv : OpenCV :=
  {| cv_probe := false;
     cv_canny := fun _ _ _ _ _ _ => None;
     cv_gray := fun _ _ _ => None |}.

(** An allocator whose fresh arrays are filled with the byte 0xCD. *)
Definition stale_heap : Allocator :=
  {| new_uint8 := fun _ n => replicate (Z.to_nat n) 205;
     new_uint8_length := fun _ n => length_replicate (Z.to_nat n) 205 |}.

(** ** Vocabulary of the statements *)

(** The value of a non-negative float, in units of [2 ^ emin], and the
    floats that have one. *)
Definition SFval (prec emax : Z) (x : spec_float) : Z :=
  match x with
  | S754_finite false m e => Zpos m * 2 ^ (e - emin prec emax)
  | _ => 0
  end.

Definition SFnonneg (prec emax : Z) (x : spec_float) : Prop :=
  match x with
  | S754_zero false => True
  | S754_finite false m e => emin prec emax <= e
  | _ => False
  end.

(** [shr_inv N k mrs]: the record is the integer [N] shifted right by [k]
    bits, with its round and sticky bits. *)
Definition shr_inv (N k : Z) (mrs : shr_record) : Prop :=
  0 <= shr_m mrs /\
  exists delta,
    2 * N = 2 * shr_m mrs * 2 ^ k + (if shr_r mrs then 2 ^ k else 0) + delta
    /\ (if shr_s mrs then 0 < delta < 2 ^ k else delta = 0).

(** A frame of [w * h] pixels whose [w * h * 4] bytes are counted by an
    [int] without overflow. *)
Definition frame_dims (w h : Z) : Prop :=
  0 < w /\ 0 < h /\ w * h * 4 <= INT_MAX.

Definition engine_violation (p : OpenCVProcessor)
    (input output : option (list Z)) (w h : Z) : Prop :=
  mInitialized p = false \/ input = None \/ output = None \/ w <= 0 \/ h <= 0.

Definition shorter_than (a : option (list Z)) (n : Z) : Prop :=
  exists l, a = Some l /\ Z.of_nat (length l) < n.

Definition boundary_violation (g : option OpenCVProcessor)
    (input output : option (list Z)) (w h : Z) : Prop :=
  g = None
  \/ (exists p, g = Some p /\ engine_violation p input output w h)
  \/ shorter_than input (w * h * 4)
  \/ shorter_than output (w * h * 4).

(** The [int] products [width * height] and [width * height * 4] do not
    overflow. *)
Definition no_overflow (w h : Z) : Prop :=
  - 2147483648 <= w * h <= INT_MAX /\ - 2147483648 <= w * h * 4 <= INT_MAX.

(** One [processFrame] call, and a sequence of them on one engine. *)
Record FrameCall := {
  callClock : Z * Z;
  callInput : option (list Z);
  callWidth : Z;
  callHeight : Z;
  callMode : Z;
  callOutput : option (list Z)
}.

Definition callFrame `{cv : OpenCV} `{heap : Allocator}
    (p : OpenCVProcessor) (c : FrameCall)
    : ProcessingMetrics * OpenCVProcessor * option (list Z) :=
  Processor.processFrame p (callClock c) (callInput c) (callWidth c)
    (callHeight c) (callMode c) (callOutput c).

Definition runCalls `{cv : OpenCV} `{heap : Allocator} (p : OpenCVProcessor)
    (calls : list FrameCall) : OpenCVProcessor :=
  foldl (fun q c => snd (fst (callFrame q c))) p calls.

(** The elapsed times in the metrics of the successful calls, in order. *)
Fixpoint recordedTimes `{cv : OpenCV} `{heap : Allocator} (p : OpenCVProcessor)
    (calls : list FrameCall) : list Z :=
  match calls with
  | [] => []
  | c :: rest =>
      let '(metrics, p', _) := callFrame p c in
      (if success metrics then [processingTimeMs metrics] else [])
      ++ recordedTimes p' rest
  end.

Definition total_time (ts : list Z) : Z := foldr Z.add 0 ts.

Definition counters_in_range (p : OpenCVProcessor) : Prop :=
  0 <= mTotalFramesProcessed p < 2^64 /\ 0 <= mTotalProcessingTimeMs p < 2^64.

(** The four channels of pixel [k] of a packed buffer. *)
Definition pixel_is (buf : list Z) (k r g b a : Z) : Prop :=
  load buf (k * 4) = r /\ load buf (k * 4 + 1) = g
  /\ load buf (k * 4 + 2) = b /\ load buf (k * 4 + 3) = a.

(** The channels of one pixel, from one luma and two chroma samples: the
    integer transform shifted right by 8 and clamped to [0,255]. *)
Definition clamp_0_255 (v : Z) : Z := Z.max 0 (Z.min 255 v).

Definition yuv_red (Y U V : Z) : Z :=
  clamp_0_255 (Z.shiftr (298 * (Y - 16) + 409 * (V - 128) + 128) 8).

Definition yuv_green (Y U V : Z) : Z :=
  clamp_0_255
    (Z.shiftr (298 * (Y - 16) - 100 * (U - 128) - 208 * (V - 128) + 128) 8).

Definition yuv_blue (Y U V : Z) : Z :=
  clamp_0_255 (Z.shiftr (298 * (Y - 16) + 516 * (U - 128) + 128) 8).

(** The planes cover every sample the loop reads, and the output holds
    [width * height] pixels. *)
Definition planes_cover (yData uData vData outData : list Z)
    (w h ys uvs uvp : Z) : Prop :=
  Forall is_byte yData /\ Forall is_byte uData /\ Forall is_byte vData
  /\ w * h * 4 <= Z.of_nat (length outData)
  /\ forall x y, 0 <= x < w -> 0 <= y < h ->
       0 <= y * ys + x < Z.of_nat (length yData)
       /\ 0 <= (y / 2) * uvs + (x / 2) * uvp < Z.of_nat (length uData)
       /\ (y / 2) * uvs + (x / 2) * uvp < Z.of_nat (length vData).

(** The 3x3 Sobel X and Y convolutions of the grayscale image [g] of
    width [w] at [(x, y)]. *)
Definition sobel_gx (g : list Z) (w x y : Z) : Z :=
  (load g ((y - 1) * w + (x + 1)) + 2 * load g (y * w + (x + 1))
   + load g ((y + 1) * w + (x + 1)))
  - (load g ((y - 1) * w + (x - 1)) + 2 * load g (y * w + (x - 1))
     + load g ((y + 1) * w + (x - 1))).

Definition sobel_gy (g : list Z) (w x y : Z) : Z :=
  (load g ((y + 1) * w + (x - 1)) + 2 * load g ((y + 1) * w + x)
   + load g ((y + 1) * w + (x + 1)))
  - (load g ((y - 1) * w + (x - 1)) + 2 * load g ((y - 1) * w + x)
     + load g ((y - 1) * w + (x + 1))).

(** The value the Sobel loops store for the pixel at [(x, y)]. *)
Definition sobel_value (g : list Z) (w x y : Z) : Z :=
  to_u8 (ImageUtils.magnitude (sobel_gx g w x y) (sobel_gy g w x y)).

(** The luminance of pixel [i] of a packed buffer, as the code computes it. *)
Definition pixel_gray (input : list Z) (i : Z) : Z :=
  ImageUtils.rgbaToGray (load input (i * 4)) (load input (i * 4 + 1))
    (load input (i * 4 + 2)).

(** The gray plane of the fallback edge path and its gradient map. *)
Definition fallback_gray (input : list Z) (w h : Z) : list Z :=
  Processor.grayPlane input (w * h) (replicate (Z.to_nat (w * h)) 0).

Definition fallback_gradient (input : list Z) (w h : Z)
    : list Z :=
  ImageUtils.sobelPass (fallback_gray input w h) w h
    (replicate (Z.to_nat (w * h)) 0).

(** The luminance the specification gives: the floor of the weighted sum
    with the decimal weights. *)
Definition gray_floor (r g b : Z) : Z := (299 * r + 587 * g + 114 * b) / 1000.

(** The product [lit * x] in binary32 is a non-negative float within
    [0.02 / 1000] of [weight / 1000 * x]: a check on one byte, and on all
    bytes. *)
Definition product_ok (lit : spec_float) (weight x : Z) : bool :=
  let p := F32.mul lit (F32.of_Z x) in
  let v := SFval F32.prec F32.emax p in
  match p with
  | S754_zero false => true
  | S754_finite false _ e => emin F32.prec F32.emax <=? e
  | _ => false
  end
  && (Z.abs (1000 * v - 2 ^ 149 * (weight * x)) * 50 <=? 2 ^ 149).

Definition products_ok (lit : spec_float) (weight : Z) : bool :=
  forallb (product_ok lit weight) (seqZ 0 256).

(** C2, as the specification states it: the channels of pixel [i] are the
    floor of the weighted sum with the decimal weights. *)
Definition grayscale_floor_claim (input out' : list Z) (i : Z) : Prop :=
  let f := gray_floor (load input (i * 4)) (load input (i * 4 + 1))
             (load input (i * 4 + 2)) in
  pixel_is out' i f f f 255.

(** Sample frames for the examples: a 3x3 frame whose right column is
    white, a 2x2 mid-gray frame, and a Ready engine without backend. *)
Definition edge_frame : list Z :=
  flat_map (fun v => [v; v; v; 255]) [0; 0; 255; 0; 0; 255; 0; 0; 255].

Definition gray_frame : list Z :=
  flat_map (fun v => [v; v; v; 255]) [128; 128; 128; 128].

Definition ready_engine : OpenCVProcessor :=
  snd (Processor.initialize (cv := no_opencv) Processor.create).

(** The integer nearest to the square root of [n], as the specification's
    [round(sqrt(n))] reads. *)
Definition round_sqrt (n : Z) : Z := (Z.sqrt (4 * n) + 1) / 2.

(** ** [native-lib.cpp]: the bitmap entry point and the unload hook

    [android/bitmap.h] is not part of the repository: a bitmap is what
    [AndroidBitmap_getInfo] and [AndroidBitmap_lockPixels] give for it,
    [None] standing for a negative return code; the format code of
    RGBA_8888 is the NDK's. *)

Definition ANDROID_BITMAP_FORMAT_RGBA_8888 : Z := 1.

Record AndroidBitmapInfo := {
  bmWidth : Z;
  bmHeight : Z;
  bmStride : Z;
  bmFormat : Z
}.

Record Bitmap := {
  bitmapInfo : option AndroidBitmapInfo;
  bitmapPixels : option (list Z)
}.

(** [processFrameBitmap]: the result is the [jlong] returned,
    [g_processor] afterwards and the pixels of [outputBitmap] afterwards
    ([None] when they were never locked).  The [uint32_t] dimensions of
    the input bitmap are converted to [int]. *)
Definition processFrameBitmap `{cv : OpenCV} `{heap : Allocator}
    (g_processor : option OpenCVProcessor) (clock : Z * Z)
    (inputBitmap : option Bitmap) (mode : Z) (outputBitmap : option Bitmap)
    : Z * option OpenCVProcessor * option (list Z) :=
  let untouched := match outputBitmap with
                   | Some b => bitmapPixels b
                   | None => None
                   end in
  match g_processor with
  | None => (-1, g_processor, untouched)
  | Some p =>
      match inputBitmap, outputBitmap with
      | Some inB, Some outB =>
          match bitmapInfo inB with
          | None => (-1, g_processor, untouched)
          | Some inputInfo =>
              match bitmapInfo outB with
              | None => (-1, g_processor, untouched)
              | Some outputInfo =>
                  if negb (bmFormat inputInfo =? ANDROID_BITMAP_FORMAT_RGBA_8888)
                  then (-1, g_processor, untouched)
                  else if negb (bmFormat outputInfo
                                =? ANDROID_BITMAP_FORMAT_RGBA_8888)
                  then (-1, g_processor, untouched)
                  else
                    match bitmapPixels inB with
                    | None => (-1, g_processor, untouched)
                    | Some inputPixels =>
                        match bitmapPixels outB with
                        | None => (-1, g_processor, untouched)
                        | Some outputPixels =>
                            let '(metrics, p', out') :=
                              Processor.processFrame p clock (Some inputPixels)
                                (wrap_int (bmWidth inputInfo))
                                (wrap_int (bmHeight inputInfo)) mode
                                (Some outputPixels) in
                            if negb (success metrics) then (-1, Some p', out')
                            else (processingTimeMs metrics, Some p', out')
                        end
                    end
              end
          end
      | _, _ => (-1, g_processor, untouched)
      end
  end.

(** [JNI_OnUnload]: releases and deletes the engine if there is one. *)
Definition JNI_OnUnload (g_processor : option OpenCVProcessor)
    : option OpenCVProcessor := None.

(** ** Vocabulary of the further properties *)

(** The engine with its backend flag cleared. *)
Definition without_backend (p : OpenCVProcessor) : OpenCVProcessor :=
  {| mInitialized := mInitialized p;
     mOpenCVAvailable := false;
     mCannyLowThreshold := mCannyLowThreshold p;
     mCannyHighThreshold := mCannyHighThreshold p;
     mCannyApertureSize := mCannyApertureSize p;
     mTotalFramesProcessed := mTotalFramesProcessed p;
     mTotalProcessingTimeMs := mTotalProcessingTimeMs p;
     mLastProcessingTimeMs := mLastProcessingTimeMs p |}.

(** Two packed buffers agree on the red, green and blue bytes of their
    first [n] pixels. *)
Definition same_rgb (a b : list Z) (n : Z) : Prop :=
  forall i, 0 <= i < n ->
    load a (i * 4) = load b (i * 4)
    /\ load a (i * 4 + 1) = load b (i * 4 + 1)
    /\ load a (i * 4 + 2) = load b (i * 4 + 2).

(** A pixel position on the one-pixel border of a [w] x [h] image. *)
Definition on_border (w h x y : Z) : Prop :=
  x = 0 \/ x = w - 1 \/ y = 0 \/ y = h - 1.


(** The conditions under which [processFrameBitmap] returns before it
    locks the output pixels or calls the engine. *)
Definition bitmap_rejected (g : option OpenCVProcessor)
    (inputBitmap outputBitmap : option Bitmap) : Prop :=
  g = None \/ inputBitmap = None \/ outputBitmap = None
  \/ (exists b, inputBitmap = Some b /\ bitmapInfo b = None)
  \/ (exists b, outputBitmap = Some b /\ bitmapInfo b = None)
  \/ (exists b i, inputBitmap = Some b /\ bitmapInfo b = Some i
                  /\ bmFormat i <> ANDROID_BITMAP_FORMAT_RGBA_8888)
  \/ (exists b i, outputBitmap = Some b /\ bitmapInfo b = Some i
                  /\ bmFormat i <> ANDROID_BITMAP_FORMAT_RGBA_8888)
  \/ (exists b, inputBitmap = Some b /\ bitmapPixels b = None)
  \/ (exists b, outputBitmap = Some b /\ bitmapPixels b = None).

(** A backend that is present and throws on every call. *)
Definition throwing_opencv : OpenCV :=
  {| cv_probe := true;
     cv_canny := fun _ _ _ _ _ _ => None;
     cv_gray := fun _ _ _ => None |}.

(** The engine held at the boundary, if any, is initialized. *)
Definition engine_ready (g : option OpenCVProcessor) : Prop :=
  forall p, g = Some p -> mInitialized p = true.

(** The one value the conversion gives all three channels when both
    chroma samples are 128. *)
Definition yuv_gray (Y : Z) : Z :=
  clamp_0_255 (Z.shiftr (298 * (Y - 16) + 128) 8).

(** The engine's configuration: everything but the three counters. *)
Definition same_configuration (p q : OpenCVProcessor) : Prop :=
  mInitialized q = mInitialized p
  /\ mOpenCVAvailable q = mOpenCVAvailable p
  /\ mCannyLowThreshold q = mCannyLowThreshold p
  /\ mCannyHighThreshold q = mCannyHighThreshold p
  /\ mCannyApertureSize q = mCannyApertureSize p.

(** Sample bitmaps: a 2 x 2 RGBA_8888 one, and one in format RGB_565. *)
Definition rgba_bitmap (pixels : list Z) : Bitmap :=
  {| bitmapInfo := Some {| bmWidth := 2; bmHeight := 2; bmStride := 8;
                           bmFormat := ANDROID_BITMAP_FORMAT_RGBA_8888 |};
     bitmapPixels := Some pixels |}.

Definition rgb565_bitmap (pixels : list Z) : Bitmap :=
  {| bitmapInfo := Some {| bmWidth := 2; bmHeight := 2; bmStride := 4;
                           bmFormat := 4 |};
     bitmapPixels := Some pixels |}.

(** An environment in which every array can be pinned, and one in which
    none can. *)
Definition pinning_env : JNIEnv := {| pins := fun _ => true |}.
Definition failing_env : JNIEnv := {| pins := fun _ => false |}.

Example lit_0_299f_bits : lit_0_299f = S754_finite false 10032775 (-25).
Proof. reflexivity. Qed.
Example lit_0_587f_bits : lit_0_587f = S754_finite false 9848226 (-24).
Proof. reflexivity. Qed.
Example lit_0_114f_bits : lit_0_114f = S754_finite false 15300821 (-27).
Proof. reflexivity. Qed.

Example rgbaToGray_mid_gray : ImageUtils.rgbaToGray 128 128 128 = 128.
Proof. vm_compute. reflexivity. Qed.

Example magnitude_3_4 : ImageUtils.magnitude 3 4 = 5.
Proof. vm_compute. reflexivity. Qed.
Example magnitude_2_2 : ImageUtils.magnitude 2 2 = 2.
Proof. vm_compute. reflexivity. Qed.
Example magnitude_clip : ImageUtils.magnitude 1020 1020 = 255.
Proof. vm_compute. reflexivity. Qed.

Example sobel_3x3 :
  ImageUtils.simpleEdgeDetection [0;0;255; 0;0;255; 0;0;255] 3 3 (replicate 9 7)
  = [0;0;0; 0;255;0; 0;0;0].
Proof. vm_compute. reflexivity. Qed.

(** The [double] quotient 10 / 2 is 5.0, that is [5 * 2 ^ 50 * 2 ^ - 50]. *)
Example average_of_4_and_6 :
  F64.div (F64.of_Z 10) (F64.of_Z 2) = S754_finite false 5629499534213120 (-50).
Proof. vm_compute. reflexivity. Qed.

(** A 2x2 mid-gray frame is unchanged by Grayscale; the 3x3 frame with a
    white right column has one interior pixel, which is an edge. *)
Example grayscale_mid_gray_frame :
  snd (Processor.processFrame (cv := no_opencv) (heap := stale_heap)
      ready_engine (0, 1)
         (Some gray_frame) 2 2 MODE_GRAYSCALE (Some (replicate 16 0)))
  = Some gray_frame.
Proof. vm_compute. reflexivity. Qed.

Example edge_detect_edge_frame :
  snd (Processor.processFrame (cv := no_opencv) (heap := stale_heap)
      ready_engine (0, 1)
         (Some edge_frame) 3 3 MODE_EDGE (Some (replicate 36 0)))
  = Some (flat_map (fun v => [v; v; v; 255]) [0; 0; 0; 0; 255; 0; 0; 0; 0]).
Proof. vm_compute. reflexivity. Qed.

(** * Properties *)

(** ** Integers and buffers *)

Lemma wrap_int_id x : - 2147483648 <= x <= INT_MAX -> wrap_int x = x.
Proof.
  unfold wrap_int, INT_MAX. intros H.
  change (2 ^ 31) with 2147483648. change (2 ^ 32) with 4294967296.
  rewrite Z.mod_small; lia.
Qed.

Lemma to_size_t_id x : 0 <= x <= INT_MAX -> to_size_t x = x.
Proof.
  unfold to_size_t, INT_MAX. intros H.
  change (2 ^ 64) with 18446744073709551616. rewrite Z.mod_small; lia.
Qed.

Lemma frame_dims_pixels w h :
  frame_dims w h -> 0 < w * h /\ w * h <= INT_MAX.
Proof. unfold frame_dims, INT_MAX. intros (Hw & Hh & Hb). split; nia. Qed.

Lemma int_mul_pixels w h : frame_dims w h -> int_mul w h = w * h.
Proof.
  intros H. destruct (frame_dims_pixels _ _ H).
  unfold int_mul. apply wrap_int_id. lia.
Qed.

Lemma int_mul_bytes w h :
  frame_dims w h -> int_mul (int_mul w h) 4 = w * h * 4.
Proof.
  intros H. rewrite (int_mul_pixels _ _ H).
  destruct (frame_dims_pixels _ _ H). destruct H as (_ & _ & Hb).
  unfold int_mul. apply wrap_int_id. lia.
Qed.

Lemma to_u8_id v : is_byte v -> to_u8 v = v.
Proof. unfold to_u8, is_byte. intros H. apply Z.mod_small. lia. Qed.

Lemma length_store buf i v : length (store buf i v) = length buf.
Proof. unfold store. destruct (i <? 0); [done | apply length_insert]. Qed.

Lemma load_store_eq buf i v :
  0 <= i < Z.of_nat (length buf) -> load (store buf i v) i = v.
Proof.
  intros H. unfold load, store.
  destruct (Z.ltb_spec i 0); [lia |].
  rewrite list_lookup_insert_eq by lia. done.
Qed.

Lemma load_store_ne buf i j v :
  i <> j -> load (store buf i v) j = load buf j.
Proof.
  intros H. unfold load, store.
  destruct (Z.ltb_spec j 0); [done |].
  destruct (Z.ltb_spec i 0); [done |].
  rewrite list_lookup_insert_ne by lia. done.
Qed.

Lemma load_byte buf i : Forall is_byte buf -> is_byte (load buf i).
Proof.
  intros H. unfold load. destruct (i <? 0); [unfold is_byte; lia |].
  destruct (buf !! Z.to_nat i) as [v|] eqn:E; simpl; [| unfold is_byte; lia].
  eapply Forall_lookup_1; eauto.
Qed.

Lemma load_app_l a b i :
  0 <= i < Z.of_nat (length a) -> load (a ++ b) i = load a i.
Proof.
  intros H. unfold load. destruct (Z.ltb_spec i 0); [lia |].
  rewrite lookup_app_l by lia. done.
Qed.

Lemma load_take n buf i : 0 <= i < n -> load (take (Z.to_nat n) buf) i = load buf i.
Proof.
  intros H. unfold load. destruct (Z.ltb_spec i 0); [lia |].
  rewrite lookup_take_lt by lia. done.
Qed.

Lemma load_replicate n v i : 0 <= i < n -> load (replicate (Z.to_nat n) v) i = v.
Proof.
  intros H. unfold load. destruct (Z.ltb_spec i 0); [lia |].
  rewrite lookup_replicate_2 by lia. done.
Qed.

Lemma load_ext (a b : list Z) :
  length a = length b ->
  (forall i, 0 <= i < Z.of_nat (length a) -> load a i = load b i) ->
  a = b.
Proof.
  intros Hlen Hload. apply list_eq. intros n.
  destruct (Nat.lt_ge_cases n (length a)) as [Hlt | Hge].
  - specialize (Hload (Z.of_nat n) ltac:(lia)). unfold load in Hload.
    destruct (Z.ltb_spec (Z.of_nat n) 0); [lia |].
    rewrite Nat2Z.id in Hload.
    destruct (lookup_lt_is_Some_2 a n Hlt) as [x Hx].
    destruct (lookup_lt_is_Some_2 b n ltac:(lia)) as [y Hy].
    rewrite Hx, Hy in *. simpl in Hload. by subst.
  - rewrite !lookup_ge_None_2 by lia. done.
Qed.

Lemma length_memcpy dst src n :
  0 <= n <= Z.of_nat (length src) -> n <= Z.of_nat (length dst) ->
  length (memcpy dst src n) = length dst.
Proof.
  intros Hs Hd. unfold memcpy.
  rewrite length_app, length_take, length_drop. lia.
Qed.

Lemma load_memcpy_copied dst src n i :
  0 <= i < n -> n <= Z.of_nat (length src) ->
  load (memcpy dst src n) i = load src i.
Proof.
  intros Hi Hs. unfold memcpy.
  rewrite load_app_l by (rewrite length_take; lia).
  apply load_take. lia.
Qed.

Lemma length_memset dst v n :
  0 <= n <= Z.of_nat (length dst) -> length (memset dst v n) = length dst.
Proof.
  intros H. unfold memset. rewrite length_app, length_replicate, length_drop. lia.
Qed.

Lemma load_memset dst v n i : 0 <= i < n -> load (memset dst v n) i = v.
Proof.
  intros H. unfold memset.
  rewrite load_app_l by (rewrite length_replicate; lia).
  apply load_replicate. lia.
Qed.

(** ** Loops *)

Lemma for_loop_empty {S : Type} lo hi (body : Z -> S -> S) s :
  hi <= lo -> for_loop lo hi body s = s.
Proof. intros H. unfold for_loop. rewrite seqZ_nil by lia. done. Qed.

Lemma for_loop_last {S : Type} lo hi (body : Z -> S -> S) s :
  lo <= hi ->
  for_loop lo (hi + 1) body s = body hi (for_loop lo hi body s).
Proof.
  intros H. unfold for_loop.
  replace (hi + 1 - lo) with (Z.of_nat (Datatypes.S (Z.to_nat (hi - lo)))) by lia.
  rewrite seqZ_S, foldl_app. simpl.
  replace (Z.of_nat (Z.to_nat (hi - lo))) with (hi - lo) by lia.
  f_equal. lia.
Qed.

(** The invariant rule: [P i s] holds of the state before iteration [i]. *)
Lemma for_loop_invariant {S : Type} (P : Z -> S -> Prop) lo hi
    (body : Z -> S -> S) s :
  lo <= hi ->
  P lo s ->
  (forall i s', lo <= i < hi -> P i s' -> P (i + 1) (body i s')) ->
  P hi (for_loop lo hi body s).
Proof.
  intros Hle H0 Hstep.
  replace hi with (lo + Z.of_nat (Z.to_nat (hi - lo))) in * by lia.
  generalize dependent (Z.to_nat (hi - lo)). intros n _ Hstep.
  induction n as [|n IH].
  - rewrite for_loop_empty by lia. replace (lo + Z.of_nat 0) with lo by lia. done.
  - replace (lo + Z.of_nat (Datatypes.S n)) with (lo + Z.of_nat n + 1) by lia.
    rewrite for_loop_last by lia. apply Hstep; [lia |].
    apply IH. intros i s' Hi. apply Hstep. lia.
Qed.

Lemma for_loop_ext {S : Type} lo hi (body body' : Z -> S -> S) s :
  (forall i s', lo <= i < hi -> body i s' = body' i s') ->
  for_loop lo hi body s = for_loop lo hi body' s.
Proof.
  intros Hext. destruct (Z.le_gt_cases lo hi) as [Hle | Hgt].
  - apply (for_loop_invariant (fun k t => t = for_loop lo k body' s));
      [done | by rewrite for_loop_empty |].
    intros i t Hi ->. rewrite for_loop_last by lia. by apply Hext.
  - by rewrite !for_loop_empty by lia.
Qed.

(** ** Floating-point rounding

    What the proofs need of [SpecFloat]: a shift to the right keeps the
    round and sticky bits of what it drops, rounding to nearest moves a
    value by at most half a unit in the last place, and a conversion to
    an integer truncates. *)

Lemma pow2_succ k : 0 <= k -> 2 ^ (k + 1) = 2 * 2 ^ k.
Proof. intros H. rewrite Z.pow_add_r by lia. lia. Qed.

Lemma digits2_pos_bounds (m : positive) :
  2 ^ (Zpos (digits2_pos m) - 1) <= Zpos m < 2 ^ Zpos (digits2_pos m).
Proof.
  induction m as [m IH | m IH |]; simpl digits2_pos.
  - rewrite Pos2Z.inj_succ.
    replace (Z.succ (Zpos (digits2_pos m)) - 1) with (Zpos (digits2_pos m) - 1 + 1) by lia.
    rewrite Z.pow_succ_r by lia. rewrite pow2_succ by lia. lia.
  - rewrite Pos2Z.inj_succ.
    replace (Z.succ (Zpos (digits2_pos m)) - 1) with (Zpos (digits2_pos m) - 1 + 1) by lia.
    rewrite Z.pow_succ_r by lia. rewrite pow2_succ by lia. lia.
  - simpl. lia.
Qed.

Lemma digits2_pos_unique (m : positive) (d : Z) :
  2 ^ (d - 1) <= Zpos m < 2 ^ d -> Zpos (digits2_pos m) = d.
Proof.
  intros [Hlo Hhi]. pose proof (digits2_pos_bounds m) as [Hlo' Hhi'].
  set (d' := Zpos (digits2_pos m)) in *.
  assert (0 < d) by (destruct (Z.lt_ge_cases 0 d); [done |];
    rewrite Z.pow_neg_r in Hlo by lia;
    destruct (Z.eq_dec d 0) as [-> | ?]; [simpl in Hhi; lia | rewrite Z.pow_neg_r in Hhi by lia; lia]).
  destruct (Z.lt_trichotomy d' d) as [Hlt | [Heq | Hgt]]; [| done |].
  - assert (2 ^ d' <= 2 ^ (d - 1)) by (apply Z.pow_le_mono_r; lia). lia.
  - assert (2 ^ d <= 2 ^ (d' - 1)) by (apply Z.pow_le_mono_r; lia). lia.
Qed.

Lemma iter_pos_invariant {A : Type} (f : A -> A) (P : Z -> A -> Prop) :
  (forall k x, 0 <= k -> P k x -> P (k + 1) (f x)) ->
  forall p k x, 0 <= k -> P k x -> P (k + Zpos p) (SpecFloat.iter_pos f p x).
Proof.
  intros Hstep. induction p as [p IH | p IH |]; intros k x Hk HP; simpl.
  - replace (k + Zpos p~1) with (k + 1 + Zpos p + Zpos p) by lia.
    apply IH; [lia |]. apply IH; [lia |]. by apply Hstep.
  - replace (k + Zpos p~0) with (k + Zpos p + Zpos p) by lia.
    apply IH; [lia |]. by apply IH.
  - by apply Hstep.
Qed.

Lemma shr_1_inv N k mrs : 0 <= k -> shr_inv N k mrs -> shr_inv N (k + 1) (shr_1 mrs).
Proof.
  intros Hk (Hm & delta & HN & Hd).
  assert (HP : 0 < 2 ^ k) by (apply Z.pow_pos_nonneg; lia).
  destruct mrs as [m r s]. simpl in *. unfold shr_inv.
  rewrite (pow2_succ k Hk).
  destruct m as [|[p|p|]|p]; simpl shr_m; simpl shr_r; simpl shr_s; try lia.
  all: split; [lia |].
  all: exists ((if r then 2 ^ k else 0) + delta).
  all: destruct r, s; simpl orb; cbv iota; split; try lia.
Qed.

Lemma shr_exact (m : positive) (e n : Z) :
  exists mrs,
    shr (shr_record_of_loc (Zpos m) loc_Exact) e n = (mrs, e + Z.max 0 n)
    /\ shr_inv (Zpos m) (Z.max 0 n) mrs
    /\ (n <= 0 -> mrs = Build_shr_record (Zpos m) false false).
Proof.
  assert (H0 : shr_inv (Zpos m) 0 (Build_shr_record (Zpos m) false false)).
  { split; [simpl; lia |]. exists 0. simpl. lia. }
  destruct n as [|p|p]; simpl shr.
  - eexists. rewrite Z.add_0_r. split; [reflexivity |]. split; [exact H0 | done].
  - eexists. replace (Z.max 0 (Zpos p)) with (Zpos p) by lia.
    split; [reflexivity |]. split; [| lia].
    apply (iter_pos_invariant shr_1 (shr_inv (Zpos m)) (shr_1_inv (Zpos m)) p 0);
      [lia | exact H0].
  - eexists. replace (Z.max 0 (Zneg p)) with 0 by lia. rewrite Z.add_0_r.
    split; [reflexivity |]. split; [exact H0 | done].
Qed.

Lemma round_nearest_even_inv (N k : Z) (mrs : shr_record) :
  0 <= k -> shr_inv N k mrs ->
  let m2 := round_nearest_even (shr_m mrs) (loc_of_shr_record mrs) in
  shr_m mrs <= m2 <= shr_m mrs + 1
  /\ shr_m mrs * 2 ^ k <= N < (shr_m mrs + 1) * 2 ^ k
  /\ Z.abs (m2 * 2 ^ k - N) * 2 <= 2 ^ k.
Proof.
  intros Hk (Hm & delta & HN & Hd).
  assert (HP : 0 < 2 ^ k) by (apply Z.pow_pos_nonneg; lia).
  destruct mrs as [m r s]. simpl in *.
  destruct r, s; simpl; try destruct (Z.even m); nia.
Qed.

Section Rounding.
Variables prec emax : Z.
Hypothesis Hprec : 1 < prec.
Hypothesis Hemax : prec < emax.

Lemma binary_round_aux_exact (mx : positive) (ex : Z) :
  emin prec emax <= ex ->
  ex + Zpos (digits2_pos mx) < emax ->
  ex + prec <= emax ->
  exists m' e',
    binary_round_aux prec emax false (Zpos mx) ex loc_Exact
    = S754_finite false m' e'
    /\ ex <= e'
    /\ Z.abs (Zpos m' * 2 ^ (e' - ex) - Zpos mx) * 2 ^ prec <= Zpos mx
    /\ (Zpos (digits2_pos mx) <= prec -> m' = mx /\ e' = ex).
Proof.
  intros Hmin Hov Hov'.
  pose proof (digits2_pos_bounds mx) as Hd.
  set (d := Zpos (digits2_pos mx)) in *.
  assert (HQ : 0 < 2 ^ prec) by (apply Z.pow_pos_nonneg; lia).
  unfold binary_round_aux, shr_fexp. simpl Zdigits2. fold d.
  unfold fexp. fold (emin prec emax).
  set (n := Z.max (d + ex - prec) (emin prec emax) - ex).
  destruct (shr_exact mx ex n) as (mrs & -> & Hinv & Hsmall).
  destruct (Z.le_gt_cases d prec) as [Hdp | Hdp].
  - (* the mantissa fits: nothing is shifted out *)
    assert (Hn : n <= 0) by (unfold n; lia).
    rewrite (Hsmall Hn). replace (Z.max 0 n) with 0 by lia.
    rewrite Z.add_0_r. simpl shr_m. simpl loc_of_shr_record.
    simpl round_nearest_even. simpl Zdigits2. fold d. fold n.
    destruct (shr_exact mx ex n) as (mrs' & -> & _ & Hsmall').
    rewrite (Hsmall' Hn). replace (Z.max 0 n) with 0 by lia.
    rewrite Z.add_0_r. simpl shr_m.
    destruct (Z.leb_spec ex (emax - prec)); [| lia].
    exists mx, ex. split; [done |]. split; [lia |].
    rewrite Z.sub_diag. simpl (2 ^ 0). split; [lia | done].
  - (* [k = d - prec] bits are shifted out and rounded *)
    assert (Hn : n = d - prec) by (unfold n; lia).
    set (k := d - prec) in *. assert (Hk : 0 < k) by (unfold k; lia).
    replace (Z.max 0 n) with k in * by lia.
    destruct (round_nearest_even_inv (Zpos mx) k mrs ltac:(lia) Hinv)
      as (Hm2 & Hm1 & Herr).
    set (m1 := shr_m mrs) in *.
    set (m2 := round_nearest_even m1 (loc_of_shr_record mrs)) in *.
    assert (HP : 0 < 2 ^ k) by (apply Z.pow_pos_nonneg; lia).
    assert (Hdk : 2 ^ d = 2 ^ prec * 2 ^ k).
    { unfold k. rewrite <- Z.pow_add_r by lia. f_equal. lia. }
    assert (Hdk' : 2 ^ (d - 1) = 2 ^ (prec - 1) * 2 ^ k).
    { unfold k. rewrite <- Z.pow_add_r by lia. f_equal. lia. }
    assert (HQ' : 2 ^ prec = 2 * 2 ^ (prec - 1)).
    { rewrite <- (pow2_succ (prec - 1)) by lia. f_equal. lia. }
    assert (Hm1b : 2 ^ (prec - 1) <= m1 < 2 ^ prec) by nia.
    assert (Hm2pos : 0 < m2) by lia.
    destruct m2 as [|q|q] eqn:Eq2; [lia | | lia].
    simpl Zdigits2.
    assert (Herr' : Z.abs (Zpos q * 2 ^ k - Zpos mx) * 2 ^ prec <= Zpos mx) by nia.
    destruct (Z.eq_dec (Zpos q) (2 ^ prec)) as [Hcarry | Hnc].
    + (* the rounding carried into a new bit *)
      assert (Hdq : Zpos (digits2_pos q) = prec + 1).
      { apply digits2_pos_unique. rewrite pow2_succ by lia.
        replace (prec + 1 - 1) with prec by lia. lia. }
      rewrite Hdq.
      set (n2 := Z.max (prec + 1 + (ex + k) - prec) (emin prec emax) - (ex + k)).
      assert (Hn2 : n2 = 1) by (unfold n2; lia).
      destruct (shr_exact q (ex + k) n2) as (mrs2 & -> & Hinv2 & _).
      rewrite Hn2 in *. replace (Z.max 0 1) with 1 in * by lia.
      destruct Hinv2 as (Hm3 & delta & H2 & Hdel).
      change (2 ^ 1) with 2 in *.
      assert (Hm3v : shr_m mrs2 * 2 = Zpos q).
      { destruct (shr_r mrs2), (shr_s mrs2); nia. }
      destruct (shr_m mrs2) as [|m3|m3] eqn:Em3; [lia | | lia].
      destruct (Z.leb_spec (ex + k + 1) (emax - prec)); [| unfold k in *; lia].
      exists m3, (ex + k + 1). split; [done |]. split; [lia |].
      replace (ex + k + 1 - ex) with (k + 1) by lia.
      rewrite pow2_succ by lia. split; [nia | lia].
    + assert (Hdq : Zpos (digits2_pos q) = prec).
      { apply digits2_pos_unique. lia. }
      rewrite Hdq.
      set (n2 := Z.max (prec + (ex + k) - prec) (emin prec emax) - (ex + k)).
      assert (Hn2 : n2 = 0) by (unfold n2; lia).
      destruct (shr_exact q (ex + k) n2) as (mrs2 & -> & _ & Hsmall2).
      rewrite (Hsmall2 ltac:(lia)). rewrite Hn2. simpl shr_m.
      replace (ex + k + Z.max 0 0) with (ex + k) by lia.
      destruct (Z.leb_spec (ex + k) (emax - prec)); [| unfold k in *; lia].
      exists q, (ex + k). split; [done |]. split; [lia |].
      replace (ex + k - ex) with k by lia. split; [exact Herr' | lia].
Qed.
End Rounding.

Lemma pos_iter_xO (m d : positive) :
  Zpos (Pos.iter xO m d) = Zpos m * 2 ^ Zpos d.
Proof.
  induction d as [|d IH] using Pos.peano_ind.
  - simpl. lia.
  - rewrite Pos.iter_succ, Pos2Z.inj_succ, Z.pow_succ_r by lia.
    rewrite Pos2Z.inj_xO, IH. lia.
Qed.

Lemma shl_align_spec (mx : positive) (ex ex' : Z) :
  exists m' e',
    shl_align mx ex ex' = (m', e')
    /\ e' = Z.min ex ex' /\ Zpos m' = Zpos mx * 2 ^ (ex - e').
Proof.
  unfold shl_align. destruct (ex' - ex) as [|d|d] eqn:E.
  - exists mx, ex. replace (Z.min ex ex') with ex by lia.
    rewrite Z.sub_diag. simpl. split; [done |]. split; [done | lia].
  - exists mx, ex. replace (Z.min ex ex') with ex by lia.
    rewrite Z.sub_diag. simpl. split; [done |]. split; [done | lia].
  - exists (Pos.iter xO mx d), ex'. replace (Z.min ex ex') with ex' by lia.
    split; [done |]. split; [done |].
    rewrite pos_iter_xO. f_equal. f_equal. lia.
Qed.

Lemma digits2_pos_shift (n m : positive) (j : Z) :
  0 <= j -> Zpos m = Zpos n * 2 ^ j ->
  Zpos (digits2_pos m) = Zpos (digits2_pos n) + j.
Proof.
  intros Hj Hm. apply digits2_pos_unique. rewrite Hm.
  pose proof (digits2_pos_bounds n) as [Hlo Hhi].
  assert (0 < 2 ^ j) by (apply Z.pow_pos_nonneg; lia).
  replace (Zpos (digits2_pos n) + j - 1) with (Zpos (digits2_pos n) - 1 + j) by lia.
  rewrite !Z.pow_add_r by lia. nia.
Qed.

Section Values.
Variables prec emax : Z.
Hypothesis Hprec : 1 < prec.
Hypothesis Hemax : prec < emax.

Let emin := SpecFloat.emin prec emax.

Lemma binary_round_val (n : positive) (ez : Z) :
  emin <= ez ->
  ez + Zpos (digits2_pos n) < emax ->
  exists m' e',
    binary_round prec emax false n ez = S754_finite false m' e'
    /\ emin <= e'
    /\ Z.abs (Zpos m' * 2 ^ (e' - emin) - Zpos n * 2 ^ (ez - emin)) * 2 ^ prec
       <= Zpos n * 2 ^ (ez - emin)
    /\ (Zpos (digits2_pos n) <= prec ->
        e' = Z.max (Zpos (digits2_pos n) + ez - prec) emin
        /\ Zpos m' = Zpos n * 2 ^ (ez - e')).
Proof.
  intros Hmin Hov. unfold binary_round.
  set (d := Zpos (digits2_pos n)) in *.
  assert (Hd : 0 < d) by (unfold d; lia).
  unfold fexp. fold emin. set (t := Z.max (d + ez - prec) emin).
  destruct (shl_align_spec n ez t) as (n' & e0 & -> & He0 & Hn').
  assert (Hemin : emin = 3 - emax - prec) by reflexivity.
  assert (HU : 0 < 2 ^ (ez - emin)) by (apply Z.pow_pos_nonneg; lia).
  destruct (Z.le_gt_cases d prec) as [Hdp | Hdp].
  - (* the mantissa is shifted left to its canonical exponent *)
    assert (Ht : e0 = t) by (unfold t in *; lia).
    assert (Hdn' : Zpos (digits2_pos n') = d + (ez - e0)).
    { apply (digits2_pos_shift n); [unfold t in *; lia | done]. }
    destruct (binary_round_aux_exact prec emax Hprec n' e0)
      as (m' & e' & -> & _ & _ & Hex); [unfold t in *; lia ..|].
    destruct Hex as [-> ->]; [unfold t in *; lia |].
    exists n', e0. split; [done |]. split; [unfold t in *; lia |].
    assert (Hval : Zpos n' * 2 ^ (e0 - emin) = Zpos n * 2 ^ (ez - emin)).
    { rewrite Hn', <- Z.mul_assoc, <- Z.pow_add_r by (unfold t in *; lia).
      f_equal. f_equal. lia. }
    rewrite Hval, Z.sub_diag. simpl Z.abs. split; [lia |].
    intros _. split; [by rewrite Ht | done].
  - (* the mantissa is rounded *)
    assert (Ht : e0 = ez) by (unfold t in *; lia).
    assert (Hn'' : n' = n).
    { rewrite Ht, Z.sub_diag in Hn'. simpl in Hn'. lia. }
    clear He0. subst n' e0.
    destruct (binary_round_aux_exact prec emax Hprec n ez)
      as (m' & e' & -> & Hle & Herr & _); [fold d; lia ..|].
    exists m', e'. split; [done |]. split; [lia |]. split; [| fold d; lia].
    replace (e' - emin) with ((e' - ez) + (ez - emin)) by lia.
    rewrite Z.pow_add_r by lia. rewrite Z.mul_assoc.
    rewrite <- Z.mul_sub_distr_r, Z.abs_mul, (Z.abs_eq (2 ^ (ez - emin))) by lia.
    nia.
Qed.

Lemma SFnonneg_val x : SFnonneg prec emax x -> 0 <= SFval prec emax x.
Proof.
  destruct x as [[]|[]| |[] m e]; simpl; lia.
Qed.

(** Adding two non-negative floats: a non-negative float within relative
    error [2 ^ - prec] of the sum. *)
Lemma SFadd_nonneg (x y : spec_float) :
  SFnonneg prec emax x -> SFnonneg prec emax y ->
  SFval prec emax x + SFval prec emax y < 2 ^ (emax - 1 - emin) ->
  SFnonneg prec emax (SFadd prec emax x y)
  /\ Z.abs (SFval prec emax (SFadd prec emax x y) - (SFval prec emax x + SFval prec emax y)) * 2 ^ prec
     <= SFval prec emax x + SFval prec emax y.
Proof.
  intros Hx Hy Hov.
  assert (Hemin : emin = 3 - emax - prec) by reflexivity.
  assert (HQ : 0 < 2 ^ prec) by (apply Z.pow_pos_nonneg; lia).
  destruct x as [[]|[]| |[] mx ex]; try done;
    destruct y as [[]|[]| |[] my ey]; try done.
  - simpl SFadd. split; [done |]. simpl SFval.
    pose proof (SFnonneg_val _ Hy) as H0. simpl in H0.
    replace (_ - (0 + _)) with 0 by lia. simpl. lia.
  - simpl SFadd. split; [done |]. simpl SFval.
    pose proof (SFnonneg_val _ Hx) as H0. simpl in H0.
    replace (_ - (_ + 0)) with 0 by lia. simpl. lia.
  - simpl in Hx, Hy. unfold SFadd.
    set (ez := Z.min ex ey).
    destruct (shl_align_spec mx ex ez) as (ax & e1 & -> & He1 & Hax).
    destruct (shl_align_spec my ey ez) as (ay & e2 & -> & He2 & Hay).
    simpl fst. simpl cond_Zopp.
    change (Zpos ax + Zpos ay) with (Zpos (ax + ay)). unfold binary_normalize.
    assert (He1' : e1 = ez) by (unfold ez in *; lia).
    assert (He2' : e2 = ez) by (unfold ez in *; lia).
    subst e1 e2.
    assert (Hsum : Zpos (ax + ay) * 2 ^ (ez - emin)
                   = Zpos mx * 2 ^ (ex - emin) + Zpos my * 2 ^ (ey - emin)).
    { rewrite Pos2Z.inj_add, Hax, Hay, Z.mul_add_distr_r.
      rewrite <- !Z.mul_assoc, <- !Z.pow_add_r by (unfold ez; lia).
      f_equal; f_equal; f_equal; lia. }
    simpl SFval in Hov |- *. fold emin in Hov |- *. rewrite <- Hsum in *.
    assert (Hdig : ez + Zpos (digits2_pos (ax + ay)) < emax).
    { pose proof (digits2_pos_bounds (ax + ay)) as [Hlo _].
      set (d := Zpos (digits2_pos (ax + ay))) in *.
      assert (Hd : 0 < d) by (unfold d; lia).
      assert (HU : 0 < 2 ^ (ez - emin))
        by (apply Z.pow_pos_nonneg; unfold ez; lia).
      assert (H1 : 2 ^ (d - 1 + (ez - emin)) < 2 ^ (emax - 1 - emin)).
      { rewrite Z.pow_add_r by (unfold ez; lia).
        apply Z.le_lt_trans with (Zpos (ax + ay) * 2 ^ (ez - emin)); [| done].
        apply Z.mul_le_mono_nonneg_r; lia. }
      apply Z.pow_lt_mono_r_iff in H1; lia. }
    destruct (binary_round_val (ax + ay) ez ltac:(unfold ez; lia) Hdig)
      as (m' & e' & -> & Hmin' & Herr & _).
    split; [exact Hmin' | exact Herr].
Qed.

End Values.

(** Truncation of a non-negative float of value [v] (in units of
    [2 ^ emin], [emin <= 0]) is [v / 2 ^ (- emin)]. *)
Lemma trunc_nonneg prec emax (x : spec_float) :
  emin prec emax <= 0 ->
  SFnonneg prec emax x ->
  trunc x = SFval prec emax x / 2 ^ (- emin prec emax).
Proof.
  intros Hmin Hx. set (emin := SpecFloat.emin prec emax) in *.
  assert (HU : 0 < 2 ^ (- emin)) by (apply Z.pow_pos_nonneg; lia).
  destruct x as [[]|[]| |[] m e]; try done; simpl in Hx |- *.
  fold emin.
  destruct e as [|p|p].
  - rewrite Z.shiftl_0_r. replace (0 - emin) with (- emin) by lia.
    rewrite Z.div_mul by lia. done.
  - rewrite Z.shiftl_mul_pow2 by lia.
    replace (Zpos p - emin) with (Zpos p + - emin) by lia.
    rewrite Z.pow_add_r, Z.mul_assoc, Z.div_mul by lia. done.
  - rewrite Z.shiftr_div_pow2 by lia.
    replace (- emin) with (Zpos p + (Zneg p - emin)) by lia.
    assert (0 < 2 ^ (Zneg p - emin)) by (apply Z.pow_pos_nonneg; lia).
    assert (0 < 2 ^ Zpos p) by (apply Z.pow_pos_nonneg; lia).
    rewrite Z.pow_add_r by lia.
    rewrite Z.div_mul_cancel_r by lia. done.
Qed.

(** The integer square root of [p * 4 ^ K], shifted back by [K] bits, is
    the integer square root of [p]; so is its successor when the
    remainder exceeds it, as long as [p < 4 ^ K]. *)
Lemma sqrt_scaled (p P q r : Z) :
  0 <= p -> 0 < P -> p < P * P -> 0 <= q -> 0 <= r <= 2 * q ->
  q * q + r = p * (P * P) ->
  q / P = Z.sqrt p /\ (q < r -> (q + 1) / P = Z.sqrt p).
Proof.
  intros Hp HP HpP Hq Hr Heq.
  pose proof (Z.sqrt_spec p Hp) as [Hs1 Hs2].
  pose proof (Z.sqrt_nonneg p) as Hs0.
  set (S := Z.sqrt p) in *.
  assert (H1 : S * P <= q).
  { destruct (Z.le_gt_cases (S * P) q) as [|Hc]; [done | exfalso].
    assert ((q + 1) * (q + 1) <= (S * P) * (S * P))
      by (apply Z.mul_le_mono_nonneg; lia).
    assert (S * S * (P * P) <= p * (P * P))
      by (apply Z.mul_le_mono_nonneg_r; nia).
    nia. }
  assert (H2 : q < (S + 1) * P).
  { destruct (Z.lt_ge_cases q ((S + 1) * P)) as [|Hc]; [done | exfalso].
    assert (((S + 1) * P) * ((S + 1) * P) <= q * q)
      by (apply Z.mul_le_mono_nonneg; nia).
    assert ((p + 1) * (P * P) <= (S + 1) * (S + 1) * (P * P))
      by (apply Z.mul_le_mono_nonneg_r; nia).
    nia. }
  split.
  - symmetry. apply (Z.div_unique_pos q P S (q - S * P)); lia.
  - intros Hgt.
    assert (H3 : q + 1 < (S + 1) * P).
    { destruct (Z.eq_dec (q + 1) ((S + 1) * P)) as [Hc |]; [exfalso | lia].
      assert (HS : S + 1 <= P).
      { destruct (Z.le_gt_cases (S + 1) P) as [|Hc']; [done | exfalso].
        assert (P * P <= S * S) by (apply Z.mul_le_mono_nonneg; lia). lia. }
      assert ((p + 1) * (P * P) <= (S + 1) * (S + 1) * (P * P))
        by (apply Z.mul_le_mono_nonneg_r; nia).
      assert (P * (S + 1) <= P * P) by (apply Z.mul_le_mono_nonneg_l; lia).
      nia. }
    symmetry. apply (Z.div_unique_pos (q + 1) P S (q + 1 - S * P)); lia.
Qed.

Lemma shr_record_of_loc_inv m l :
  shr_m (shr_record_of_loc m l) = m
  /\ loc_of_shr_record (shr_record_of_loc m l) = l.
Proof. destruct l as [|[]]; done. Qed.

Lemma trunc_finite_neg (m : positive) (e : Z) :
  e < 0 -> trunc (S754_finite false m e) = Zpos m / 2 ^ (- e).
Proof.
  intros He. destruct e as [|p|p]; try lia.
  simpl. rewrite Z.shiftr_div_pow2 by lia. done.
Qed.

(** Rounding a mantissa of exactly [prec] digits with a given location:
    nothing is shifted out, the mantissa is bumped or not. *)
Lemma binary_round_aux_full prec emax (q : positive) (e : Z) (l : location) :
  1 < prec ->
  Zpos (digits2_pos q) = prec ->
  emin prec emax <= e -> e + 1 <= emax - prec ->
  exists m3 e3,
    binary_round_aux prec emax false (Zpos q) e l = S754_finite false m3 e3
    /\ e <= e3 <= e + 1
    /\ Zpos m3 * 2 ^ (e3 - e) = round_nearest_even (Zpos q) l.
Proof.
  intros Hprec Hdq Hmin Hov.
  pose proof (digits2_pos_bounds q) as Hq. rewrite Hdq in Hq.
  assert (HQ' : 2 ^ prec = 2 * 2 ^ (prec - 1)).
  { rewrite <- (pow2_succ (prec - 1)) by lia. f_equal. lia. }
  unfold binary_round_aux, shr_fexp. simpl Zdigits2. rewrite Hdq.
  unfold fexp. replace (Z.max (prec + e - prec) (emin prec emax) - e) with 0 by lia.
  simpl shr.
  destruct (shr_record_of_loc_inv (Zpos q) l) as [-> ->].
  set (q2 := round_nearest_even (Zpos q) l).
  assert (Hq2 : Zpos q <= q2 <= Zpos q + 1).
  { unfold q2, round_nearest_even.
    destruct l as [|[]]; try destruct (Z.even (Zpos q)); lia. }
  destruct q2 as [|q2p|q2p] eqn:E2; [lia | | lia].
  simpl Zdigits2.
  destruct (Z.eq_dec (Zpos q2p) (2 ^ prec)) as [Hcarry | Hnc].
  - assert (Hd2 : Zpos (digits2_pos q2p) = prec + 1).
    { apply digits2_pos_unique. rewrite pow2_succ by lia.
      replace (prec + 1 - 1) with prec by lia. lia. }
    rewrite Hd2.
    replace (Z.max (prec + 1 + e - prec) (emin prec emax) - e) with 1 by lia.
    change {| shr_m := Zpos q2p; shr_r := false; shr_s := false |}
      with (shr_record_of_loc (Zpos q2p) loc_Exact).
    destruct (shr_exact q2p e 1) as (mrs2 & -> & Hinv2 & _).
    replace (Z.max 0 1) with 1 in * by lia.
    destruct Hinv2 as (Hm3 & delta & H2 & Hdel).
    change (2 ^ 1) with 2 in *.
    assert (Hm3v : shr_m mrs2 * 2 = Zpos q2p).
    { destruct (shr_r mrs2), (shr_s mrs2); nia. }
    destruct (shr_m mrs2) as [|m3|m3] eqn:Em3; [lia | | lia].
    destruct (Z.leb_spec (e + 1) (emax - prec)); [| lia].
    exists m3, (e + 1). split; [done |]. split; [lia |].
    replace (e + 1 - e) with 1 by lia. change (2 ^ 1) with 2. lia.
  - assert (Hd2 : Zpos (digits2_pos q2p) = prec).
    { apply digits2_pos_unique. lia. }
    rewrite Hd2.
    replace (Z.max (prec + e - prec) (emin prec emax) - e) with 0 by lia.
    simpl shr. cbv beta iota delta [shr_m].
    destruct (Z.leb_spec e (emax - prec)); [| lia].
    exists q2p, e. split; [done |]. split; [lia |].
    rewrite Z.sub_diag. simpl. lia.
Qed.

Lemma F64_of_Z_pos (p : positive) :
  Zpos (digits2_pos p) <= 53 ->
  exists m0,
    F64.of_Z (Zpos p) = S754_finite false m0 (Zpos (digits2_pos p) - 53)
    /\ Zpos m0 = Zpos p * 2 ^ (53 - Zpos (digits2_pos p)).
Proof.
  intros Hd. unfold F64.of_Z, binary_normalize.
  destruct (binary_round_val F64.prec F64.emax ltac:(done) ltac:(done) p 0)
    as (m' & e' & -> & _ & _ & Hex); [done | unfold F64.emax; lia |].
  destruct (Hex Hd) as [He' Hm'].
  change (emin F64.prec F64.emax) with (-1074) in He'.
  unfold F64.prec in He'.
  assert (He : e' = Zpos (digits2_pos p) - 53) by lia.
  exists m'. rewrite He in *. split; [done |]. rewrite Hm'. f_equal. f_equal. lia.
Qed.

(** [static_cast<int>(std::sqrt(n))] is the integer square root. *)
Lemma trunc_sqrt (n : Z) :
  0 <= n < 2 ^ 52 -> trunc (F64.sqrt (F64.of_Z n)) = Z.sqrt n.
Proof.
  intros Hn. destruct n as [|p|p]; [reflexivity | | lia].
  pose proof (digits2_pos_bounds p) as Hdp.
  set (d := Zpos (digits2_pos p)) in *.
  assert (Hd1 : 1 <= d) by (unfold d; lia).
  assert (Hd : d <= 52).
  { destruct (Z.le_gt_cases d 52) as [|Hc]; [done | exfalso].
    assert (2 ^ 52 <= 2 ^ (d - 1)) by (apply Z.pow_le_mono_r; lia). lia. }
  destruct (F64_of_Z_pos p ltac:(fold d; lia)) as (m0 & -> & Hm0). fold d in Hm0 |- *.
  assert (Hdm0 : Zpos (digits2_pos m0) = 53).
  { rewrite (digits2_pos_shift p m0 (53 - d)); [fold d; lia | lia | done]. }
  pose proof (digits2_pos_bounds m0) as Hm0b. rewrite Hdm0 in Hm0b.
  unfold F64.sqrt, SFsqrt, SFsqrt_core_binary. simpl Zdigits2. rewrite Hdm0.
  rewrite !Z.div2_div. unfold fexp.
  change (emin F64.prec F64.emax) with (-1074). unfold F64.prec.
  set (K := 53 - (d + 1) / 2).
  replace (Z.min (Z.max ((53 + (d - 53) + 1) / 2 - 53) (-1074)) ((d - 53) / 2))
    with (- K) by (unfold K; Z.to_euclidean_division_equations; lia).
  set (s := d - 53 - 2 * - K).
  assert (Hs : s = 2 * K - (53 - d)) by (unfold s; lia).
  assert (HK : 27 <= K <= 52)
    by (unfold K; Z.to_euclidean_division_equations; lia).
  assert (Hs' : 52 <= s <= 53)
    by (unfold K in *; Z.to_euclidean_division_equations; lia).
  destruct s as [|sp|sp] eqn:Es; [lia | | lia].
  rewrite Z.shiftl_mul_pow2 by lia.
  set (P := 2 ^ K).
  assert (HP : 0 < P) by (apply Z.pow_pos_nonneg; lia).
  assert (Hm' : Zpos m0 * 2 ^ Zpos sp = Zpos p * (P * P)).
  { rewrite Hm0, <- Z.mul_assoc, <- Z.pow_add_r by lia.
    unfold P. rewrite <- Z.pow_add_r by lia. f_equal. f_equal. lia. }
  rewrite Hm'.
  pose proof (Z.sqrtrem_spec (Zpos p * (P * P)) ltac:(nia)) as Hsr.
  destruct (Z.sqrtrem (Zpos p * (P * P))) as [q r]. destruct Hsr as [Hqr Hr].
  assert (Hq0 : 0 <= q) by lia.
  (* the root has 53 digits *)
  assert (Hlow : 2 ^ 104 <= Zpos m0 * 2 ^ Zpos sp).
  { change (2 ^ 104) with (2 ^ 52 * 2 ^ 52).
    assert (2 ^ 52 <= 2 ^ Zpos sp) by (apply Z.pow_le_mono_r; lia).
    apply Z.mul_le_mono_nonneg; lia. }
  assert (Hhigh : Zpos m0 * 2 ^ Zpos sp < 2 ^ 106).
  { change (2 ^ 106) with (2 ^ 53 * 2 ^ 53).
    assert (2 ^ Zpos sp <= 2 ^ 53) by (apply Z.pow_le_mono_r; lia).
    assert (0 < 2 ^ Zpos sp) by (apply Z.pow_pos_nonneg; lia).
    apply Z.lt_le_trans with (2 ^ 53 * 2 ^ Zpos sp);
      [apply Z.mul_lt_mono_pos_r; lia | apply Z.mul_le_mono_nonneg_l; lia]. }
  rewrite Hm' in Hlow, Hhigh.
  assert (Hqlo : 2 ^ 52 <= q).
  { destruct (Z.le_gt_cases (2 ^ 52) q) as [|Hc]; [done | exfalso].
    assert ((q + 1) * (q + 1) <= 2 ^ 52 * 2 ^ 52)
      by (apply Z.mul_le_mono_nonneg; lia).
    change (2 ^ 52 * 2 ^ 52) with (2 ^ 104) in *. lia. }
  assert (Hqhi : q < 2 ^ 53).
  { destruct (Z.lt_ge_cases q (2 ^ 53)) as [|Hc]; [done | exfalso].
    assert (2 ^ 53 * 2 ^ 53 <= q * q) by (apply Z.mul_le_mono_nonneg; lia).
    change (2 ^ 53 * 2 ^ 53) with (2 ^ 106) in *. lia. }
  destruct q as [|qp|qp]; [done | | lia].
  assert (Hdq : Zpos (digits2_pos qp) = 53).
  { apply digits2_pos_unique. change (53 - 1) with 52. lia. }
  set (l := if r =? 0 then loc_Exact
            else loc_Inexact (if r <=? Zpos qp then Lt else Gt)).
  destruct (binary_round_aux_full 53 F64.emax qp (- K) l ltac:(done) Hdq)
    as (m3 & e3 & -> & He3 & Hv3).
  { change (emin 53 F64.emax) with (-1074). lia. }
  { unfold F64.emax. lia. }
  rewrite trunc_finite_neg by lia.
  assert (HpP : Zpos p < P * P).
  { unfold P. rewrite <- Z.pow_add_r by lia.
    apply Z.lt_le_trans with (2 ^ d); [lia |]. apply Z.pow_le_mono_r; lia. }
  destruct (sqrt_scaled (Zpos p) P (Zpos qp) r ltac:(lia) HP HpP ltac:(lia) Hr
              ltac:(lia)) as [Hdiv Hdiv'].
  (* the final mantissa, shifted back, is the rounded root *)
  assert (Hshift : Zpos m3 / 2 ^ (- e3)
                   = round_nearest_even (Zpos qp) l / P).
  { assert (HPd : P = 2 ^ (e3 - - K) * 2 ^ (- e3)).
    { unfold P. rewrite <- Z.pow_add_r by lia. f_equal. lia. }
    assert (0 < 2 ^ (e3 - - K)) by (apply Z.pow_pos_nonneg; lia).
    assert (0 < 2 ^ (- e3)) by (apply Z.pow_pos_nonneg; lia).
    rewrite <- Hv3, HPd, (Z.mul_comm (Zpos m3)).
    rewrite Z.div_mul_cancel_l by lia. done. }
  rewrite Hshift. unfold l.
  destruct (Z.eqb_spec r 0) as [Hr0 | Hr0]; [exact Hdiv |].
  destruct (Z.leb_spec r (Zpos qp)) as [Hle | Hgt]; [exact Hdiv |].
  simpl round_nearest_even. apply Hdiv'. done.
Qed.

(** ** The luminance *)

Lemma products_ok_299 : products_ok lit_0_299f 299 = true.
Proof. vm_compute. reflexivity. Qed.
Lemma products_ok_587 : products_ok lit_0_587f 587 = true.
Proof. vm_compute. reflexivity. Qed.
Lemma products_ok_114 : products_ok lit_0_114f 114 = true.
Proof. vm_compute. reflexivity. Qed.

Lemma product_ok_spec lit weight x :
  products_ok lit weight = true -> 0 <= x <= 255 ->
  let p := F32.mul lit (F32.of_Z x) in
  SFnonneg F32.prec F32.emax p
  /\ Z.abs (1000 * SFval F32.prec F32.emax p - 2 ^ 149 * (weight * x)) * 50
     <= 2 ^ 149.
Proof.
  intros Hall Hx. unfold products_ok in Hall.
  rewrite forallb_forall in Hall.
  assert (Hin : In x (seqZ 0 256)).
  { apply list_elem_of_In, elem_of_seqZ. lia. }
  specialize (Hall x Hin). unfold product_ok in Hall.
  apply andb_true_iff in Hall as [Hnn Herr].
  apply Z.leb_le in Herr. split; [| exact Herr].
  destruct (F32.mul lit (F32.of_Z x)) as [[]|[]| |[] m e]; try done.
  simpl. by apply Z.leb_le.
Qed.

Lemma rgbaToGray_floor (r g b : Z) :
  0 <= r <= 255 -> 0 <= g <= 255 -> 0 <= b <= 255 ->
  gray_floor r g b - 1 <= ImageUtils.rgbaToGray r g b <= gray_floor r g b
  /\ 0 <= ImageUtils.rgbaToGray r g b <= 255.
Proof.
  intros Hr Hg Hb. unfold ImageUtils.rgbaToGray.
  destruct (product_ok_spec _ _ r products_ok_299 Hr) as (N1 & E1).
  destruct (product_ok_spec _ _ g products_ok_587 Hg) as (N2 & E2).
  destruct (product_ok_spec _ _ b products_ok_114 Hb) as (N3 & E3).
  set (p1 := F32.mul lit_0_299f (F32.of_Z r)) in *.
  set (p2 := F32.mul lit_0_587f (F32.of_Z g)) in *.
  set (p3 := F32.mul lit_0_114f (F32.of_Z b)) in *.
  pose proof (SFnonneg_val _ _ _ N1) as P1.
  pose proof (SFnonneg_val _ _ _ N2) as P2.
  pose proof (SFnonneg_val _ _ _ N3) as P3.
  set (v1 := SFval F32.prec F32.emax p1) in *.
  set (v2 := SFval F32.prec F32.emax p2) in *.
  set (v3 := SFval F32.prec F32.emax p3) in *.
  assert (HU : 0 < 2 ^ 149) by done.
  assert (Hbig : 2 ^ (F32.emax - 1 - emin F32.prec F32.emax) = 2 ^ 149 * 2 ^ 127)
    by reflexivity.
  assert (H127 : 1000000 <= 2 ^ 127) by done.
  set (U := 2 ^ 149) in *.
  destruct (SFadd_nonneg F32.prec F32.emax ltac:(done) ltac:(done) p1 p2 N1 N2) as (Ns & Es).
  { rewrite Hbig. nia. }
  fold (F32.add p1 p2) in Ns, Es.
  set (s := F32.add p1 p2) in *.
  pose proof (SFnonneg_val _ _ _ Ns) as Ps.
  set (vs := SFval F32.prec F32.emax s) in *.
  change (2 ^ F32.prec) with 16777216 in Es.
  destruct (SFadd_nonneg F32.prec F32.emax ltac:(done) ltac:(done) s p3 Ns N3) as (Nf & Ef).
  { rewrite Hbig. nia. }
  fold (F32.add s p3) in Nf, Ef.
  set (f := F32.add s p3) in *.
  set (vf := SFval F32.prec F32.emax f) in *.
  change (2 ^ F32.prec) with 16777216 in Ef.
  rewrite (trunc_nonneg F32.prec F32.emax f ltac:(done) Nf).
  fold vf. change (2 ^ (- emin F32.prec F32.emax)) with U.
  unfold gray_floor.
  set (num := 299 * r + 587 * g + 114 * b).
  assert (Hclose : Z.abs (1000 * vf - U * num) * 5 <= U).
  { unfold num. nia. }
  pose proof (Z.div_mod num 1000 ltac:(lia)) as Hdm.
  pose proof (Z.mod_pos_bound num 1000 ltac:(lia)) as Hmod.
  set (E := num / 1000) in *.
  assert (Hlo : E - 1 <= vf / U) by (apply Z.div_le_lower_bound; [lia |]; nia).
  assert (Hhi : vf / U <= E)
    by (apply Z.lt_succ_r; apply Z.div_lt_upper_bound; [lia |]; nia).
  assert (H0 : 0 <= vf / U).
  { apply Z.div_pos; [| lia]. apply (SFnonneg_val _ _ _ Nf). }
  assert (HE : E <= 255) by (unfold num in *; lia).
  lia.
Qed.

(** ** Passthrough *)

Lemma copyRawFrame_spec (input output : list Z) (w h : Z) :
  frame_dims w h ->
  Processor.copyRawFrame input w h output
  = (true, memcpy output input (w * h * 4)).
Proof.
  intros Hd. unfold Processor.copyRawFrame.
  rewrite (int_mul_bytes _ _ Hd).
  destruct (frame_dims_pixels _ _ Hd). destruct Hd as (_ & _ & Hb).
  rewrite to_size_t_id by lia. done.
Qed.

(** C1. On an initialized engine, with buffers of at least
    [width * height * 4] bytes and positive dimensions, [processFrame] in
    mode Passthrough (0), and in any mode other than 0, 1 and 2, succeeds
    and leaves in the output buffer the first [width * height * 4] input
    bytes, byte for byte (the bytes after them are untouched). *)
Theorem processFrame_passthrough_copies `{cv : OpenCV} `{heap : Allocator}
    (p : OpenCVProcessor) (clock : Z * Z) (input output : list Z)
    (w h m : Z) :
  mInitialized p = true ->
  frame_dims w h ->
  w * h * 4 <= Z.of_nat (length input) ->
  w * h * 4 <= Z.of_nat (length output) ->
  m = MODE_RAW \/ (m <> MODE_RAW /\ m <> MODE_EDGE /\ m <> MODE_GRAYSCALE) ->
  exists metrics p' out',
    Processor.processFrame p clock (Some input) w h m (Some output)
    = (metrics, p', Some out')
    /\ success metrics = true
    /\ take (Z.to_nat (w * h * 4)) out' = take (Z.to_nat (w * h * 4)) input
    /\ drop (Z.to_nat (w * h * 4)) out' = drop (Z.to_nat (w * h * 4)) output
    /\ length out' = length output
    /\ (forall i, 0 <= i < w * h * 4 -> load out' i = load input i).
Proof.
  intros Hinit Hd Hin Hout Hm.
  pose proof Hd as (Hw & Hh & Hb).
  destruct (frame_dims_pixels _ _ Hd) as [Hpos _].
  assert (Hraw :
    (if m =? MODE_RAW then Processor.copyRawFrame input w h output
     else if m =? MODE_EDGE then Processor.applyCannyEdge p input w h output
     else if m =? MODE_GRAYSCALE
          then Processor.convertToGrayscale p input w h output
     else Processor.copyRawFrame input w h output)
    = Processor.copyRawFrame input w h output).
  { destruct Hm as [-> | (H0 & H1 & H2)]; [done |].
    destruct (Z.eqb_spec m MODE_RAW); [done |].
    destruct (Z.eqb_spec m MODE_EDGE); [done |].
    destruct (Z.eqb_spec m MODE_GRAYSCALE); done. }
  unfold Processor.processFrame. rewrite Hinit. simpl negb. cbv iota.
  destruct (Z.leb_spec w 0); [lia |]. destruct (Z.leb_spec h 0); [lia |].
  simpl orb. cbv iota. rewrite Hraw, (copyRawFrame_spec _ _ _ _ Hd).
  eexists _, _, _. split; [reflexivity |]. simpl success.
  assert (Hlen : length (take (Z.to_nat (w * h * 4)) input)
                 = Z.to_nat (w * h * 4)) by (rewrite length_take; lia).
  split; [done |]. split.
  { unfold memcpy. rewrite take_app_length'; done. }
  split.
  { unfold memcpy. rewrite drop_app_length'; done. }
  split.
  { apply length_memcpy; lia. }
  intros i Hi. apply load_memcpy_copied; lia.
Qed.

Lemma processFrame_passthrough_copies_witness :
  exists metrics p' out',
    Processor.processFrame (cv := no_opencv) (heap := stale_heap)
      (snd (Processor.initialize (cv := no_opencv) Processor.create)) (10, 12)
      (Some [1; 2; 3; 4; 5; 6; 7; 8; 9]) 2 1 7 (Some [0; 0; 0; 0; 0; 0; 0; 0; 77; 78])
    = (metrics, p', Some out')
    /\ success metrics = true
    /\ take (Z.to_nat (2 * 1 * 4)) out' = take (Z.to_nat (2 * 1 * 4)) [1; 2; 3; 4; 5; 6; 7; 8; 9]
    /\ drop (Z.to_nat (2 * 1 * 4)) out' = drop (Z.to_nat (2 * 1 * 4)) [0; 0; 0; 0; 0; 0; 0; 0; 77; 78]
    /\ length out' = length [0; 0; 0; 0; 0; 0; 0; 0; 77; 78]
    /\ (forall i, 0 <= i < 2 * 1 * 4 -> load out' i = load [1; 2; 3; 4; 5; 6; 7; 8; 9] i).
Proof.
  apply (processFrame_passthrough_copies (cv := no_opencv)).
  - reflexivity.
  - unfold frame_dims, INT_MAX. lia.
  - simpl. lia.
  - simpl. lia.
  - right. unfold MODE_RAW, MODE_EDGE, MODE_GRAYSCALE. lia.
Defined.

(** ** Contract violations *)

Lemma processFrame_rejects `{cv : OpenCV} `{heap : Allocator}
    p clock input output w h m :
  engine_violation p input output w h ->
  Processor.processFrame p clock input w h m output
  = ({| processingTimeMs := 0; width := w; height := h; mode := m;
        success := false |}, p, output).
Proof.
  intros Hv. unfold Processor.processFrame.
  destruct (mInitialized p) eqn:Hi; simpl negb; cbv iota; [| done].
  destruct input as [input|]; [| done].
  destruct output as [output|]; [| done].
  destruct (Z.leb_spec w 0), (Z.leb_spec h 0); simpl orb; cbv iota; try done.
  destruct Hv as [Hv | [Hv | [Hv | [Hv | Hv]]]]; first [congruence | lia].
Qed.

(** X27. As long as the products [width * height] and
    [width * height * 4] fit an [int], a call that violates the contract
    is rejected without a write.  At the engine: uninitialized, a null
    buffer, or a non-positive dimension gives metrics with
    [success = false], the output buffer and the engine unchanged.  At
    the JNI boundary: no engine, any of the above, or an input or output
    array shorter than [width * height * 4] gives [-1], the output array
    and the engine unchanged. *)
Theorem contract_violation_rejected `{cv : OpenCV} `{heap : Allocator}
    (env : JNIEnv)
    (p : OpenCVProcessor) (g : option OpenCVProcessor) (clock : Z * Z)
    (input output : option (list Z)) (w h m : Z) :
  no_overflow w h ->
  (engine_violation p input output w h ->
   let '(metrics, p', out') :=
     Processor.processFrame p clock input w h m output in
   success metrics = false /\ out' = output /\ p' = p)
  /\
  (boundary_violation g input output w h ->
   let '(ret, g', out') :=
     NativeLib.processFrame env g clock input w h m output in
   ret = -1 /\ out' = output /\ g' = g).
Proof.
  intros [Hwh Hb]. split.
  - intros Hv. rewrite (processFrame_rejects _ _ _ _ _ _ _ Hv). done.
  - intros Hv. unfold NativeLib.processFrame.
    destruct g as [q|]; [| done].
    destruct input as [input|]; [| done].
    destruct output as [output|]; [| done].
    assert (He : int_mul (int_mul w h) 4 = w * h * 4).
    { unfold int_mul. rewrite (wrap_int_id (w * h)) by done.
      apply wrap_int_id. done. }
    rewrite He.
    destruct (Z.ltb_spec (Z.of_nat (length input)) (w * h * 4)); [done |].
    destruct (Z.ltb_spec (Z.of_nat (length output)) (w * h * 4)); [done |].
    destruct (negb (pins env input) || negb (pins env output)); [done |].
    destruct Hv as [Hv | [(q' & Hq & Hv) | [(l & Hl & Hs) | (l & Hl & Hs)]]].
    + discriminate.
    + injection Hq as <-.
      rewrite (processFrame_rejects _ _ _ _ _ _ _ Hv). done.
    + injection Hl as <-. lia.
    + injection Hl as <-. lia.
Qed.

Lemma contract_violation_rejected_witness :
  (let '(metrics, p', out') :=
     Processor.processFrame (cv := no_opencv) (heap := stale_heap)
         Processor.create (0, 5)
       (Some [1; 2; 3; 4]) 1 1 0 (Some [9; 9; 9; 9]) in
   success metrics = false /\ out' = Some [9; 9; 9; 9] /\ p' = Processor.create)
  /\
  (let '(ret, g', out') :=
     NativeLib.processFrame (cv := no_opencv) (heap := stale_heap)
         {| pins := fun _ => true |}
       (Some (snd (Processor.initialize (cv := no_opencv) Processor.create)))
       (0, 5) (Some [1; 2; 3]) 1 1 0 (Some [9; 9; 9; 9]) in
   ret = -1 /\ out' = Some [9; 9; 9; 9]
   /\ g' = Some (snd (Processor.initialize (cv := no_opencv) Processor.create))).
Proof.
  split.
  - apply (contract_violation_rejected (cv := no_opencv)
             {| pins := fun _ => true |} Processor.create None (0, 5)
             (Some [1; 2; 3; 4]) (Some [9; 9; 9; 9]) 1 1 0).
    + unfold no_overflow, INT_MAX. lia.
    + left. reflexivity.
  - apply (contract_violation_rejected (cv := no_opencv)
             {| pins := fun _ => true |} Processor.create
             (Some (snd (Processor.initialize (cv := no_opencv) Processor.create)))
             (0, 5) (Some [1; 2; 3]) (Some [9; 9; 9; 9]) 1 1 0).
    + unfold no_overflow, INT_MAX. lia.
    + right. right. left. exists [1; 2; 3]. split; [reflexivity | simpl; lia].
Defined.

(** C4. The length check of the boundary's [processFrame] is computed
    in [int] and misses undersized arrays once [width * height * 4]
    overflows.  At width 641 and height 6700417 the frame needs
    17179869188 bytes, which the [int] product holds as 4: with two
    4-byte arrays, a violation of the contract, the call in mode
    Grayscale is not rejected; it returns the elapsed time instead of
    [-1], counts a frame and overwrites the output array.  At width 65536
    and height 16384 the [int] product is 0 and the call in mode
    Passthrough returns the elapsed time and counts a frame as well. *)
Theorem boundary_length_check_overflow :
  boundary_violation (Some ready_engine) (Some [200; 100; 50; 255])
    (Some [9; 9; 9; 9]) 641 6700417
  /\ 641 * 6700417 * 4 = 17179869188
  /\ int_mul (int_mul 641 6700417) 4 = 4
  /\ NativeLib.processFrame (cv := no_opencv) (heap := stale_heap)
       pinning_env (Some ready_engine) (0, 5) (Some [200; 100; 50; 255])
       641 6700417 MODE_GRAYSCALE (Some [9; 9; 9; 9])
     = (5, Some (Processor.updateStatistics ready_engine 5),
        Some [124; 124; 124; 255])
  /\ boundary_violation (Some ready_engine) (Some [200; 100; 50; 255])
       (Some [9; 9; 9; 9]) 65536 16384
  /\ int_mul (int_mul 65536 16384) 4 = 0
  /\ NativeLib.processFrame (cv := no_opencv) (heap := stale_heap)
       pinning_env (Some ready_engine) (0, 5) (Some [200; 100; 50; 255])
       65536 16384 MODE_RAW (Some [9; 9; 9; 9])
     = (5, Some (Processor.updateStatistics ready_engine 5),
        Some [9; 9; 9; 9]).
Proof.
  assert (Hshort : forall w h, 4 < w * h * 4 ->
            boundary_violation (Some ready_engine) (Some [200; 100; 50; 255])
              (Some [9; 9; 9; 9]) w h).
  { intros w h Hwh. right. right. left.
    exists [200; 100; 50; 255]. split; [reflexivity | simpl; lia]. }
  split; [apply Hshort; lia |].
  split; [reflexivity |].
  split; [vm_compute; reflexivity |].
  split; [vm_compute; reflexivity |].
  split; [apply Hshort; lia |].
  split; vm_compute; reflexivity.
Qed.

(** ** Initialization *)

(** C8. [initialize] twice in a row returns [true] both times; the second
    call changes nothing, the engine is Ready after the first, and neither
    call touches the three statistics counters.  The same holds for
    [initOpenCV] at the boundary, which keeps an existing engine as it is. *)
Theorem initialize_twice `{cv : OpenCV} (p : OpenCVProcessor)
    (g : option OpenCVProcessor) :
  (let '(r1, p1) := Processor.initialize p in
   let '(r2, p2) := Processor.initialize p1 in
   r1 = true /\ r2 = true /\ p2 = p1 /\ mInitialized p1 = true
   /\ mTotalFramesProcessed p2 = mTotalFramesProcessed p
   /\ mTotalProcessingTimeMs p2 = mTotalProcessingTimeMs p
   /\ mLastProcessingTimeMs p2 = mLastProcessingTimeMs p)
  /\
  (let '(b1, g1) := NativeLib.initOpenCV g in
   let '(b2, g2) := NativeLib.initOpenCV g1 in
   b1 = true /\ b2 = true /\ g2 = g1
   /\ (forall q, g = Some q -> g1 = Some q)
   /\ (g = None -> exists q, g1 = Some q /\ mInitialized q = true)).
Proof.
  split.
  - unfold Processor.initialize.
    destruct (mInitialized p) eqn:Hi; simpl; rewrite ?Hi; done.
  - unfold NativeLib.initOpenCV. destruct g as [q|]; simpl.
    + repeat split; try done.
    + repeat split; try done. intros _. eexists. split; reflexivity.
Qed.

(** ** Statistics *)

Lemma fallback_paths_succeed `{cv : OpenCV} `{heap : Allocator}
    p input w h m output :
  fst (if m =? MODE_RAW then Processor.copyRawFrame input w h output
       else if m =? MODE_EDGE then Processor.applyCannyEdge p input w h output
       else if m =? MODE_GRAYSCALE
            then Processor.convertToGrayscale p input w h output
       else Processor.copyRawFrame input w h output) = true.
Proof.
  unfold Processor.applyCannyEdge, Processor.convertToGrayscale.
  destruct (m =? MODE_RAW); [done |].
  destruct (m =? MODE_EDGE).
  { destruct (mOpenCVAvailable p); [destruct cv_canny |]; done. }
  destruct (m =? MODE_GRAYSCALE); [| done].
  destruct (mOpenCVAvailable p); [destruct cv_gray |]; done.
Qed.

(** A call either fails validation and changes nothing, or succeeds and
    records its elapsed time once, whatever the mode. *)
Lemma processFrame_outcome `{cv : OpenCV} `{heap : Allocator}
    p clock input output w h m :
  (engine_violation p input output w h
   /\ Processor.processFrame p clock input w h m output
      = ({| processingTimeMs := 0; width := w; height := h; mode := m;
            success := false |}, p, output))
  \/
  (exists out',
     Processor.processFrame p clock input w h m output
     = ({| processingTimeMs := wrap_i64 (snd clock - fst clock);
           width := w; height := h; mode := m; success := true |},
        Processor.updateStatistics p (wrap_i64 (snd clock - fst clock)),
        Some out')).
Proof.
  destruct (mInitialized p) eqn:Hi;
    [| left; split; [by left | apply processFrame_rejects; by left]].
  destruct input as [input|];
    [| left; split; [by right; left | apply processFrame_rejects; by right; left]].
  destruct output as [output|];
    [| left; split; [by right; right; left
                    | apply processFrame_rejects; by right; right; left]].
  destruct (Z.leb_spec w 0);
    [left; split; [by right; right; right; left
                  | apply processFrame_rejects; by right; right; right; left] |].
  destruct (Z.leb_spec h 0);
    [left; split; [by right; right; right; right
                  | apply processFrame_rejects; by right; right; right; right] |].
  right. unfold Processor.processFrame. rewrite Hi. simpl negb. cbv iota.
  destruct (Z.leb_spec w 0); [lia |]. destruct (Z.leb_spec h 0); [lia |].
  simpl orb. cbv iota.
  pose proof (fallback_paths_succeed p input w h m output) as Hok.
  destruct (if m =? MODE_RAW then _ else _) as [ok out'].
  simpl in Hok. subst ok. by exists out'.
Qed.

Lemma last_nonempty_default (a : Z) (l : list Z) (d d' : Z) :
  List.last (a :: l) d = List.last (a :: l) d'.
Proof. revert a. induction l as [|b l IH]; intros a; [done | apply (IH b)]. Qed.

Lemma runCalls_counters `{cv : OpenCV} `{heap : Allocator}
    (calls : list FrameCall) :
  forall p, counters_in_range p ->
    let ts := recordedTimes p calls in
    let q := runCalls p calls in
    mTotalFramesProcessed q
    = (mTotalFramesProcessed p + Z.of_nat (length ts)) mod 2^64
    /\ mTotalProcessingTimeMs q
       = (mTotalProcessingTimeMs p + total_time ts) mod 2^64
    /\ mLastProcessingTimeMs q = List.last ts (mLastProcessingTimeMs p)
    /\ mOpenCVAvailable q = mOpenCVAvailable p.
Proof.
  induction calls as [|c rest IH]; intros p Hp; simpl.
  - destruct Hp as [Hf Ht]. rewrite !Z.add_0_r, !Z.mod_small by lia. done.
  - unfold runCalls in *. unfold callFrame in *.
    destruct (processFrame_outcome p (callClock c) (callInput c)
                (callOutput c) (callWidth c) (callHeight c) (callMode c))
      as [[_ ->] | [out' ->]]; simpl.
    + apply IH. done.
    + set (t := wrap_i64 (snd (callClock c) - fst (callClock c))).
      assert (Hq : counters_in_range (Processor.updateStatistics p t)).
      { unfold counters_in_range, Processor.updateStatistics, wrap_u64. simpl.
        split; apply Z.mod_pos_bound; done. }
      destruct (IH _ Hq) as (Hf & Ht & Hl & Ha).
      rewrite Hf, Ht, Hl, Ha. simpl. unfold wrap_u64.
      repeat split.
      * rewrite Zplus_mod_idemp_l. f_equal. lia.
      * rewrite Zplus_mod_idemp_l. f_equal. lia.
      * destruct (recordedTimes _ rest) as [|t' ts']; [done |].
        apply last_nonempty_default.
Qed.

(** C6. On a fresh engine (counters at zero), after a sequence of
    [processFrame] calls of any modes of which [N] succeed with recorded
    elapsed times [ts] (non-negative, as the steady clock gives them, and
    not overflowing the 64-bit counters), [getStatistics] reports [N]
    frames, the [double] quotient of the sum of [ts] by [N] as average (0
    when [N = 0]) and the last of [ts] as last time: each successful call
    is counted once, a failed one not at all. *)
Theorem statistics_after_calls `{cv : OpenCV} `{heap : Allocator}
    (p : OpenCVProcessor)
    (calls : list FrameCall) :
  mTotalFramesProcessed p = 0 ->
  mTotalProcessingTimeMs p = 0 ->
  mLastProcessingTimeMs p = 0 ->
  let ts := recordedTimes p calls in
  let N := Z.of_nat (length ts) in
  Forall (fun t => 0 <= t) ts ->
  N < 2^64 ->
  total_time ts < 2^64 ->
  Processor.getStatistics (runCalls p calls)
  = {| statFrames := N;
       statAvgTime := if N =? 0 then F64.zero
                      else F64.div (F64.of_Z (total_time ts)) (F64.of_Z N);
       statLastTime := List.last ts 0;
       statOpenCV := mOpenCVAvailable p |}.
Proof.
  intros Hf Ht Hl ts N Hpos HN Hsum.
  assert (Hp : counters_in_range p).
  { unfold counters_in_range. rewrite Hf, Ht. done. }
  destruct (runCalls_counters calls p Hp) as (Hf' & Ht' & Hl' & Ha').
  fold ts in Hf', Ht', Hl'. fold N in Hf'.
  rewrite Hf, Z.add_0_l in Hf'. rewrite Ht, Z.add_0_l in Ht'. rewrite Hl in Hl'.
  assert (Hsum0 : 0 <= total_time ts).
  { clear -Hpos. induction Hpos; simpl; lia. }
  rewrite Z.mod_small in Hf' by lia. rewrite Z.mod_small in Ht' by lia.
  unfold Processor.getStatistics. rewrite Hf', Ht', Hl', Ha'.
  f_equal. destruct (Z.ltb_spec 0 N), (Z.eqb_spec N 0); try done; lia.
Qed.

(** ** Loops that fill a buffer *)

(** A loop that stores one value per iteration, at [base + i]. *)
Lemma store_loop_spec (v : Z -> Z) (base lo hi : Z) (out : list Z) :
  lo <= hi -> 0 <= base + lo -> base + hi <= Z.of_nat (length out) ->
  let r := for_loop lo hi (fun i o => store o (base + i) (v i)) out in
  length r = length out
  /\ (forall i, lo <= i < hi -> load r (base + i) = v i)
  /\ (forall j, j < base + lo \/ base + hi <= j -> load r j = load out j).
Proof.
  intros Hle Hlo Hhi.
  apply (for_loop_invariant (fun k s =>
    length s = length out
    /\ (forall i, lo <= i < k -> load s (base + i) = v i)
    /\ (forall j, j < base + lo \/ base + k <= j -> load s j = load out j)));
    [done | |].
  - split; [done |]. split; [intros; lia | done].
  - intros k s Hk (Hlen & Hdone & Hrest).
    split; [by rewrite length_store |]. split.
    + intros i Hi. destruct (Z.eq_dec i k) as [-> | Hne].
      * apply load_store_eq. lia.
      * rewrite load_store_ne by lia. apply Hdone. lia.
    + intros j Hj. rewrite load_store_ne by lia. apply Hrest. lia.
Qed.

Lemma length_store4 out i a b c d :
  length (store (store (store (store out i a) (i + 1) b) (i + 2) c) (i + 3) d)
  = length out.
Proof. by rewrite !length_store. Qed.

Lemma load_store4 out i a b c d :
  0 <= i -> i + 3 < Z.of_nat (length out) ->
  let r := store (store (store (store out i a) (i + 1) b) (i + 2) c) (i + 3) d in
  load r i = a /\ load r (i + 1) = b /\ load r (i + 2) = c /\ load r (i + 3) = d.
Proof.
  intros H0 H3. simpl. repeat split.
  - rewrite !load_store_ne by lia. apply load_store_eq. lia.
  - rewrite !load_store_ne by lia. apply load_store_eq. rewrite length_store. lia.
  - rewrite !load_store_ne by lia. apply load_store_eq. rewrite !length_store. lia.
  - apply load_store_eq. rewrite !length_store. lia.
Qed.

Lemma load_store4_other out i a b c d j :
  j < i \/ i + 3 < j ->
  load (store (store (store (store out i a) (i + 1) b) (i + 2) c) (i + 3) d) j
  = load out j.
Proof. intros H. rewrite !load_store_ne by lia. done. Qed.

(** A loop that stores the four channels of pixel [base + i] per iteration. *)
Lemma pixel_loop_spec (r g b a : Z -> Z) (base n : Z) (out : list Z) :
  0 <= n -> 0 <= base -> (base + n) * 4 <= Z.of_nat (length out) ->
  let res :=
    for_loop 0 n (fun i o =>
      store (store (store (store o ((base + i) * 4) (r i))
                      ((base + i) * 4 + 1) (g i))
               ((base + i) * 4 + 2) (b i))
        ((base + i) * 4 + 3) (a i)) out in
  length res = length out
  /\ (forall i, 0 <= i < n -> pixel_is res (base + i) (r i) (g i) (b i) (a i))
  /\ (forall j, j < base * 4 \/ (base + n) * 4 <= j -> load res j = load out j).
Proof.
  intros Hn Hbase Hlen. unfold pixel_is.
  apply (for_loop_invariant (fun k s =>
    length s = length out
    /\ (forall i, 0 <= i < k ->
          load s ((base + i) * 4) = r i /\ load s ((base + i) * 4 + 1) = g i
          /\ load s ((base + i) * 4 + 2) = b i
          /\ load s ((base + i) * 4 + 3) = a i)
    /\ (forall j, j < base * 4 \/ (base + k) * 4 <= j -> load s j = load out j)));
    [done | |].
  - split; [done |]. split; [intros; lia | done].
  - intros k s Hk (Hl & Hdone & Hrest).
    split; [by rewrite length_store4 |]. split.
    + intros i Hi. destruct (Z.eq_dec i k) as [-> | Hne].
      * apply load_store4; lia.
      * rewrite !load_store4_other by lia. apply Hdone. lia.
    + intros j Hj. rewrite load_store4_other by lia. apply Hrest. lia.
Qed.

(** A loop that rewrites each cell from its own value. *)
Lemma map_loop_spec (f : Z -> Z) (n : Z) (out : list Z) :
  0 <= n <= Z.of_nat (length out) ->
  let r := for_loop 0 n (fun i o => store o i (f (load o i))) out in
  length r = length out
  /\ (forall i, 0 <= i < n -> load r i = f (load out i))
  /\ (forall j, n <= j -> load r j = load out j).
Proof.
  intros Hn.
  apply (for_loop_invariant (fun k s =>
    length s = length out
    /\ (forall i, 0 <= i < k -> load s i = f (load out i))
    /\ (forall j, k <= j -> load s j = load out j))); [lia | |].
  - split; [done |]. split; [intros; lia | done].
  - intros k s Hk (Hl & Hdone & Hrest).
    split; [by rewrite length_store |]. split.
    + intros i Hi. destruct (Z.eq_dec i k) as [-> | Hne].
      * rewrite load_store_eq by lia. f_equal. apply Hrest. lia.
      * rewrite load_store_ne by lia. apply Hdone. lia.
    + intros j Hj. rewrite load_store_ne by lia. apply Hrest. lia.
Qed.

(** ** The planar-to-packed conversion *)

Lemma clamp255_byte v : is_byte (NativeLib.clamp255 v).
Proof.
  unfold NativeLib.clamp255, is_byte.
  destruct (Z.ltb_spec v 0); [lia |]. destruct (Z.ltb_spec 255 v); lia.
Qed.

Lemma clamp255_max_min v : NativeLib.clamp255 v = clamp_0_255 v.
Proof.
  unfold NativeLib.clamp255, clamp_0_255.
  destruct (Z.ltb_spec v 0); [lia |]. destruct (Z.ltb_spec 255 v); lia.
Qed.

Lemma clamp_0_255_byte v : is_byte (clamp_0_255 v).
Proof. unfold clamp_0_255, is_byte. lia. Qed.

Lemma land_255_as_jbyte b : is_byte b -> Z.land (as_jbyte b) 255 = b.
Proof.
  unfold is_byte, as_jbyte. intros H.
  change 255 with (Z.ones 8). rewrite Z.land_ones by lia.
  change (2 ^ 8) with 256.
  destruct (Z.ltb_spec b 128).
  - apply Z.mod_small. lia.
  - replace (b - 256) with (b + (-1) * 256) by lia.
    rewrite Z_mod_plus_full. apply Z.mod_small. lia.
Qed.

(** C7. For every output pixel [(x, y)], with [Y] read at
    [y * yRowStride + x] and [U], [V] read at
    [(y / 2) * uvRowStride + (x / 2) * uvPixelStride], the conversion
    stores [R = (298C + 409E + 128) >> 8],
    [G = (298C - 100D - 208E + 128) >> 8], [B = (298C + 516D + 128) >> 8]
    with [C = Y - 16], [D = U - 128], [E = V - 128], each clamped to
    [0,255], and alpha 255; samples [Y = 235], [U = V = 128] give
    [(255, 255, 255, 255)]. *)
Theorem yuv420ToRgba_pixels
    (yData uData vData outData : list Z) (w h ys uvs uvp : Z) :
  0 <= w -> 0 <= h ->
  planes_cover yData uData vData outData w h ys uvs uvp ->
  exists out',
    NativeLib.yuv420ToRgba (Some yData) (Some uData) (Some vData) w h ys uvs
      uvp (Some outData) = Some out'
    /\ length out' = length outData
    /\ forall x y, 0 <= x < w -> 0 <= y < h ->
         let Y := load yData (y * ys + x) in
         let U := load uData ((y / 2) * uvs + (x / 2) * uvp) in
         let V := load vData ((y / 2) * uvs + (x / 2) * uvp) in
         pixel_is out' (y * w + x) (yuv_red Y U V) (yuv_green Y U V)
           (yuv_blue Y U V) 255
         /\ (Y = 235 -> U = 128 -> V = 128 ->
             pixel_is out' (y * w + x) 255 255 255 255).
Proof.
  intros Hw Hh (HY & HU & HV & Hlen & Hcov).
  unfold NativeLib.yuv420ToRgba. eexists. split; [reflexivity |].
  set (R := fun x y => yuv_red (load yData (y * ys + x))
                         (load uData ((y / 2) * uvs + (x / 2) * uvp))
                         (load vData ((y / 2) * uvs + (x / 2) * uvp))).
  set (G := fun x y => yuv_green (load yData (y * ys + x))
                         (load uData ((y / 2) * uvs + (x / 2) * uvp))
                         (load vData ((y / 2) * uvs + (x / 2) * uvp))).
  set (B := fun x y => yuv_blue (load yData (y * ys + x))
                         (load uData ((y / 2) * uvs + (x / 2) * uvp))
                         (load vData ((y / 2) * uvs + (x / 2) * uvp))).
  (* each row is a pixel loop *)
  assert (Hrow : forall y s, 0 <= y < h -> length s = length outData ->
    for_loop 0 w (fun x out =>
      NativeLib.yuvPixel yData uData vData w ys uvs uvp x y out) s
    = for_loop 0 w (fun x o =>
        store (store (store (store o ((y * w + x) * 4) (R x y))
                        ((y * w + x) * 4 + 1) (G x y))
                 ((y * w + x) * 4 + 2) (B x y))
          ((y * w + x) * 4 + 3) 255) s).
  { intros y s Hy Hs.
    apply (for_loop_invariant (fun k t =>
      t = for_loop 0 k (fun x o =>
        store (store (store (store o ((y * w + x) * 4) (R x y))
                        ((y * w + x) * 4 + 1) (G x y))
                 ((y * w + x) * 4 + 2) (B x y))
          ((y * w + x) * 4 + 3) 255) s)); [done | | ].
    - by rewrite for_loop_empty.
    - intros x t Hx ->. rewrite for_loop_last by lia.
      unfold NativeLib.yuvPixel.
      rewrite (Z.quot_div_nonneg y 2), (Z.quot_div_nonneg x 2) by lia.
      rewrite !land_255_as_jbyte by (apply load_byte; done).
      rewrite !to_u8_id by (first [apply clamp255_byte | unfold is_byte; lia]).
      rewrite !clamp255_max_min. reflexivity. }
  assert (Hinv :
    let r := for_loop 0 h (fun y out =>
               for_loop 0 w (fun x out =>
                 NativeLib.yuvPixel yData uData vData w ys uvs uvp x y out) out)
               outData in
    length r = length outData
    /\ forall y x, 0 <= y < h -> 0 <= x < w ->
         pixel_is r (y * w + x) (R x y) (G x y) (B x y) 255).
  { apply (for_loop_invariant (fun k s =>
      length s = length outData
      /\ forall y x, 0 <= y < k -> 0 <= x < w ->
           pixel_is s (y * w + x) (R x y) (G x y) (B x y) 255)); [done | | ].
    - split; [done | intros; lia].
    - intros y s Hy (Hl & Hdone).
      rewrite Hrow by done.
      assert (Hfit : (y * w + w) * 4 <= Z.of_nat (length s)) by nia.
      destruct (pixel_loop_spec (fun x => R x y) (fun x => G x y)
                  (fun x => B x y) (fun _ => 255) (y * w) w s Hw
                  ltac:(nia) Hfit) as (Hl' & Hnew & Hold).
      split; [congruence |].
      intros y' x' Hy' Hx'. destruct (Z.eq_dec y' y) as [-> | Hne].
      + apply Hnew. done.
      + unfold pixel_is. rewrite !Hold by nia. apply Hdone; lia. }
  destruct Hinv as (Hl & Hpix). split; [done |].
  intros x y Hx Hy. split; [apply Hpix; done |].
  intros HY' HU' HV'. specialize (Hpix y x Hy Hx).
  unfold R, G, B in Hpix. rewrite HY', HU', HV' in Hpix.
  exact Hpix.
Qed.

(** ** The Sobel kernel *)

Lemma convolve_sobel g w x y :
  ImageUtils.convolve g w x y = (sobel_gx g w x y, sobel_gy g w x y).
Proof.
  unfold ImageUtils.convolve, for_loop.
  change (seqZ (-1) (2 - -1)) with [-1; 0; 1]. cbn [foldl].
  change (ImageUtils.kernel ImageUtils.sobelX (-1 + 1) (-1 + 1)) with (-1).
  change (ImageUtils.kernel ImageUtils.sobelX (-1 + 1) (0 + 1)) with 0.
  change (ImageUtils.kernel ImageUtils.sobelX (-1 + 1) (1 + 1)) with 1.
  change (ImageUtils.kernel ImageUtils.sobelX (0 + 1) (-1 + 1)) with (-2).
  change (ImageUtils.kernel ImageUtils.sobelX (0 + 1) (0 + 1)) with 0.
  change (ImageUtils.kernel ImageUtils.sobelX (0 + 1) (1 + 1)) with 2.
  change (ImageUtils.kernel ImageUtils.sobelX (1 + 1) (-1 + 1)) with (-1).
  change (ImageUtils.kernel ImageUtils.sobelX (1 + 1) (0 + 1)) with 0.
  change (ImageUtils.kernel ImageUtils.sobelX (1 + 1) (1 + 1)) with 1.
  change (ImageUtils.kernel ImageUtils.sobelY (-1 + 1) (-1 + 1)) with (-1).
  change (ImageUtils.kernel ImageUtils.sobelY (-1 + 1) (0 + 1)) with (-2).
  change (ImageUtils.kernel ImageUtils.sobelY (-1 + 1) (1 + 1)) with (-1).
  change (ImageUtils.kernel ImageUtils.sobelY (0 + 1) (-1 + 1)) with 0.
  change (ImageUtils.kernel ImageUtils.sobelY (0 + 1) (0 + 1)) with 0.
  change (ImageUtils.kernel ImageUtils.sobelY (0 + 1) (1 + 1)) with 0.
  change (ImageUtils.kernel ImageUtils.sobelY (1 + 1) (-1 + 1)) with 1.
  change (ImageUtils.kernel ImageUtils.sobelY (1 + 1) (0 + 1)) with 2.
  change (ImageUtils.kernel ImageUtils.sobelY (1 + 1) (1 + 1)) with 1.
  unfold sobel_gx, sobel_gy.
  replace (y + -1) with (y - 1) by lia. replace (x + -1) with (x - 1) by lia.
  rewrite !Z.add_0_r. f_equal; ring.
Qed.

Lemma sobel_gradient_range g w x y :
  Forall is_byte g ->
  - 1020 <= sobel_gx g w x y <= 1020 /\ - 1020 <= sobel_gy g w x y <= 1020.
Proof.
  intros Hg. unfold sobel_gx, sobel_gy.
  pose proof (load_byte g ((y - 1) * w + (x - 1)) Hg).
  pose proof (load_byte g ((y - 1) * w + x) Hg).
  pose proof (load_byte g ((y - 1) * w + (x + 1)) Hg).
  pose proof (load_byte g (y * w + (x - 1)) Hg).
  pose proof (load_byte g (y * w + (x + 1)) Hg).
  pose proof (load_byte g ((y + 1) * w + (x - 1)) Hg).
  pose proof (load_byte g ((y + 1) * w + x) Hg).
  pose proof (load_byte g ((y + 1) * w + (x + 1)) Hg).
  unfold is_byte in *. lia.
Qed.

(** [sobelPass]: interior pixels hold their gradient magnitude, every
    other cell of the first [w * h] is zero. *)
Lemma sobelPass_spec (g output : list Z) (w h : Z) :
  frame_dims w h ->
  w * h <= Z.of_nat (length output) ->
  let r := ImageUtils.sobelPass g w h output in
  length r = length output
  /\ (forall x y, 1 <= x < w - 1 -> 1 <= y < h - 1 ->
        load r (y * w + x) = sobel_value g w x y)
  /\ (forall j, 0 <= j < w * h ->
        (forall x y, 1 <= x < w - 1 -> 1 <= y < h - 1 -> j <> y * w + x) ->
        load r j = 0).
Proof.
  intros Hd Hlen. pose proof Hd as (Hw & Hh & Hb).
  destruct (frame_dims_pixels _ _ Hd) as [Hpos Hmax].
  unfold ImageUtils.sobelPass.
  rewrite (int_mul_pixels _ _ Hd), to_size_t_id by lia.
  set (out0 := memset output 0 (w * h)).
  assert (Hl0 : length out0 = length output) by (apply length_memset; lia).
  assert (Hz0 : forall j, 0 <= j < w * h -> load out0 j = 0)
    by (intros; apply load_memset; done).
  (* a row *)
  assert (Hrow : forall y s, 1 <= y < h - 1 -> length s = length output ->
    let r := for_loop 1 (w - 1) (fun x out =>
               let c := ImageUtils.convolve g w x y in
               let magnitude := ImageUtils.magnitude (fst c) (snd c) in
               store out (y * w + x) (to_u8 magnitude)) s in
    length r = length output
    /\ (forall x, 1 <= x < w - 1 -> load r (y * w + x) = sobel_value g w x y)
    /\ (forall j, j < y * w + 1 \/ y * w + (w - 1) <= j -> load r j = load s j)).
  { intros y s Hy Hs.
    destruct (Z.le_gt_cases 1 (w - 1)) as [Hw1 | Hw1].
    - assert (Hin : y * w + (w - 1) <= Z.of_nat (length s)) by nia.
      destruct (store_loop_spec (fun x => sobel_value g w x y) (y * w) 1 (w - 1)
                  s Hw1 ltac:(nia) Hin) as (Hl & Hnew & Hold).
      assert (Heq :
        for_loop 1 (w - 1) (fun x out =>
          let c := ImageUtils.convolve g w x y in
          let magnitude := ImageUtils.magnitude (fst c) (snd c) in
          store out (y * w + x) (to_u8 magnitude)) s
        = for_loop 1 (w - 1)
            (fun i o => store o (y * w + i) (sobel_value g w i y)) s).
      { apply for_loop_ext. intros x o _.
        cbv zeta. rewrite convolve_sobel. reflexivity. }
      cbv zeta in Heq |- *. rewrite Heq. split; [congruence |]. split; assumption.
    - cbv zeta. rewrite for_loop_empty by lia.
      split; [done |]. split; [intros; lia | done]. }
  destruct (Z.le_gt_cases 1 (h - 1)) as [Hh1 | Hh1].
  - apply (for_loop_invariant (fun k s =>
      length s = length output
      /\ (forall x y, 1 <= x < w - 1 -> 1 <= y < k ->
            load s (y * w + x) = sobel_value g w x y)
      /\ (forall j, 0 <= j < w * h ->
            (forall x y, 1 <= x < w - 1 -> 1 <= y < k -> j <> y * w + x) ->
            load s j = 0))); [done | |].
    + split; [done |]. split; [intros; lia |]. intros j Hj _. by apply Hz0.
    + intros y s Hy (Hl & Hdone & Hzero).
      destruct (Hrow y s Hy Hl) as (Hl' & Hnew & Hold).
      split; [done |]. split.
      * intros x y' Hx Hy'. destruct (Z.eq_dec y' y) as [-> | Hne].
        -- by apply Hnew.
        -- rewrite Hold by nia. apply Hdone; lia.
      * intros j Hj Hother.
        assert (Hj' : j < y * w + 1 \/ y * w + (w - 1) <= j).
        { destruct (Z.lt_ge_cases j (y * w + 1)); [by left |].
          destruct (Z.le_gt_cases (y * w + (w - 1)) j); [by right |].
          exfalso. apply (Hother (j - y * w) y); lia. }
        rewrite Hold by done. apply Hzero; [done |].
        intros x y' Hx Hy'. apply Hother; lia.
  - rewrite for_loop_empty by lia.
    split; [done |]. split; [intros; lia |]. intros j Hj _. by apply Hz0.
Qed.

(** [thresholdPass] and [simpleEdgeDetection]: every cell becomes 255 when
    it exceeds the threshold, 0 otherwise. *)
Lemma simpleEdgeDetection_spec (g output : list Z) (w h : Z) :
  frame_dims w h ->
  w * h <= Z.of_nat (length output) ->
  let r := ImageUtils.simpleEdgeDetection g w h output in
  length r = length output
  /\ forall i, 0 <= i < w * h ->
       load r i = if 50 <? load (ImageUtils.sobelPass g w h output) i
                  then 255 else 0.
Proof.
  intros Hd Hlen. destruct (frame_dims_pixels _ _ Hd) as [Hpos Hmax].
  destruct (sobelPass_spec g output w h Hd Hlen) as (Hl & _ & _).
  unfold ImageUtils.simpleEdgeDetection, ImageUtils.thresholdPass.
  rewrite (int_mul_pixels _ _ Hd).
  destruct (map_loop_spec (fun v => if 50 <? v then 255 else 0) (w * h)
              (ImageUtils.sobelPass g w h output) ltac:(lia))
    as (Hl' & Hmap & _).
  split; [congruence | exact Hmap].
Qed.

(** ** The fallback paths *)

Lemma convertToGrayscaleFallback_spec (input output : list Z)
    (w h : Z) :
  frame_dims w h ->
  w * h * 4 <= Z.of_nat (length output) ->
  exists out',
    Processor.convertToGrayscaleFallback input w h output = (true, out')
    /\ length out' = length output
    /\ (forall i, 0 <= i < w * h ->
          pixel_is out' i (pixel_gray input i) (pixel_gray input i)
            (pixel_gray input i) 255)
    /\ (forall j, w * h * 4 <= j -> load out' j = load output j).
Proof.
  intros Hd Hlen. destruct (frame_dims_pixels _ _ Hd) as [Hpos Hmax].
  unfold Processor.convertToGrayscaleFallback.
  rewrite (int_mul_pixels _ _ Hd). eexists. split; [reflexivity |].
  destruct (pixel_loop_spec (pixel_gray input) (pixel_gray input)
              (pixel_gray input) (fun _ => 255) 0 (w * h) output
              ltac:(lia) ltac:(lia) ltac:(lia)) as (Hl & Hpix & Hrest).
  split; [exact Hl |]. split.
  - intros i Hi. apply (Hpix i Hi).
  - intros j Hj. apply Hrest. lia.
Qed.

Lemma fallback_gray_spec (input : list Z) (w h : Z) :
  0 <= w * h ->
  length (fallback_gray input w h) = Z.to_nat (w * h)
  /\ forall i, 0 <= i < w * h ->
       load (fallback_gray input w h) i = pixel_gray input i.
Proof.
  intros Hn. unfold fallback_gray, Processor.grayPlane.
  destruct (store_loop_spec (pixel_gray input) 0 0 (w * h)
              (replicate (Z.to_nat (w * h)) 0) Hn ltac:(lia)
              ltac:(rewrite length_replicate; lia)) as (Hl & Hv & _).
  split.
  - rewrite <- (length_replicate (Z.to_nat (w * h)) 0) at 2. exact Hl.
  - intros i Hi. apply (Hv i Hi).
Qed.

(** The temporaries of the fallback edge path do not depend on what the
    allocator left in them: every cell of the gray plane is assigned
    before it is read, and the edge map is cleared by [memset]. *)
Lemma grayPlane_spec (input g0 : list Z) (n : Z) :
  0 <= n -> n <= Z.of_nat (length g0) ->
  length (Processor.grayPlane input n g0) = length g0
  /\ forall i, 0 <= i < n ->
       load (Processor.grayPlane input n g0) i = pixel_gray input i.
Proof.
  intros Hn Hl. unfold Processor.grayPlane.
  destruct (store_loop_spec (pixel_gray input) 0 0 n g0 Hn ltac:(lia)
              ltac:(lia)) as (Hl1 & Hv1 & _).
  split; [exact Hl1 |]. intros i Hi. apply (Hv1 i Hi).
Qed.

Lemma grayPlane_fresh (input g0 : list Z) (n : Z) :
  0 <= n -> length g0 = Z.to_nat n ->
  Processor.grayPlane input n g0
  = Processor.grayPlane input n (replicate (Z.to_nat n) 0).
Proof.
  intros Hn Hl.
  destruct (grayPlane_spec input g0 n Hn ltac:(lia)) as (Hl1 & Hv1).
  destruct (grayPlane_spec input (replicate (Z.to_nat n) 0) n Hn
              ltac:(rewrite length_replicate; lia)) as (Hl2 & Hv2).
  rewrite length_replicate in Hl2.
  apply load_ext; [congruence |].
  intros i Hi. rewrite Hv1, Hv2 by lia. done.
Qed.

Lemma simpleEdgeDetection_fresh (g e0 : list Z) (w h : Z) :
  frame_dims w h -> length e0 = Z.to_nat (w * h) ->
  ImageUtils.simpleEdgeDetection g w h e0
  = ImageUtils.simpleEdgeDetection g w h (replicate (Z.to_nat (w * h)) 0).
Proof.
  intros Hd Hl. destruct (frame_dims_pixels _ _ Hd) as [Hpos Hmax].
  unfold ImageUtils.simpleEdgeDetection, ImageUtils.sobelPass.
  rewrite (int_mul_pixels _ _ Hd), to_size_t_id by lia.
  assert (Hm : memset e0 0 (w * h)
               = memset (replicate (Z.to_nat (w * h)) 0) 0 (w * h)).
  { unfold memset. rewrite !drop_ge by (rewrite ?length_replicate; lia).
    done. }
  by rewrite Hm.
Qed.

Lemma applyCannyEdgeFallback_spec `{heap : Allocator} (input output : list Z)
    (w h : Z) :
  frame_dims w h ->
  w * h * 4 <= Z.of_nat (length output) ->
  exists out',
    Processor.applyCannyEdgeFallback input w h output = (true, out')
    /\ length out' = length output
    /\ (forall i, 0 <= i < w * h ->
          let e := if 50 <? load (fallback_gradient input w h) i
                   then 255 else 0 in
          pixel_is out' i e e e 255)
    /\ (forall j, w * h * 4 <= j -> load out' j = load output j).
Proof.
  intros Hd Hlen. destruct (frame_dims_pixels _ _ Hd) as [Hpos Hmax].
  unfold Processor.applyCannyEdgeFallback.
  rewrite (int_mul_pixels _ _ Hd). cbv zeta.
  rewrite (grayPlane_fresh input (new_uint8 0 (w * h)) (w * h))
    by (lia || apply new_uint8_length).
  fold (fallback_gray input w h).
  rewrite (simpleEdgeDetection_fresh (fallback_gray input w h)
             (new_uint8 1 (w * h)) w h Hd (new_uint8_length _ _)).
  eexists. split; [reflexivity |].
  set (edgeData := ImageUtils.simpleEdgeDetection _ _ _ _).
  destruct (simpleEdgeDetection_spec (fallback_gray input w h)
              (replicate (Z.to_nat (w * h)) 0) w h Hd
              ltac:(rewrite length_replicate; lia)) as (_ & Hedge).
  fold edgeData in Hedge. fold (fallback_gradient input w h) in Hedge.
  destruct (pixel_loop_spec (load edgeData) (load edgeData) (load edgeData)
              (fun _ => 255) 0 (w * h) output
              ltac:(lia) ltac:(lia) ltac:(lia)) as (Hl & Hpix & Hrest).
  split; [exact Hl |]. split.
  - intros i Hi. rewrite <- (Hedge i Hi). apply (Hpix i Hi).
  - intros j Hj. apply Hrest. lia.
Qed.

(** C5. On a valid frame the fallback EdgeDetect output is binary: pixel
    [i] is [(e, e, e, 255)] with [e = 255] when the gradient value of the
    pixel is strictly greater than 50 and [e = 0] otherwise. *)
Theorem fallback_edges_binary `{heap : Allocator} (input output : list Z)
    (w h : Z) :
  frame_dims w h ->
  w * h * 4 <= Z.of_nat (length input) ->
  w * h * 4 <= Z.of_nat (length output) ->
  exists out',
    Processor.applyCannyEdgeFallback input w h output = (true, out')
    /\ length out' = length output
    /\ forall i, 0 <= i < w * h ->
         exists e,
           (e = 0 \/ e = 255)
           /\ e = (if 50 <? load (fallback_gradient input w h) i
                   then 255 else 0)
           /\ pixel_is out' i e e e 255.
Proof.
  intros Hd _ Hlen.
  destruct (applyCannyEdgeFallback_spec input output w h Hd Hlen)
    as (out' & Heq & Hl & Hpix & _).
  exists out'. split; [done |]. split; [done |].
  intros i Hi. eexists. split; [| split; [reflexivity | apply (Hpix i Hi)]].
  destruct (50 <? _); auto.
Qed.

(** C10. On a valid frame with [width <= 2] or [height <= 2] the fallback
    EdgeDetect output is all black: every pixel is [(0, 0, 0, 255)],
    whatever the allocator left in the two temporaries.  The edge map of
    such a frame is all zeros whatever the buffer handed to
    [simpleEdgeDetection] held before: the [memset] clears it, the Sobel
    loops have no interior pixel to write, and the threshold maps 0 to
    0. *)
Theorem fallback_edges_thin_frame_black `{heap : Allocator}
    (input output : list Z) (w h : Z) :
  frame_dims w h ->
  w * h * 4 <= Z.of_nat (length input) ->
  w * h * 4 <= Z.of_nat (length output) ->
  w <= 2 \/ h <= 2 ->
  (exists out',
     Processor.applyCannyEdgeFallback input w h output = (true, out')
     /\ length out' = length output
     /\ forall i, 0 <= i < w * h -> pixel_is out' i 0 0 0 255)
  /\ (forall g e0 i,
        w * h <= Z.of_nat (length e0) -> 0 <= i < w * h ->
        load (ImageUtils.simpleEdgeDetection g w h e0) i = 0).
Proof.
  intros Hd _ Hlen Hthin. destruct (frame_dims_pixels _ _ Hd) as [Hpos Hmax].
  assert (Hmap : forall g e0 i,
            w * h <= Z.of_nat (length e0) -> 0 <= i < w * h ->
            load (ImageUtils.sobelPass g w h e0) i = 0).
  { intros g e0 i He Hi.
    destruct (sobelPass_spec g e0 w h Hd He) as (_ & _ & Hzero).
    apply (Hzero i Hi). intros; lia. }
  split.
  - destruct (applyCannyEdgeFallback_spec input output w h Hd Hlen)
      as (out' & Heq & Hl & Hpix & _).
    exists out'. split; [done |]. split; [done |].
    intros i Hi. specialize (Hpix i Hi). cbv zeta in Hpix.
    unfold fallback_gradient in Hpix.
    rewrite (Hmap (fallback_gray input w h) (replicate (Z.to_nat (w * h)) 0)
               i ltac:(rewrite length_replicate; lia) Hi) in Hpix.
    exact Hpix.
  - intros g e0 i He Hi.
    destruct (simpleEdgeDetection_spec g e0 w h Hd He) as (_ & Hv).
    rewrite (Hv i Hi), (Hmap g e0 i He Hi). done.
Qed.

(** Without backend, the modes EdgeDetect and Grayscale of [processFrame]
    are the two fallback paths. *)
Lemma processFrame_fallback_dispatch `{cv : OpenCV} `{heap : Allocator}
    (p : OpenCVProcessor)
    (clock : Z * Z) (input output : list Z) (w h m : Z) :
  mInitialized p = true -> mOpenCVAvailable p = false ->
  0 < w -> 0 < h ->
  m = MODE_EDGE \/ m = MODE_GRAYSCALE ->
  Processor.processFrame p clock (Some input) w h m (Some output)
  = ({| processingTimeMs := wrap_i64 (snd clock - fst clock);
        width := w; height := h; mode := m; success := true |},
     Processor.updateStatistics p (wrap_i64 (snd clock - fst clock)),
     Some (snd (if m =? MODE_EDGE
                then Processor.applyCannyEdgeFallback input w h output
                else Processor.convertToGrayscaleFallback input w h output))).
Proof.
  intros Hi Hna Hw Hh Hm. unfold Processor.processFrame.
  rewrite Hi. simpl negb. cbv iota.
  destruct (Z.leb_spec w 0); [lia |]. destruct (Z.leb_spec h 0); [lia |].
  simpl orb. cbv iota.
  unfold Processor.applyCannyEdge, Processor.convertToGrayscale.
  rewrite Hna. destruct Hm as [-> | ->]; reflexivity.
Qed.

(** ** Thresholds *)

Lemma applyCannyEdge_unavailable `{cv : OpenCV} `{heap : Allocator}
    p input w h output :
  mOpenCVAvailable p = false ->
  Processor.applyCannyEdge p input w h output
  = Processor.applyCannyEdgeFallback input w h output.
Proof. intros H. unfold Processor.applyCannyEdge. by rewrite H. Qed.

(** C9. On the fallback edge path (no backend) the result of a
    [processFrame] call in mode EdgeDetect, metrics and output bytes, is
    the same whatever thresholds [setCannyThresholds] stored, and
    [setCannyThresholds] stores the two thresholds and leaves every other
    field of the engine as it was. *)
Theorem fallback_edges_ignore_thresholds `{cv : OpenCV} `{heap : Allocator}
    (p : OpenCVProcessor) (clock : Z * Z) (input output : option (list Z))
    (w h : Z) (lo hi lo' hi' : spec_float) :
  mOpenCVAvailable p = false ->
  let p1 := Processor.setCannyThresholds p lo hi in
  let p2 := Processor.setCannyThresholds p lo' hi' in
  let r1 := Processor.processFrame p1 clock input w h MODE_EDGE output in
  let r2 := Processor.processFrame p2 clock input w h MODE_EDGE output in
  snd r1 = snd r2 /\ fst (fst r1) = fst (fst r2)
  /\ mCannyLowThreshold p1 = lo /\ mCannyHighThreshold p1 = hi
  /\ mInitialized p1 = mInitialized p
  /\ mOpenCVAvailable p1 = mOpenCVAvailable p
  /\ mCannyApertureSize p1 = mCannyApertureSize p
  /\ mTotalFramesProcessed p1 = mTotalFramesProcessed p
  /\ mTotalProcessingTimeMs p1 = mTotalProcessingTimeMs p
  /\ mLastProcessingTimeMs p1 = mLastProcessingTimeMs p.
Proof.
  intros Hna p1 p2 r1 r2.
  assert (Hr : snd r1 = snd r2 /\ fst (fst r1) = fst (fst r2)).
  { unfold r1, r2, Processor.processFrame.
    change (mInitialized p1) with (mInitialized p).
    change (mInitialized p2) with (mInitialized p).
    destruct (mInitialized p); simpl negb; cbv iota; [| done].
    destruct input as [input|]; [| done].
    destruct output as [output|]; [| done].
    destruct ((w <=? 0) || (h <=? 0)); [done |].
    change (MODE_EDGE =? MODE_RAW) with false.
    change (MODE_EDGE =? MODE_EDGE) with true. cbv iota.
    rewrite !applyCannyEdge_unavailable by done.
    destruct (Processor.applyCannyEdgeFallback input w h output). done. }
  destruct Hr. repeat split; done.
Qed.

(** ** Grayscale *)

(** The pixel (85, 3, 16) has weighted sum exactly 29; the binary32
    computation stays below 29 and is truncated to 28. *)
Lemma grayscale_floor_counterexample :
  ~ grayscale_floor_claim [85; 3; 16; 255]
      (snd (Processor.convertToGrayscaleFallback
              [85; 3; 16; 255] 1 1 [0; 0; 0; 0])) 0.
Proof.
  unfold grayscale_floor_claim, pixel_is.
  intros [H _]. vm_compute in H. discriminate H.
Qed.

(** C2 (amended). On a valid frame the fallback Grayscale path writes, for
    every pixel, [R = G = B = rgbaToGray(R0, G0, B0)] and alpha 255, where
    [rgbaToGray] is the binary32 evaluation of
    [0.299f * R0 + 0.587f * G0 + 0.114f * B0] truncated to an integer; it
    is [floor(0.299 R0 + 0.587 G0 + 0.114 B0)] or one less, and a byte. *)
Theorem grayscale_fallback_pixels (input output : list Z)
    (w h : Z) :
  frame_dims w h ->
  w * h * 4 <= Z.of_nat (length input) ->
  w * h * 4 <= Z.of_nat (length output) ->
  Forall is_byte input ->
  exists out',
    Processor.convertToGrayscaleFallback input w h output = (true, out')
    /\ length out' = length output
    /\ forall i, 0 <= i < w * h ->
         exists gray,
           gray = ImageUtils.rgbaToGray (load input (i * 4))
                    (load input (i * 4 + 1)) (load input (i * 4 + 2))
           /\ pixel_is out' i gray gray gray 255
           /\ gray_floor (load input (i * 4)) (load input (i * 4 + 1))
                (load input (i * 4 + 2)) - 1 <= gray
           /\ gray <= gray_floor (load input (i * 4)) (load input (i * 4 + 1))
                        (load input (i * 4 + 2))
           /\ 0 <= gray <= 255.
Proof.
  intros Hd _ Hlen Hbytes.
  destruct (convertToGrayscaleFallback_spec input output w h Hd Hlen)
    as (out' & Heq & Hl & Hpix & _).
  exists out'. split; [done |]. split; [done |].
  intros i Hi. eexists. split; [reflexivity |]. split; [apply (Hpix i Hi) |].
  pose proof (load_byte input (i * 4) Hbytes) as H0.
  pose proof (load_byte input (i * 4 + 1) Hbytes) as H1.
  pose proof (load_byte input (i * 4 + 2) Hbytes) as H2.
  destruct (rgbaToGray_floor _ _ _ H0 H1 H2) as [[Hlo Hhi] Hrange].
  done.
Qed.

Lemma grayscale_fallback_pixels_witness :
  exists out',
    Processor.convertToGrayscaleFallback
      [85; 3; 16; 255; 128; 128; 128; 7] 2 1 [0; 0; 0; 0; 0; 0; 0; 0]
    = (true, out')
    /\ length out' = length [0; 0; 0; 0; 0; 0; 0; 0]
    /\ forall i, 0 <= i < 2 * 1 ->
         exists gray,
           gray = ImageUtils.rgbaToGray
                    (load [85; 3; 16; 255; 128; 128; 128; 7] (i * 4))
                    (load [85; 3; 16; 255; 128; 128; 128; 7] (i * 4 + 1))
                    (load [85; 3; 16; 255; 128; 128; 128; 7] (i * 4 + 2))
           /\ pixel_is out' i gray gray gray 255
           /\ gray_floor (load [85; 3; 16; 255; 128; 128; 128; 7] (i * 4))
                (load [85; 3; 16; 255; 128; 128; 128; 7] (i * 4 + 1))
                (load [85; 3; 16; 255; 128; 128; 128; 7] (i * 4 + 2)) - 1
              <= gray
           /\ gray <= gray_floor
                        (load [85; 3; 16; 255; 128; 128; 128; 7] (i * 4))
                        (load [85; 3; 16; 255; 128; 128; 128; 7] (i * 4 + 1))
                        (load [85; 3; 16; 255; 128; 128; 128; 7] (i * 4 + 2))
           /\ 0 <= gray <= 255.
Proof.
  apply grayscale_fallback_pixels.
  - unfold frame_dims, INT_MAX. lia.
  - simpl. lia.
  - simpl. lia.
  - repeat constructor; unfold is_byte; lia.
Defined.

(** ** The gradient magnitude *)

Lemma round_sqrt_nearest (n : Z) :
  0 <= n ->
  4 * n < (2 * round_sqrt n + 1) * (2 * round_sqrt n + 1)
  /\ (0 < round_sqrt n ->
      (2 * round_sqrt n - 1) * (2 * round_sqrt n - 1) <= 4 * n).
Proof.
  intros Hn. unfold round_sqrt.
  pose proof (Z.sqrt_spec (4 * n) ltac:(lia)) as [Hlo Hhi].
  pose proof (Z.sqrt_nonneg (4 * n)) as Ht.
  set (t := Z.sqrt (4 * n)) in *.
  pose proof (Z.div_mod (t + 1) 2 ltac:(lia)) as Hdm.
  pose proof (Z.mod_pos_bound (t + 1) 2 ltac:(lia)) as Hmod.
  set (k := (t + 1) / 2) in *.
  assert (Hcase : t = 2 * k - 1 \/ t = 2 * k) by lia.
  clearbody k. clearbody t.
  destruct Hcase; subst t; split; intros; nia.
Qed.

(** C3, as the specification states it, fails on a 3x3 image with
    [gx = 50] and [gy = 10]: the square root of 2600 is about 50.99, its
    nearest integer is 51, and the code stores 50. *)
Lemma sobel_round_counterexample :
  load (ImageUtils.sobelPass [0; 0; 0; 0; 0; 25; 0; 5; 0] 3 3 (replicate 9 0))
    (1 * 3 + 1)
  <> Z.min 255
       (round_sqrt
          (sobel_gx [0; 0; 0; 0; 0; 25; 0; 5; 0] 3 1 1
           * sobel_gx [0; 0; 0; 0; 0; 25; 0; 5; 0] 3 1 1
           + sobel_gy [0; 0; 0; 0; 0; 25; 0; 5; 0] 3 1 1
             * sobel_gy [0; 0; 0; 0; 0; 25; 0; 5; 0] 3 1 1)).
Proof. vm_compute. intros H. discriminate H. Qed.

Lemma magnitude_isqrt (gx gy : Z) :
  - 1020 <= gx <= 1020 -> - 1020 <= gy <= 1020 ->
  ImageUtils.magnitude gx gy = Z.min 255 (Z.sqrt (gx * gx + gy * gy)).
Proof.
  intros Hx Hy. unfold ImageUtils.magnitude. rewrite trunc_sqrt; [done |].
  change (2 ^ 52) with 4503599627370496. nia.
Qed.

(** C3 (amended). For every interior pixel ([1 <= x <= width - 2],
    [1 <= y <= height - 2]) the value the Sobel loops store before the
    threshold is [floor(sqrt(gx^2 + gy^2))] clipped to 255, the [double]
    square root being truncated by the conversion to [int]; [gx] and [gy]
    are the 3x3 Sobel X and Y convolutions of the grayscale input. *)
Theorem sobel_interior_magnitude (g output : list Z) (w h x y : Z) :
  frame_dims w h ->
  w * h <= Z.of_nat (length g) ->
  w * h <= Z.of_nat (length output) ->
  Forall is_byte g ->
  1 <= x <= w - 2 -> 1 <= y <= h - 2 ->
  load (ImageUtils.sobelPass g w h output) (y * w + x)
  = Z.min 255 (Z.sqrt (sobel_gx g w x y * sobel_gx g w x y
                       + sobel_gy g w x y * sobel_gy g w x y))
  /\ ImageUtils.convolve g w x y = (sobel_gx g w x y, sobel_gy g w x y).
Proof.
  intros Hd _ Hlen Hg Hx Hy.
  destruct (sobelPass_spec g output w h Hd Hlen) as (_ & Hin & _).
  rewrite (Hin x y) by lia. unfold sobel_value.
  destruct (sobel_gradient_range g w x y Hg) as [Hgx Hgy].
  rewrite (magnitude_isqrt _ _ Hgx Hgy).
  split; [| apply convolve_sobel].
  apply to_u8_id. unfold is_byte.
  pose proof (Z.sqrt_nonneg (sobel_gx g w x y * sobel_gx g w x y
                             + sobel_gy g w x y * sobel_gy g w x y)).
  lia.
Qed.

Lemma sobel_interior_magnitude_witness :
  load (ImageUtils.sobelPass [0; 0; 0; 0; 0; 25; 0; 5; 0] 3 3 (replicate 9 0))
    (1 * 3 + 1)
  = Z.min 255
      (Z.sqrt (sobel_gx [0; 0; 0; 0; 0; 25; 0; 5; 0] 3 1 1
               * sobel_gx [0; 0; 0; 0; 0; 25; 0; 5; 0] 3 1 1
               + sobel_gy [0; 0; 0; 0; 0; 25; 0; 5; 0] 3 1 1
                 * sobel_gy [0; 0; 0; 0; 0; 25; 0; 5; 0] 3 1 1))
  /\ ImageUtils.convolve [0; 0; 0; 0; 0; 25; 0; 5; 0] 3 1 1
     = (sobel_gx [0; 0; 0; 0; 0; 25; 0; 5; 0] 3 1 1,
        sobel_gy [0; 0; 0; 0; 0; 25; 0; 5; 0] 3 1 1).
Proof.
  apply (sobel_interior_magnitude [0; 0; 0; 0; 0; 25; 0; 5; 0]
           (replicate 9 0) 3 3 1 1).
  - unfold frame_dims, INT_MAX. lia.
  - simpl. lia.
  - simpl. lia.
  - repeat constructor; unfold is_byte; lia.
  - lia.
  - lia.
Defined.

(** ** Instances *)

Lemma fallback_edges_binary_witness :
  exists out',
    Processor.applyCannyEdgeFallback (heap := stale_heap) edge_frame 3 3
      (replicate 36 7)
    = (true, out')
    /\ length out' = length (replicate 36 7)
    /\ forall i, 0 <= i < 3 * 3 ->
         exists e,
           (e = 0 \/ e = 255)
           /\ e = (if 50 <? load (fallback_gradient edge_frame 3 3) i
                   then 255 else 0)
           /\ pixel_is out' i e e e 255.
Proof.
  apply fallback_edges_binary.
  - unfold frame_dims, INT_MAX. lia.
  - simpl. lia.
  - simpl. lia.
Defined.

Lemma fallback_edges_thin_frame_black_witness :
  (exists out',
     Processor.applyCannyEdgeFallback (heap := stale_heap) gray_frame 2 2
       (replicate 16 7)
     = (true, out')
     /\ length out' = length (replicate 16 7)
     /\ forall i, 0 <= i < 2 * 2 -> pixel_is out' i 0 0 0 255)
  /\ (forall g e0 i,
        2 * 2 <= Z.of_nat (length e0) -> 0 <= i < 2 * 2 ->
        load (ImageUtils.simpleEdgeDetection g 2 2 e0) i = 0).
Proof.
  apply (fallback_edges_thin_frame_black (heap := stale_heap)).
  - unfold frame_dims, INT_MAX. lia.
  - simpl. lia.
  - simpl. lia.
  - left. lia.
Defined.

Lemma fallback_edges_ignore_thresholds_witness :
  let p1 := Processor.setCannyThresholds ready_engine (F64.of_Z 10)
              (F64.of_Z 10) in
  let p2 := Processor.setCannyThresholds ready_engine (F64.of_Z 50)
              (F64.of_Z 150) in
  let r1 := Processor.processFrame (cv := no_opencv) (heap := stale_heap)
      p1 (3, 8)
              (Some edge_frame) 3 3 MODE_EDGE (Some (replicate 36 7)) in
  let r2 := Processor.processFrame (cv := no_opencv) (heap := stale_heap)
      p2 (3, 8)
              (Some edge_frame) 3 3 MODE_EDGE (Some (replicate 36 7)) in
  snd r1 = snd r2 /\ fst (fst r1) = fst (fst r2)
  /\ mCannyLowThreshold p1 = F64.of_Z 10
  /\ mCannyHighThreshold p1 = F64.of_Z 10
  /\ mInitialized p1 = mInitialized ready_engine
  /\ mOpenCVAvailable p1 = mOpenCVAvailable ready_engine
  /\ mCannyApertureSize p1 = mCannyApertureSize ready_engine
  /\ mTotalFramesProcessed p1 = mTotalFramesProcessed ready_engine
  /\ mTotalProcessingTimeMs p1 = mTotalProcessingTimeMs ready_engine
  /\ mLastProcessingTimeMs p1 = mLastProcessingTimeMs ready_engine.
Proof.
  apply (fallback_edges_ignore_thresholds (cv := no_opencv) ready_engine).
  reflexivity.
Defined.

Lemma yuv420ToRgba_pixels_witness :
  exists out',
    NativeLib.yuv420ToRgba (Some [235; 235; 235; 235]) (Some [128])
      (Some [128]) 2 2 2 1 1 (Some (replicate 16 0)) = Some out'
    /\ length out' = length (replicate 16 0)
    /\ forall x y, 0 <= x < 2 -> 0 <= y < 2 ->
         let Y := load [235; 235; 235; 235] (y * 2 + x) in
         let U := load [128] ((y / 2) * 1 + (x / 2) * 1) in
         let V := load [128] ((y / 2) * 1 + (x / 2) * 1) in
         pixel_is out' (y * 2 + x) (yuv_red Y U V) (yuv_green Y U V)
           (yuv_blue Y U V) 255
         /\ (Y = 235 -> U = 128 -> V = 128 ->
             pixel_is out' (y * 2 + x) 255 255 255 255).
Proof.
  apply yuv420ToRgba_pixels.
  - lia.
  - lia.
  - unfold planes_cover. repeat split;
      try (repeat constructor; unfold is_byte; lia);
      simpl length; Z.to_euclidean_division_equations; lia.
Defined.

(** Three calls on a fresh Ready engine: Grayscale taking 4 ms, a call
    with a null output that is rejected, and EdgeDetect taking 6 ms. *)
Lemma statistics_after_calls_witness :
  Processor.getStatistics
    (runCalls (cv := no_opencv) (heap := stale_heap) ready_engine
       [ {| callClock := (100, 104); callInput := Some gray_frame;
            callWidth := 2; callHeight := 2; callMode := MODE_GRAYSCALE;
            callOutput := Some (replicate 16 0) |};
         {| callClock := (110, 111); callInput := Some gray_frame;
            callWidth := 2; callHeight := 2; callMode := MODE_RAW;
            callOutput := None |};
         {| callClock := (120, 126); callInput := Some gray_frame;
            callWidth := 2; callHeight := 2; callMode := MODE_EDGE;
            callOutput := Some (replicate 16 0) |} ])
  = {| statFrames := 2;
       statAvgTime := F64.div (F64.of_Z 10) (F64.of_Z 2);
       statLastTime := 6;
       statOpenCV := false |}.
Proof.
  apply (statistics_after_calls (cv := no_opencv) ready_engine).
  - reflexivity.
  - reflexivity.
  - reflexivity.
  - vm_compute. repeat constructor; discriminate.
  - vm_compute. reflexivity.
  - vm_compute. reflexivity.
Defined.

(** * Further properties *)

(** ** Thresholding *)

Lemma applyThreshold_spec (input output : list Z) (w h t : Z) :
  0 <= w * h <= INT_MAX ->
  w * h <= Z.of_nat (length output) ->
  let r := ImageUtils.applyThreshold input w h t output in
  length r = length output
  /\ (forall i, 0 <= i < w * h ->
        load r i = if to_u8 t <? load input i then 255 else 0)
  /\ (forall j, w * h <= j -> load r j = load output j).
Proof.
  intros Hn Hlen. unfold ImageUtils.applyThreshold, int_mul. cbv zeta.
  rewrite wrap_int_id by lia.
  destruct (store_loop_spec
              (fun i => if to_u8 t <? load input i then 255 else 0)
              0 0 (w * h) output ltac:(lia) ltac:(lia) ltac:(lia))
    as (Hl & Hv & Hrest).
  split; [exact Hl |]. split.
  - intros i Hi. apply (Hv i Hi).
  - intros j Hj. apply Hrest. lia.
Qed.

(** X1. [applyThreshold] writes, for each of the first [width * height]
    cells, 255 when the input cell is strictly greater than the threshold
    and 0 otherwise; it keeps the length of the output buffer and every
    cell after these.  The threshold is the one the [uint8_t] parameter
    holds: the argument itself when it is in [0,255], the argument modulo
    256 otherwise. *)
Theorem applyThreshold_binarizes (input output : list Z) (w h t : Z) :
  0 <= w * h <= INT_MAX ->
  w * h <= Z.of_nat (length output) ->
  let r := ImageUtils.applyThreshold input w h t output in
  length r = length output
  /\ (forall i, 0 <= i < w * h ->
        (to_u8 t < load input i -> load r i = 255)
        /\ (load input i <= to_u8 t -> load r i = 0))
  /\ (forall i, 0 <= i < w * h -> 0 <= t <= 255 ->
        (t < load input i -> load r i = 255)
        /\ (load input i <= t -> load r i = 0))
  /\ (forall j, w * h <= j -> load r j = load output j).
Proof.
  intros Hn Hlen.
  destruct (applyThreshold_spec input output w h t Hn Hlen) as (Hl & Hv & Hr).
  split; [exact Hl |].
  assert (Hgen : forall i, 0 <= i < w * h ->
            (to_u8 t < load input i -> load (ImageUtils.applyThreshold
                                               input w h t output) i = 255)
            /\ (load input i <= to_u8 t -> load (ImageUtils.applyThreshold
                                                  input w h t output) i = 0)).
  { intros i Hi. rewrite (Hv i Hi).
    destruct (Z.ltb_spec (to_u8 t) (load input i)); split; intros;
      (done || lia). }
  split; [exact Hgen |]. split; [| exact Hr].
  intros i Hi Ht. pose proof (Hgen i Hi) as Hg.
  rewrite (to_u8_id t Ht) in Hg. exact Hg.
Qed.

Lemma applyThreshold_binarizes_witness :
  let r := ImageUtils.applyThreshold [10; 200; 50; 51] 2 2 50 [7; 7; 7; 7; 9] in
  length r = length [7; 7; 7; 7; 9]
  /\ (forall i, 0 <= i < 2 * 2 ->
        (to_u8 50 < load [10; 200; 50; 51] i -> load r i = 255)
        /\ (load [10; 200; 50; 51] i <= to_u8 50 -> load r i = 0))
  /\ (forall i, 0 <= i < 2 * 2 -> 0 <= 50 <= 255 ->
        (50 < load [10; 200; 50; 51] i -> load r i = 255)
        /\ (load [10; 200; 50; 51] i <= 50 -> load r i = 0))
  /\ (forall j, 2 * 2 <= j -> load r j = load [7; 7; 7; 7; 9] j).
Proof.
  apply applyThreshold_binarizes.
  - unfold INT_MAX. lia.
  - simpl. lia.
Defined.

(** X2. Thresholding is idempotent below 255: applying [applyThreshold]
    to its own result with the same threshold gives that result again,
    whenever the threshold the [uint8_t] parameter holds (the argument
    modulo 256) is at most 254.  When it is 255, the largest a [uint8_t]
    holds, an image of bytes becomes all zeros. *)
Theorem applyThreshold_idempotent (input out1 out2 : list Z) (w h t : Z) :
  0 <= w * h <= INT_MAX ->
  w * h <= Z.of_nat (length out1) ->
  w * h <= Z.of_nat (length out2) ->
  let first := ImageUtils.applyThreshold input w h t out1 in
  let second := ImageUtils.applyThreshold first w h t out2 in
  (to_u8 t < 255 ->
   forall i, 0 <= i < w * h -> load second i = load first i)
  /\ (to_u8 t = 255 -> Forall is_byte input ->
      forall i, 0 <= i < w * h -> load first i = 0).
Proof.
  intros Hn Hl1 Hl2.
  destruct (applyThreshold_spec input out1 w h t Hn Hl1) as (_ & Hv1 & _).
  destruct (applyThreshold_spec (ImageUtils.applyThreshold input w h t out1)
              out2 w h t Hn Hl2) as (_ & Hv2 & _).
  assert (Hu : 0 <= to_u8 t < 256) by (apply Z.mod_pos_bound; lia).
  split.
  - intros Ht i Hi. rewrite (Hv2 i Hi), (Hv1 i Hi).
    destruct (Z.ltb_spec (to_u8 t) (load input i)).
    + destruct (Z.ltb_spec (to_u8 t) 255); [done | lia].
    + destruct (Z.ltb_spec (to_u8 t) 0); [lia | done].
  - intros Ht Hb i Hi. rewrite (Hv1 i Hi).
    pose proof (load_byte input i Hb) as Hbyte. unfold is_byte in Hbyte.
    destruct (Z.ltb_spec (to_u8 t) (load input i)); [lia | done].
Qed.

Lemma applyThreshold_idempotent_witness :
  let first := ImageUtils.applyThreshold [10; 200; 50; 51] 2 2 50 [7; 7; 7; 7] in
  let second := ImageUtils.applyThreshold first 2 2 50 [1; 2; 3; 4] in
  (to_u8 50 < 255 ->
   forall i, 0 <= i < 2 * 2 -> load second i = load first i)
  /\ (to_u8 50 = 255 -> Forall is_byte [10; 200; 50; 51] ->
      forall i, 0 <= i < 2 * 2 -> load first i = 0).
Proof.
  apply applyThreshold_idempotent.
  - unfold INT_MAX. lia.
  - simpl. lia.
  - simpl. lia.
Defined.

Lemma thresholdPass_spec (t w h : Z) (output : list Z) :
  0 <= w * h <= INT_MAX ->
  w * h <= Z.of_nat (length output) ->
  let r := ImageUtils.thresholdPass t w h output in
  length r = length output
  /\ (forall i, 0 <= i < w * h ->
        load r i = if t <? load output i then 255 else 0)
  /\ (forall j, w * h <= j -> load r j = load output j).
Proof.
  intros Hn Hlen. unfold ImageUtils.thresholdPass, int_mul.
  rewrite wrap_int_id by lia.
  apply (map_loop_spec (fun v => if t <? v then 255 else 0) (w * h) output).
  lia.
Qed.

Lemma sobelPass_length (g output : list Z) (w h : Z) :
  frame_dims w h -> w * h <= Z.of_nat (length output) ->
  length (ImageUtils.sobelPass g w h output) = length output.
Proof. intros Hd Hl. by destruct (sobelPass_spec g output w h Hd Hl). Qed.

(** X3. The edge map of [simpleEdgeDetection] is [applyThreshold] with
    threshold 50 applied to the gradient map it computed: thresholding in
    place and thresholding into the same buffer give the same bytes. *)
Theorem simpleEdgeDetection_is_threshold_50 (g output : list Z) (w h : Z) :
  frame_dims w h ->
  w * h <= Z.of_nat (length output) ->
  let gradient := ImageUtils.sobelPass g w h output in
  ImageUtils.simpleEdgeDetection g w h output
  = ImageUtils.applyThreshold gradient w h 50 gradient.
Proof.
  intros Hd Hlen gradient.
  destruct (frame_dims_pixels _ _ Hd) as [Hpos Hmax].
  assert (Hlg : length gradient = length output)
    by (apply sobelPass_length; done).
  destruct (thresholdPass_spec 50 w h gradient ltac:(lia) ltac:(lia))
    as (Hl1 & Hv1 & Hr1).
  destruct (applyThreshold_spec gradient gradient w h 50 ltac:(lia)
              ltac:(lia)) as (Hl2 & Hv2 & Hr2).
  unfold ImageUtils.simpleEdgeDetection. fold gradient.
  apply load_ext; [congruence |].
  intros i Hi. destruct (Z.lt_ge_cases i (w * h)).
  - rewrite Hv1, Hv2 by lia. done.
  - rewrite Hr1, Hr2 by lia. done.
Qed.

Lemma simpleEdgeDetection_is_threshold_50_witness :
  let gradient :=
    ImageUtils.sobelPass [0; 0; 255; 0; 0; 255; 0; 0; 255] 3 3 (replicate 9 7) in
  ImageUtils.simpleEdgeDetection [0; 0; 255; 0; 0; 255; 0; 0; 255] 3 3
    (replicate 9 7)
  = ImageUtils.applyThreshold gradient 3 3 50 gradient.
Proof.
  apply simpleEdgeDetection_is_threshold_50.
  - unfold frame_dims, INT_MAX. lia.
  - simpl. lia.
Defined.

(** ** Edges *)

Lemma magnitude_above_50 (gx gy : Z) :
  - 1020 <= gx <= 1020 -> - 1020 <= gy <= 1020 ->
  (50 <? to_u8 (ImageUtils.magnitude gx gy)) = (2601 <=? gx * gx + gy * gy).
Proof.
  intros Hx Hy. rewrite (magnitude_isqrt _ _ Hx Hy).
  set (n := gx * gx + gy * gy). assert (Hn : 0 <= n) by (unfold n; nia).
  pose proof (Z.sqrt_nonneg n) as Hs.
  rewrite to_u8_id by (unfold is_byte; lia).
  pose proof (Z.sqrt_le_square n 51 Hn ltac:(lia)) as Hiff.
  destruct (Z.leb_spec 2601 n) as [Hge | Hlt].
  - assert (51 <= Z.sqrt n) by (apply Hiff; lia).
    destruct (Z.ltb_spec 50 (Z.min 255 (Z.sqrt n))); [done | lia].
  - assert (~ 51 <= Z.sqrt n) by (intros Hc; apply Hiff in Hc; lia).
    destruct (Z.ltb_spec 50 (Z.min 255 (Z.sqrt n))); [lia | done].
Qed.

(** X4. In the edge map of [simpleEdgeDetection] an interior pixel is 255
    exactly when [gx * gx + gy * gy >= 2601] (a gradient of length at
    least 51) and 0 otherwise. *)
Theorem simpleEdgeDetection_interior (g output : list Z) (w h x y : Z) :
  frame_dims w h ->
  w * h <= Z.of_nat (length output) ->
  Forall is_byte g ->
  1 <= x <= w - 2 -> 1 <= y <= h - 2 ->
  load (ImageUtils.simpleEdgeDetection g w h output) (y * w + x)
  = if 2601 <=? sobel_gx g w x y * sobel_gx g w x y
                + sobel_gy g w x y * sobel_gy g w x y
    then 255 else 0.
Proof.
  intros Hd Hlen Hg Hx Hy.
  destruct (simpleEdgeDetection_spec g output w h Hd Hlen) as (_ & Hv).
  destruct (sobelPass_spec g output w h Hd Hlen) as (_ & Hin & _).
  rewrite Hv by nia. rewrite (Hin x y) by lia. unfold sobel_value.
  destruct (sobel_gradient_range g w x y Hg) as [Hgx Hgy].
  rewrite (magnitude_above_50 _ _ Hgx Hgy). done.
Qed.

Lemma simpleEdgeDetection_interior_witness :
  load (ImageUtils.simpleEdgeDetection [0; 0; 0; 0; 0; 25; 0; 5; 0] 3 3
          (replicate 9 7)) (1 * 3 + 1)
  = if 2601 <=? sobel_gx [0; 0; 0; 0; 0; 25; 0; 5; 0] 3 1 1
                * sobel_gx [0; 0; 0; 0; 0; 25; 0; 5; 0] 3 1 1
                + sobel_gy [0; 0; 0; 0; 0; 25; 0; 5; 0] 3 1 1
                  * sobel_gy [0; 0; 0; 0; 0; 25; 0; 5; 0] 3 1 1
    then 255 else 0.
Proof.
  apply simpleEdgeDetection_interior.
  - unfold frame_dims, INT_MAX. lia.
  - simpl. lia.
  - repeat constructor; unfold is_byte; lia.
  - lia.
  - lia.
Defined.

(** X5. In the edge map of [simpleEdgeDetection] every pixel of the
    one-pixel border is 0, whatever the image. *)
Theorem simpleEdgeDetection_border (g output : list Z) (w h x y : Z) :
  frame_dims w h ->
  w * h <= Z.of_nat (length output) ->
  0 <= x < w -> 0 <= y < h ->
  on_border w h x y ->
  load (ImageUtils.simpleEdgeDetection g w h output) (y * w + x) = 0.
Proof.
  intros Hd Hlen Hx Hy Hb.
  destruct (simpleEdgeDetection_spec g output w h Hd Hlen) as (_ & Hv).
  destruct (sobelPass_spec g output w h Hd Hlen) as (_ & _ & Hzero).
  rewrite Hv by nia. rewrite Hzero; [done | nia |].
  intros x' y' Hx' Hy' Heq.
  assert (y = y') by nia. subst y'.
  assert (x = x') by lia. subst x'.
  unfold on_border in Hb. lia.
Qed.

Lemma simpleEdgeDetection_border_witness :
  load (ImageUtils.simpleEdgeDetection [0; 0; 255; 0; 0; 255; 0; 0; 255] 3 3
          (replicate 9 7)) (1 * 3 + 2) = 0.
Proof.
  apply simpleEdgeDetection_border.
  - unfold frame_dims, INT_MAX. lia.
  - simpl. lia.
  - lia.
  - lia.
  - unfold on_border. lia.
Defined.

(** Every cell of the gradient map, by its coordinates. *)
Lemma sobelPass_pointwise (g output : list Z) (w h i : Z) :
  frame_dims w h ->
  w * h <= Z.of_nat (length output) ->
  0 <= i < w * h ->
  load (ImageUtils.sobelPass g w h output) i
  = if (1 <=? i mod w) && (i mod w <? w - 1)
       && (1 <=? i / w) && (i / w <? h - 1)
    then sobel_value g w (i mod w) (i / w) else 0.
Proof.
  intros Hd Hlen Hi. pose proof Hd as (Hw & Hh & _).
  destruct (sobelPass_spec g output w h Hd Hlen) as (_ & Hin & Hzero).
  pose proof (Z.div_mod i w ltac:(lia)) as Hdm.
  pose proof (Z.mod_pos_bound i w Hw) as Hm.
  set (x := i mod w) in *. set (y := i / w) in *.
  assert (Hiy : i = y * w + x) by lia.
  destruct (Z.leb_spec 1 x), (Z.ltb_spec x (w - 1)), (Z.leb_spec 1 y),
    (Z.ltb_spec y (h - 1)); simpl andb; cbv iota;
    try (rewrite Hiy at 1; apply Hin; lia);
    (apply Hzero; [done |]; intros x' y' Hx' Hy' Heq;
     assert (y = y') by nia; subst y'; lia).
Qed.

Lemma sobel_value_offset (g1 g2 : list Z) (w h x y c : Z) :
  0 < w -> 1 <= x <= w - 2 -> 1 <= y <= h - 2 ->
  (forall j, 0 <= j < w * h -> load g2 j = load g1 j + c) ->
  sobel_value g2 w x y = sobel_value g1 w x y.
Proof.
  intros Hw Hx Hy Hoff. unfold sobel_value. f_equal.
  assert (Hgx : sobel_gx g2 w x y = sobel_gx g1 w x y).
  { unfold sobel_gx. rewrite !Hoff by nia. lia. }
  assert (Hgy : sobel_gy g2 w x y = sobel_gy g1 w x y).
  { unfold sobel_gy. rewrite !Hoff by nia. lia. }
  by rewrite Hgx, Hgy.
Qed.

(** X6. The edge map of [simpleEdgeDetection] does not change when a
    constant is added to every pixel of the grayscale image. *)
Theorem simpleEdgeDetection_offset (g1 g2 output : list Z) (w h c : Z) :
  frame_dims w h ->
  w * h <= Z.of_nat (length output) ->
  (forall j, 0 <= j < w * h -> load g2 j = load g1 j + c) ->
  forall i, 0 <= i < w * h ->
    load (ImageUtils.simpleEdgeDetection g2 w h output) i
    = load (ImageUtils.simpleEdgeDetection g1 w h output) i.
Proof.
  intros Hd Hlen Hoff i Hi. pose proof Hd as (Hw & Hh & _).
  destruct (simpleEdgeDetection_spec g1 output w h Hd Hlen) as (_ & Hv1).
  destruct (simpleEdgeDetection_spec g2 output w h Hd Hlen) as (_ & Hv2).
  rewrite Hv1, Hv2 by done.
  rewrite !sobelPass_pointwise by done.
  destruct (Z.leb_spec 1 (i mod w)), (Z.ltb_spec (i mod w) (w - 1)),
    (Z.leb_spec 1 (i / w)), (Z.ltb_spec (i / w) (h - 1));
    simpl andb; cbv iota; try done.
  rewrite (sobel_value_offset g1 g2 w h _ _ c Hw) by (done || lia). done.
Qed.

Lemma simpleEdgeDetection_offset_witness :
  frame_dims 3 3
  /\ forall i, 0 <= i < 3 * 3 ->
       load (ImageUtils.simpleEdgeDetection
               [10; 10; 210; 10; 10; 210; 10; 10; 210] 3 3 (replicate 9 7)) i
       = load (ImageUtils.simpleEdgeDetection
                 [0; 0; 200; 0; 0; 200; 0; 0; 200] 3 3 (replicate 9 7)) i.
Proof.
  split; [unfold frame_dims, INT_MAX; lia |].
  apply (simpleEdgeDetection_offset [0; 0; 200; 0; 0; 200; 0; 0; 200]
           [10; 10; 210; 10; 10; 210; 10; 10; 210] (replicate 9 7) 3 3 10).
  - unfold frame_dims, INT_MAX. lia.
  - simpl. lia.
  - intros j Hj.
    assert (Hc : j = 0 \/ j = 1 \/ j = 2 \/ j = 3 \/ j = 4 \/ j = 5 \/ j = 6
                 \/ j = 7 \/ j = 8) by lia.
    destruct Hc as [-> | [-> | [-> | [-> | [-> | [-> | [-> | [-> | ->]]]]]]]];
      reflexivity.
Defined.

Lemma sobelPass_uniform (g output : list Z) (w h c i : Z) :
  frame_dims w h ->
  w * h <= Z.of_nat (length output) ->
  (forall j, 0 <= j < w * h -> load g j = c) ->
  0 <= i < w * h ->
  load (ImageUtils.sobelPass g w h output) i = 0.
Proof.
  intros Hd Hlen Hu Hi. pose proof Hd as (Hw & Hh & _).
  rewrite sobelPass_pointwise by done.
  destruct (Z.leb_spec 1 (i mod w)), (Z.ltb_spec (i mod w) (w - 1)),
    (Z.leb_spec 1 (i / w)), (Z.ltb_spec (i / w) (h - 1));
    simpl andb; cbv iota; try done.
  set (x := i mod w) in *. set (y := i / w) in *.
  unfold sobel_value.
  assert (Hgx : sobel_gx g w x y = 0).
  { unfold sobel_gx. rewrite !Hu by nia. lia. }
  assert (Hgy : sobel_gy g w x y = 0).
  { unfold sobel_gy. rewrite !Hu by nia. lia. }
  rewrite Hgx, Hgy. vm_compute. reflexivity.
Qed.

(** X7. On a frame of a single colour (every pixel has the red, green and
    blue bytes of every other) the fallback EdgeDetect output is all
    black: every pixel is [(0, 0, 0, 255)]. *)
Theorem fallback_edges_uniform_black `{heap : Allocator} (input output : list Z)
    (w h r g b : Z) :
  frame_dims w h ->
  w * h * 4 <= Z.of_nat (length input) ->
  w * h * 4 <= Z.of_nat (length output) ->
  (forall i, 0 <= i < w * h ->
     load input (i * 4) = r /\ load input (i * 4 + 1) = g
     /\ load input (i * 4 + 2) = b) ->
  exists out',
    Processor.applyCannyEdgeFallback input w h output = (true, out')
    /\ forall i, 0 <= i < w * h -> pixel_is out' i 0 0 0 255.
Proof.
  intros Hd _ Hlen Hu. destruct (frame_dims_pixels _ _ Hd) as [Hpos Hmax].
  destruct (applyCannyEdgeFallback_spec input output w h Hd Hlen)
    as (out' & Heq & _ & Hpix & _).
  exists out'. split; [done |]. intros i Hi.
  specialize (Hpix i Hi). cbv zeta in Hpix. unfold fallback_gradient in Hpix.
  destruct (fallback_gray_spec input w h ltac:(lia)) as (_ & Hgray).
  rewrite (sobelPass_uniform (fallback_gray input w h) _ w h
             (ImageUtils.rgbaToGray r g b) i Hd) in Hpix;
    [exact Hpix | rewrite length_replicate; lia | | done].
  intros j Hj. rewrite (Hgray j Hj). unfold pixel_gray.
  destruct (Hu j Hj) as (-> & -> & ->). done.
Qed.

Lemma fallback_edges_uniform_black_witness :
  exists out',
    Processor.applyCannyEdgeFallback (heap := stale_heap)
        gray_frame 2 2 (replicate 16 7)
    = (true, out')
    /\ forall i, 0 <= i < 2 * 2 -> pixel_is out' i 0 0 0 255.
Proof.
  apply (fallback_edges_uniform_black gray_frame (replicate 16 7) 2 2
           128 128 128).
  - unfold frame_dims, INT_MAX. lia.
  - simpl. lia.
  - simpl. lia.
  - intros i Hi.
    assert (Hc : i = 0 \/ i = 1 \/ i = 2 \/ i = 3) by lia.
    destruct Hc as [-> | [-> | [-> | ->]]]; repeat split; reflexivity.
Defined.

(** ** What the fallback paths read and write *)

Lemma pixel_gray_same_rgb (a b : list Z) (n i : Z) :
  same_rgb a b n -> 0 <= i < n -> pixel_gray a i = pixel_gray b i.
Proof.
  intros Hs Hi. unfold pixel_gray. destruct (Hs i Hi) as (-> & -> & ->). done.
Qed.

(** X8. The fallback paths never read the alpha channel: two input frames
    with the same red, green and blue bytes in every pixel give the same
    output buffer, in Grayscale and in EdgeDetect. *)
Theorem fallback_paths_ignore_alpha `{heap : Allocator}
    (input1 input2 output : list Z)
    (w h : Z) :
  frame_dims w h ->
  same_rgb input1 input2 (w * h) ->
  Processor.convertToGrayscaleFallback input1 w h output
  = Processor.convertToGrayscaleFallback input2 w h output
  /\ Processor.applyCannyEdgeFallback input1 w h output
     = Processor.applyCannyEdgeFallback input2 w h output.
Proof.
  intros Hd Hs. split.
  - unfold Processor.convertToGrayscaleFallback.
    rewrite (int_mul_pixels _ _ Hd). f_equal.
    apply for_loop_ext. intros i s Hi. cbv zeta.
    fold (pixel_gray input1 i). fold (pixel_gray input2 i).
    by rewrite (pixel_gray_same_rgb _ _ _ _ Hs Hi).
  - unfold Processor.applyCannyEdgeFallback.
    rewrite (int_mul_pixels _ _ Hd). cbv zeta.
    assert (Hg : Processor.grayPlane input1 (w * h) (new_uint8 0 (w * h))
                 = Processor.grayPlane input2 (w * h) (new_uint8 0 (w * h))).
    { unfold Processor.grayPlane. apply for_loop_ext. intros i s Hi. cbv zeta.
      fold (pixel_gray input1 i). fold (pixel_gray input2 i).
      by rewrite (pixel_gray_same_rgb _ _ _ _ Hs Hi). }
    by rewrite Hg.
Qed.

Lemma fallback_paths_ignore_alpha_witness :
  Processor.convertToGrayscaleFallback [85; 3; 16; 255] 1 1 [0; 0; 0; 0]
  = Processor.convertToGrayscaleFallback [85; 3; 16; 9] 1 1 [0; 0; 0; 0]
  /\ Processor.applyCannyEdgeFallback (heap := stale_heap)
      [85; 3; 16; 255] 1 1 [0; 0; 0; 0]
     = Processor.applyCannyEdgeFallback (heap := stale_heap)
         [85; 3; 16; 9] 1 1 [0; 0; 0; 0].
Proof.
  apply fallback_paths_ignore_alpha.
  - unfold frame_dims, INT_MAX. lia.
  - intros i Hi. assert (i = 0) as -> by lia. repeat split; reflexivity.
Defined.

Lemma load_memcpy_rest (dst src : list Z) (n i : Z) :
  0 <= n <= Z.of_nat (length src) -> n <= i ->
  load (memcpy dst src n) i = load dst i.
Proof.
  intros Hs Hi. unfold memcpy, load.
  destruct (Z.ltb_spec i 0); [lia |].
  rewrite lookup_app_r by (rewrite length_take; lia).
  rewrite length_take, lookup_drop. do 2 f_equal. lia.
Qed.

(** X9. Without backend, a [processFrame] call that passes the checks
    keeps the length of the output buffer and every byte after the first
    [width * height * 4], in every mode. *)
Theorem processFrame_writes_frame_only `{cv : OpenCV} `{heap : Allocator}
    (p : OpenCVProcessor)
    (clock : Z * Z) (input output : list Z) (w h m : Z) :
  mInitialized p = true -> mOpenCVAvailable p = false ->
  frame_dims w h ->
  w * h * 4 <= Z.of_nat (length input) ->
  w * h * 4 <= Z.of_nat (length output) ->
  exists metrics p' out',
    Processor.processFrame p clock (Some input) w h m (Some output)
    = (metrics, p', Some out')
    /\ length out' = length output
    /\ forall j, w * h * 4 <= j -> load out' j = load output j.
Proof.
  intros Hi Hna Hd Hin Hout. pose proof Hd as (Hw & Hh & Hb).
  destruct (frame_dims_pixels _ _ Hd) as [Hpos _].
  destruct (Z.eq_dec m MODE_EDGE) as [-> | Hne].
  { rewrite (processFrame_fallback_dispatch p clock input output w h MODE_EDGE)
      by (done || by left).
    eexists _, _, _. split; [reflexivity |].
    change (MODE_EDGE =? MODE_EDGE) with true. cbv iota.
    destruct (applyCannyEdgeFallback_spec input output w h Hd Hout)
      as (out' & -> & Hl & _ & Hrest). done. }
  destruct (Z.eq_dec m MODE_GRAYSCALE) as [-> | Hng].
  { rewrite (processFrame_fallback_dispatch p clock input output w h
               MODE_GRAYSCALE) by (done || by right).
    eexists _, _, _. split; [reflexivity |].
    change (MODE_GRAYSCALE =? MODE_EDGE) with false. cbv iota.
    destruct (convertToGrayscaleFallback_spec input output w h Hd Hout)
      as (out' & -> & Hl & _ & Hrest). done. }
  unfold Processor.processFrame. rewrite Hi. simpl negb. cbv iota.
  destruct (Z.leb_spec w 0); [lia |]. destruct (Z.leb_spec h 0); [lia |].
  simpl orb. cbv iota.
  assert (Hraw :
    (if m =? MODE_RAW then Processor.copyRawFrame input w h output
     else if m =? MODE_EDGE then Processor.applyCannyEdge p input w h output
     else if m =? MODE_GRAYSCALE
          then Processor.convertToGrayscale p input w h output
     else Processor.copyRawFrame input w h output)
    = Processor.copyRawFrame input w h output).
  { destruct (Z.eqb_spec m MODE_RAW); [done |].
    destruct (Z.eqb_spec m MODE_EDGE); [done |].
    destruct (Z.eqb_spec m MODE_GRAYSCALE); done. }
  rewrite Hraw, (copyRawFrame_spec _ _ _ _ Hd).
  eexists _, _, _. split; [reflexivity |]. split.
  - apply length_memcpy; lia.
  - intros j Hj. apply load_memcpy_rest; lia.
Qed.

Lemma processFrame_writes_frame_only_witness :
  exists metrics p' out',
    Processor.processFrame (cv := no_opencv) (heap := stale_heap)
        ready_engine (0, 3)
      (Some gray_frame) 2 2 MODE_EDGE (Some (replicate 16 7 ++ [41; 42]))
    = (metrics, p', Some out')
    /\ length out' = length (replicate 16 7 ++ [41; 42])
    /\ forall j, 2 * 2 * 4 <= j ->
         load out' j = load (replicate 16 7 ++ [41; 42]) j.
Proof.
  apply (processFrame_writes_frame_only (cv := no_opencv)).
  - reflexivity.
  - reflexivity.
  - unfold frame_dims, INT_MAX. lia.
  - simpl. lia.
  - simpl. lia.
Defined.

(** ** The outcome of a call *)



Lemma without_backend_falls_back `{cv : OpenCV} `{heap : Allocator}
    p input w h output :
  Processor.applyCannyEdge (without_backend p) input w h output
  = Processor.applyCannyEdgeFallback input w h output
  /\ Processor.convertToGrayscale (without_backend p) input w h output
     = Processor.convertToGrayscaleFallback input w h output.
Proof. split; reflexivity. Qed.

(** X11. A backend that throws is not seen by the caller: when the
    backend is available but its Canny (in mode EdgeDetect) or its
    grayscale conversion (in mode Grayscale) throws on a frame,
    [processFrame] returns the metrics and the output bytes it returns
    with no backend at all, and updates the same counters. *)
Theorem backend_failure_falls_back `{cv : OpenCV} `{heap : Allocator}
    (p : OpenCVProcessor)
    (clock : Z * Z) (input output : list Z) (w h m : Z) :
  mOpenCVAvailable p = true ->
  (m = MODE_EDGE
   /\ cv_canny input w h (mCannyLowThreshold p) (mCannyHighThreshold p)
        (mCannyApertureSize p) = None)
  \/ (m = MODE_GRAYSCALE /\ cv_gray input w h = None) ->
  let r := Processor.processFrame p clock (Some input) w h m (Some output) in
  let r0 := Processor.processFrame (without_backend p) clock (Some input)
              w h m (Some output) in
  fst (fst r) = fst (fst r0) /\ snd r = snd r0
  /\ without_backend (snd (fst r)) = snd (fst r0).
Proof.
  intros Hav Hthrow r r0. subst r r0. unfold Processor.processFrame.
  change (mInitialized (without_backend p)) with (mInitialized p).
  destruct (mInitialized p); simpl negb; cbv iota; [| done].
  destruct ((w <=? 0) || (h <=? 0)); [done |].
  destruct (without_backend_falls_back p input w h output) as [-> ->].
  unfold Processor.applyCannyEdge, Processor.convertToGrayscale.
  rewrite Hav.
  destruct Hthrow as [[-> Hc] | [-> Hg]].
  - rewrite Hc. change (MODE_EDGE =? MODE_RAW) with false.
    change (MODE_EDGE =? MODE_EDGE) with true. cbv iota.
    destruct (Processor.applyCannyEdgeFallback input w h output). done.
  - rewrite Hg. change (MODE_GRAYSCALE =? MODE_RAW) with false.
    change (MODE_GRAYSCALE =? MODE_EDGE) with false.
    change (MODE_GRAYSCALE =? MODE_GRAYSCALE) with true. cbv iota.
    destruct (Processor.convertToGrayscaleFallback input w h output). done.
Qed.

Lemma backend_failure_falls_back_witness :
  let p := {| mInitialized := true; mOpenCVAvailable := true;
              mCannyLowThreshold := F64.of_Z 50;
              mCannyHighThreshold := F64.of_Z 150;
              mCannyApertureSize := 3; mTotalFramesProcessed := 0;
              mTotalProcessingTimeMs := 0; mLastProcessingTimeMs := 0 |} in
  let r := Processor.processFrame (cv := throwing_opencv) (heap := stale_heap)
      p (0, 3)
             (Some gray_frame) 2 2 MODE_GRAYSCALE (Some (replicate 16 0)) in
  let r0 := Processor.processFrame (cv := throwing_opencv) (heap := stale_heap)
              (without_backend p) (0, 3) (Some gray_frame) 2 2
              MODE_GRAYSCALE (Some (replicate 16 0)) in
  fst (fst r) = fst (fst r0) /\ snd r = snd r0
  /\ without_backend (snd (fst r)) = snd (fst r0).
Proof.
  intros p.
  apply (backend_failure_falls_back (cv := throwing_opencv) p (0, 3)
           gray_frame (replicate 16 0) 2 2 MODE_GRAYSCALE).
  - reflexivity.
  - right. split; reflexivity.
Defined.

(** ** The life cycle of the engine *)

(** X12. [release] only clears the initialized flag: it is idempotent,
    [getStatistics], the thresholds and the aperture are what they were,
    every [processFrame] call on the released engine is rejected without
    a write, and [initialize] afterwards succeeds, probes the backend
    again and finds the counters of before the release. *)
Theorem release_keeps_counters `{cv : OpenCV} `{heap : Allocator}
    (p : OpenCVProcessor)
    (clock : Z * Z) (input output : option (list Z)) (w h m : Z) :
  let q := Processor.release p in
  mInitialized q = false
  /\ Processor.release q = q
  /\ Processor.getStatistics q = Processor.getStatistics p
  /\ mCannyLowThreshold q = mCannyLowThreshold p
  /\ mCannyHighThreshold q = mCannyHighThreshold p
  /\ mCannyApertureSize q = mCannyApertureSize p
  /\ Processor.processFrame q clock input w h m output
     = ({| processingTimeMs := 0; width := w; height := h; mode := m;
           success := false |}, q, output)
  /\ fst (Processor.initialize q) = true
  /\ mInitialized (snd (Processor.initialize q)) = true
  /\ Processor.getStatistics (snd (Processor.initialize q))
     = {| statFrames := mTotalFramesProcessed p;
          statAvgTime := statAvgTime (Processor.getStatistics p);
          statLastTime := mLastProcessingTimeMs p;
          statOpenCV := cv_probe |}.
Proof.
  intros q.
  assert (Hq : mInitialized q = false).
  { subst q. unfold Processor.release. by destruct (mInitialized p) eqn:E. }
  split; [done |].
  split; [unfold Processor.release at 1; by rewrite Hq |].
  assert (Hc : mTotalFramesProcessed q = mTotalFramesProcessed p
               /\ mTotalProcessingTimeMs q = mTotalProcessingTimeMs p
               /\ mLastProcessingTimeMs q = mLastProcessingTimeMs p
               /\ mOpenCVAvailable q = mOpenCVAvailable p
               /\ mCannyLowThreshold q = mCannyLowThreshold p
               /\ mCannyHighThreshold q = mCannyHighThreshold p
               /\ mCannyApertureSize q = mCannyApertureSize p).
  { subst q. unfold Processor.release. by destruct (mInitialized p). }
  destruct Hc as (Hf & Ht & Hl & Ha & Hlo & Hhi & Hap).
  split. { unfold Processor.getStatistics. by rewrite Hf, Ht, Hl, Ha. }
  split; [done |]. split; [done |]. split; [done |].
  split. { apply processFrame_rejects. by left. }
  unfold Processor.initialize. rewrite Hq. simpl.
  split; [done |]. split; [done |].
  unfold Processor.getStatistics. simpl. by rewrite Hf, Ht, Hl.
Qed.

(** X13. At the boundary the engine does not survive a release:
    after [releaseOpenCV], as after [JNI_OnUnload], [processFrame] and
    [processFrameBitmap] return -1, [getStatistics] has nothing to
    report, [isOpenCVAvailable] is false and [setCannyThresholds] does
    nothing; [initOpenCV] then builds a new engine, whose statistics are
    zero and whose thresholds are the defaults 50 and 150 whatever the
    released engine held. *)
Theorem releaseOpenCV_discards_engine `{cv : OpenCV} `{heap : Allocator}
    (env : JNIEnv)
    (g : option OpenCVProcessor) (clock : Z * Z)
    (input output : option (list Z)) (w h m : Z) (lo hi : spec_float)
    (inputBitmap outputBitmap : option Bitmap) :
  let g0 := NativeLib.releaseOpenCV g in
  JNI_OnUnload g = g0
  /\ NativeLib.processFrame env g0 clock input w h m output = (-1, g0, output)
  /\ fst (fst (processFrameBitmap g0 clock inputBitmap m outputBitmap)) = -1
  /\ NativeLib.getStatistics g0 = None
  /\ NativeLib.isOpenCVAvailable g0 = false
  /\ NativeLib.setCannyThresholds g0 lo hi = g0
  /\ exists q,
       NativeLib.initOpenCV g0 = (true, Some q)
       /\ mInitialized q = true
       /\ Processor.getStatistics q
          = {| statFrames := 0; statAvgTime := F64.zero; statLastTime := 0;
               statOpenCV := cv_probe |}
       /\ mCannyLowThreshold q = F64.of_Z 50
       /\ mCannyHighThreshold q = F64.of_Z 150.
Proof.
  intros g0. subst g0. unfold NativeLib.releaseOpenCV, JNI_OnUnload.
  repeat (split; [reflexivity |]).
  eexists. split; [reflexivity |]. repeat split.
Qed.

Lemma processFrame_keeps_configuration `{cv : OpenCV} `{heap : Allocator}
    p clock input output
    w h m :
  same_configuration p
    (snd (fst (Processor.processFrame p clock input w h m output))).
Proof.
  destruct (processFrame_outcome p clock input output w h m)
    as [[_ ->] | [out' ->]]; by repeat split.
Qed.

Lemma initOpenCV_ready `{cv : OpenCV} (g : option OpenCVProcessor) :
  engine_ready g -> engine_ready (snd (NativeLib.initOpenCV g)).
Proof.
  intros Hg. destruct g as [p|]; simpl; [done |].
  intros q [= <-]. reflexivity.
Qed.

(** X14. Every operation of the boundary keeps the engine it holds
    initialized: if the global engine is absent or initialized, it is so
    after [initOpenCV], [processFrame], [processFrameBitmap],
    [setCannyThresholds], [releaseOpenCV] and [JNI_OnUnload]; and after
    [initOpenCV] there is an engine. *)
Theorem boundary_engine_ready `{cv : OpenCV} `{heap : Allocator} (env : JNIEnv)
    (g : option OpenCVProcessor) (clock : Z * Z)
    (input output : option (list Z)) (w h m : Z) (lo hi : spec_float)
    (inputBitmap outputBitmap : option Bitmap) :
  engine_ready g ->
  engine_ready (snd (NativeLib.initOpenCV g))
  /\ snd (NativeLib.initOpenCV g) <> None
  /\ engine_ready
       (snd (fst (NativeLib.processFrame env g clock input w h m output)))
  /\ engine_ready
       (snd (fst (processFrameBitmap g clock inputBitmap m outputBitmap)))
  /\ engine_ready (NativeLib.setCannyThresholds g lo hi)
  /\ engine_ready (NativeLib.releaseOpenCV g)
  /\ engine_ready (JNI_OnUnload g).
Proof.
  intros Hg.
  assert (Hcall : forall p ck i wd ht o,
    g = Some p ->
    mInitialized (snd (fst (Processor.processFrame p ck i wd ht m o)))
    = true).
  { intros p ck i wd ht o Hp.
    destruct (processFrame_keeps_configuration p ck i o wd ht m) as [-> _].
    by apply Hg. }
  split; [by apply initOpenCV_ready |].
  split. { destruct g; simpl; done. }
  split.
  { unfold NativeLib.processFrame. destruct g as [p|]; [| done].
    destruct input as [i|]; [| done]. destruct output as [o|]; [| done].
    destruct (_ <? _); [done |]. destruct (_ <? _); [done |].
    destruct (_ || _); [done |].
    pose proof (Hcall p clock (Some i) w h (Some o) eq_refl) as Hc.
    destruct (Processor.processFrame p clock (Some i) w h m (Some o))
      as [[metrics p'] out']. simpl in Hc.
    destruct (negb (success metrics)); simpl; by intros q [= <-]. }
  split.
  { unfold processFrameBitmap. destruct g as [p|]; [| done].
    destruct inputBitmap as [inB|]; [| done].
    destruct outputBitmap as [outB|]; [| done].
    destruct (bitmapInfo inB) as [ii|]; [| done].
    destruct (bitmapInfo outB) as [oi|]; [| done].
    destruct (negb _); [done |]. destruct (negb _); [done |].
    destruct (bitmapPixels inB) as [ip|]; [| done].
    destruct (bitmapPixels outB) as [op|]; [| done].
    pose proof (Hcall p clock (Some ip) (wrap_int (bmWidth ii))
                  (wrap_int (bmHeight ii)) (Some op) eq_refl) as Hc.
    destruct (Processor.processFrame p clock (Some ip) _ _ m (Some op))
      as [[metrics p'] out']. simpl in Hc.
    destruct (negb (success metrics)); simpl; by intros q [= <-]. }
  split.
  { destruct g as [p|]; simpl; [| done]. intros q [= <-]. simpl.
    by apply Hg. }
  split; done.
Qed.

Lemma boundary_engine_ready_witness :
  engine_ready
    (snd (NativeLib.initOpenCV (cv := no_opencv) (Some ready_engine)))
  /\ snd (NativeLib.initOpenCV (cv := no_opencv) (Some ready_engine)) <> None
  /\ engine_ready
       (snd (fst (NativeLib.processFrame (cv := no_opencv) (heap := stale_heap)
           pinning_env
                    (Some ready_engine) (0, 1) (Some gray_frame) 2 2
                    MODE_RAW (Some gray_frame))))
  /\ engine_ready
       (snd (fst (processFrameBitmap (cv := no_opencv) (heap := stale_heap)
           (Some ready_engine)
                    (0, 1) (Some (rgba_bitmap gray_frame)) MODE_RAW
                    (Some (rgba_bitmap gray_frame)))))
  /\ engine_ready
       (NativeLib.setCannyThresholds (Some ready_engine) (F64.of_Z 10)
          (F64.of_Z 20))
  /\ engine_ready (NativeLib.releaseOpenCV (Some ready_engine))
  /\ engine_ready (JNI_OnUnload (Some ready_engine)).
Proof.
  apply (boundary_engine_ready (cv := no_opencv) pinning_env
           (Some ready_engine) (0, 1) (Some gray_frame) (Some gray_frame)
           2 2 MODE_RAW (F64.of_Z 10) (F64.of_Z 20)
           (Some (rgba_bitmap gray_frame)) (Some (rgba_bitmap gray_frame))).
  intros p [= <-]. reflexivity.
Defined.

(** ** The boundary on a valid call *)

Lemma wrap_i64_id x : - 2^63 <= x < 2^63 -> wrap_i64 x = x.
Proof.
  unfold wrap_i64. intros H. rewrite Z.mod_small; lia.
Qed.

Lemma processFrame_accepted `{cv : OpenCV} `{heap : Allocator}
    p clock input output w h m :
  mInitialized p = true -> 0 < w -> 0 < h ->
  exists out',
    Processor.processFrame p clock (Some input) w h m (Some output)
    = ({| processingTimeMs := wrap_i64 (snd clock - fst clock);
          width := w; height := h; mode := m; success := true |},
       Processor.updateStatistics p (wrap_i64 (snd clock - fst clock)),
       Some out').
Proof.
  intros Hi Hw Hh.
  destruct (processFrame_outcome p clock (Some input) (Some output) w h m)
    as [[Hv _] | H]; [| done].
  destruct Hv as [Hv | [Hv | [Hv | [Hv | Hv]]]]; first [congruence | lia].
Qed.

(** X15. The boundary's [processFrame] on a valid call: with an
    initialized engine, a frame whose byte count fits an [int], arrays of
    at least [width * height * 4] bytes that can be pinned, and clock
    readings that do not go backwards, the [jlong] returned is the
    elapsed time, never negative, so never the error code -1; the engine
    has recorded that time once and the output array holds what the
    engine's [processFrame] wrote, in every mode and with any backend. *)
Theorem boundary_processFrame_accepts `{cv : OpenCV} `{heap : Allocator}
    (env : JNIEnv)
    (p : OpenCVProcessor) (clock : Z * Z) (input output : list Z)
    (w h m : Z) :
  mInitialized p = true ->
  frame_dims w h ->
  w * h * 4 <= Z.of_nat (length input) ->
  w * h * 4 <= Z.of_nat (length output) ->
  pins env input = true -> pins env output = true ->
  0 <= snd clock - fst clock < 2^63 ->
  let r := NativeLib.processFrame env (Some p) clock (Some input) w h m
             (Some output) in
  fst (fst r) = snd clock - fst clock
  /\ 0 <= fst (fst r)
  /\ snd (fst r)
     = Some (Processor.updateStatistics p (snd clock - fst clock))
  /\ snd r
     = snd (Processor.processFrame p clock (Some input) w h m (Some output))
  /\ snd r <> None.
Proof.
  intros Hi Hd Hin Hout Hpi Hpo Hclock r. subst r.
  pose proof Hd as (Hw & Hh & _).
  unfold NativeLib.processFrame. rewrite (int_mul_bytes _ _ Hd).
  destruct (Z.ltb_spec (Z.of_nat (length input)) (w * h * 4)); [lia |].
  destruct (Z.ltb_spec (Z.of_nat (length output)) (w * h * 4)); [lia |].
  rewrite Hpi, Hpo. simpl orb. cbv iota.
  destruct (processFrame_accepted p clock input output w h m Hi Hw Hh)
    as [out' ->].
  rewrite wrap_i64_id by lia. simpl. repeat split; (done || lia).
Qed.

Lemma boundary_processFrame_accepts_witness :
  let r := NativeLib.processFrame (cv := no_opencv) (heap := stale_heap)
      pinning_env
             (Some ready_engine) (5, 12) (Some gray_frame) 2 2
             MODE_GRAYSCALE (Some (replicate 16 0)) in
  fst (fst r) = snd (5, 12) - fst (5, 12)
  /\ 0 <= fst (fst r)
  /\ snd (fst r)
     = Some (Processor.updateStatistics ready_engine
               (snd (5, 12) - fst (5, 12)))
  /\ snd r
     = snd (Processor.processFrame (cv := no_opencv) (heap := stale_heap)
         ready_engine (5, 12)
              (Some gray_frame) 2 2 MODE_GRAYSCALE (Some (replicate 16 0)))
  /\ snd r <> None.
Proof.
  apply (boundary_processFrame_accepts (cv := no_opencv) pinning_env
           ready_engine (5, 12) gray_frame (replicate 16 0) 2 2
           MODE_GRAYSCALE).
  - reflexivity.
  - unfold frame_dims, INT_MAX. lia.
  - simpl. lia.
  - simpl. lia.
  - reflexivity.
  - reflexivity.
  - simpl. lia.
Defined.

(** X16. An array that cannot be pinned stops the call before the engine
    is reached: when [GetByteArrayElements] gives [nullptr] for the input
    or for the output array, the boundary's [processFrame] returns -1 and
    leaves the engine, its counters included, and the output array as
    they were, whatever the engine, the dimensions and the mode. *)
Theorem boundary_pin_failure `{cv : OpenCV} `{heap : Allocator} (env : JNIEnv)
    (g : option OpenCVProcessor) (clock : Z * Z) (input output : list Z)
    (w h m : Z) :
  pins env input = false \/ pins env output = false ->
  NativeLib.processFrame env g clock (Some input) w h m (Some output)
  = (-1, g, Some output).
Proof.
  intros Hp. unfold NativeLib.processFrame.
  destruct g as [p|]; [| done].
  destruct (_ <? _); [done |]. destruct (_ <? _); [done |].
  destruct Hp as [-> | ->]; [done |].
  by destruct (pins env input).
Qed.

Lemma boundary_pin_failure_witness :
  NativeLib.processFrame (cv := no_opencv) (heap := stale_heap)
      failing_env (Some ready_engine)
    (0, 1) (Some gray_frame) 2 2 MODE_RAW (Some (replicate 16 0))
  = (-1, Some ready_engine, Some (replicate 16 0)).
Proof.
  apply (boundary_pin_failure (cv := no_opencv) failing_env
           (Some ready_engine) (0, 1) gray_frame (replicate 16 0) 2 2
           MODE_RAW).
  left. reflexivity.
Defined.

(** ** The bitmap entry point *)

(** X17. [processFrameBitmap] returns -1, leaving the engine and the
    pixels of the output bitmap as they were, when there is no engine, a
    bitmap reference is null, [AndroidBitmap_getInfo] fails for either
    bitmap, either format is not RGBA_8888, or
    [AndroidBitmap_lockPixels] fails for either bitmap. *)
Theorem processFrameBitmap_rejects `{cv : OpenCV} `{heap : Allocator}
    (g : option OpenCVProcessor) (clock : Z * Z)
    (inputBitmap outputBitmap : option Bitmap) (m : Z) :
  bitmap_rejected g inputBitmap outputBitmap ->
  processFrameBitmap g clock inputBitmap m outputBitmap
  = (-1, g, match outputBitmap with
            | Some b => bitmapPixels b
            | None => None
            end).
Proof.
  intros Hr. unfold processFrameBitmap.
  destruct g as [p|]; [| done].
  destruct inputBitmap as [inB|]; [| done].
  destruct outputBitmap as [outB|]; [| done].
  destruct (bitmapInfo inB) as [ii|] eqn:Eii; [| done].
  destruct (bitmapInfo outB) as [oi|] eqn:Eoi; [| done].
  destruct (Z.eqb_spec (bmFormat ii) ANDROID_BITMAP_FORMAT_RGBA_8888)
    as [Efi | Efi]; simpl negb; cbv iota; [| done].
  destruct (Z.eqb_spec (bmFormat oi) ANDROID_BITMAP_FORMAT_RGBA_8888)
    as [Efo | Efo]; simpl negb; cbv iota; [| done].
  destruct (bitmapPixels inB) as [ip|] eqn:Eip; [| done].
  destruct (bitmapPixels outB) as [op|] eqn:Eop; [| done].
  exfalso.
  destruct Hr as [H | [H | [H | [H | [H | [H | [H | [H | H]]]]]]]];
    try discriminate H.
  - destruct H as (b & [= <-] & H). congruence.
  - destruct H as (b & [= <-] & H). congruence.
  - destruct H as (b & i & [= <-] & H & Hf). congruence.
  - destruct H as (b & i & [= <-] & H & Hf). congruence.
  - destruct H as (b & [= <-] & H). congruence.
  - destruct H as (b & [= <-] & H). congruence.
Qed.

Lemma processFrameBitmap_rejects_witness :
  processFrameBitmap (cv := no_opencv) (heap := stale_heap)
      (Some ready_engine) (0, 1)
    (Some (rgba_bitmap gray_frame)) MODE_RAW
    (Some (rgb565_bitmap (replicate 8 0)))
  = (-1, Some ready_engine,
     match Some (rgb565_bitmap (replicate 8 0)) with
     | Some b => bitmapPixels b
     | None => None
     end).
Proof.
  apply (processFrameBitmap_rejects (cv := no_opencv) (Some ready_engine)
           (0, 1) (Some (rgba_bitmap gray_frame))
           (Some (rgb565_bitmap (replicate 8 0))) MODE_RAW).
  right. right. right. right. right. right. left.
  exists (rgb565_bitmap (replicate 8 0)), {| bmWidth := 2; bmHeight := 2;
                                             bmStride := 4; bmFormat := 4 |}.
  split; [reflexivity |]. split; [reflexivity |].
  unfold ANDROID_BITMAP_FORMAT_RGBA_8888. simpl. lia.
Defined.

(** X18. [processFrameBitmap] on two lockable RGBA_8888 bitmaps is the
    engine's [processFrame] on their pixels with the width and height of
    the INPUT bitmap: neither stride and no dimension of the output
    bitmap enters the result.  With an initialized engine and positive
    input dimensions (as [int]) it returns the elapsed time the engine
    measured and the engine has recorded it once. *)
Theorem processFrameBitmap_accepts `{cv : OpenCV} `{heap : Allocator}
    (p : OpenCVProcessor)
    (clock : Z * Z) (inB outB : Bitmap) (ii oi : AndroidBitmapInfo)
    (ip op : list Z) (m : Z) :
  mInitialized p = true ->
  bitmapInfo inB = Some ii -> bitmapInfo outB = Some oi ->
  bmFormat ii = ANDROID_BITMAP_FORMAT_RGBA_8888 ->
  bmFormat oi = ANDROID_BITMAP_FORMAT_RGBA_8888 ->
  bitmapPixels inB = Some ip -> bitmapPixels outB = Some op ->
  0 < wrap_int (bmWidth ii) -> 0 < wrap_int (bmHeight ii) ->
  let r := processFrameBitmap (Some p) clock (Some inB) m (Some outB) in
  let e := Processor.processFrame p clock (Some ip) (wrap_int (bmWidth ii))
             (wrap_int (bmHeight ii)) m (Some op) in
  fst (fst r) = wrap_i64 (snd clock - fst clock)
  /\ fst (fst r) = processingTimeMs (fst (fst e))
  /\ snd (fst r) = Some (snd (fst e))
  /\ snd r = snd e.
Proof.
  intros Hi Eii Eoi Efi Efo Eip Eop Hw Hh r e. subst r e.
  unfold processFrameBitmap. rewrite Eii, Eoi, Efi, Efo, Eip, Eop.
  rewrite Z.eqb_refl. simpl negb. cbv iota.
  destruct (processFrame_accepted p clock ip op (wrap_int (bmWidth ii))
              (wrap_int (bmHeight ii)) m Hi Hw Hh) as [out' ->].
  simpl. done.
Qed.

Lemma processFrameBitmap_accepts_witness :
  let r := processFrameBitmap (cv := no_opencv) (heap := stale_heap)
      (Some ready_engine) (2, 9)
             (Some (rgba_bitmap gray_frame)) MODE_RAW
             (Some (rgba_bitmap (replicate 16 0))) in
  let e := Processor.processFrame (cv := no_opencv) (heap := stale_heap)
      ready_engine (2, 9)
             (Some gray_frame) (wrap_int 2) (wrap_int 2) MODE_RAW
             (Some (replicate 16 0)) in
  fst (fst r) = wrap_i64 (snd (2, 9) - fst (2, 9))
  /\ fst (fst r) = processingTimeMs (fst (fst e))
  /\ snd (fst r) = Some (snd (fst e))
  /\ snd r = snd e.
Proof.
  apply (processFrameBitmap_accepts (cv := no_opencv) ready_engine (2, 9)
           (rgba_bitmap gray_frame) (rgba_bitmap (replicate 16 0))
           {| bmWidth := 2; bmHeight := 2; bmStride := 8;
              bmFormat := ANDROID_BITMAP_FORMAT_RGBA_8888 |}
           {| bmWidth := 2; bmHeight := 2; bmStride := 8;
              bmFormat := ANDROID_BITMAP_FORMAT_RGBA_8888 |}
           gray_frame (replicate 16 0) MODE_RAW);
    first [reflexivity | vm_compute; reflexivity].
Defined.

(** ** The planar-to-packed conversion, as a whole *)

Lemma yuv420ToRgba_spec (yData uData vData outData : list Z)
    (w h ys uvs uvp : Z) :
  0 <= w -> 0 <= h ->
  planes_cover yData uData vData outData w h ys uvs uvp ->
  exists out',
    NativeLib.yuv420ToRgba (Some yData) (Some uData) (Some vData) w h ys uvs
      uvp (Some outData) = Some out'
    /\ length out' = length outData
    /\ (forall x y, 0 <= x < w -> 0 <= y < h ->
          let Y := load yData (y * ys + x) in
          let U := load uData ((y / 2) * uvs + (x / 2) * uvp) in
          let V := load vData ((y / 2) * uvs + (x / 2) * uvp) in
          pixel_is out' (y * w + x) (yuv_red Y U V) (yuv_green Y U V)
            (yuv_blue Y U V) 255)
    /\ (forall j, w * h * 4 <= j -> load out' j = load outData j).
Proof.
  intros Hw Hh (HY & HU & HV & Hlen & Hcov).
  unfold NativeLib.yuv420ToRgba. eexists. split; [reflexivity |].
  set (R := fun x y => yuv_red (load yData (y * ys + x))
                         (load uData ((y / 2) * uvs + (x / 2) * uvp))
                         (load vData ((y / 2) * uvs + (x / 2) * uvp))).
  set (G := fun x y => yuv_green (load yData (y * ys + x))
                         (load uData ((y / 2) * uvs + (x / 2) * uvp))
                         (load vData ((y / 2) * uvs + (x / 2) * uvp))).
  set (B := fun x y => yuv_blue (load yData (y * ys + x))
                         (load uData ((y / 2) * uvs + (x / 2) * uvp))
                         (load vData ((y / 2) * uvs + (x / 2) * uvp))).
  assert (Hrow : forall y s, 0 <= y < h ->
    for_loop 0 w (fun x out =>
      NativeLib.yuvPixel yData uData vData w ys uvs uvp x y out) s
    = for_loop 0 w (fun x o =>
        store (store (store (store o ((y * w + x) * 4) (R x y))
                        ((y * w + x) * 4 + 1) (G x y))
                 ((y * w + x) * 4 + 2) (B x y))
          ((y * w + x) * 4 + 3) 255) s).
  { intros y s Hy. apply for_loop_ext. intros x t Hx.
    unfold NativeLib.yuvPixel.
    rewrite (Z.quot_div_nonneg y 2), (Z.quot_div_nonneg x 2) by lia.
    rewrite !land_255_as_jbyte by (apply load_byte; done).
    rewrite !to_u8_id by (first [apply clamp255_byte | unfold is_byte; lia]).
    rewrite !clamp255_max_min. reflexivity. }
  assert (Hinv :
    let r := for_loop 0 h (fun y out =>
               for_loop 0 w (fun x out =>
                 NativeLib.yuvPixel yData uData vData w ys uvs uvp x y out) out)
               outData in
    length r = length outData
    /\ (forall x y, 0 <= x < w -> 0 <= y < h ->
          pixel_is r (y * w + x) (R x y) (G x y) (B x y) 255)
    /\ (forall j, h * w * 4 <= j -> load r j = load outData j)).
  { apply (for_loop_invariant (fun k s =>
      length s = length outData
      /\ (forall x y, 0 <= x < w -> 0 <= y < k ->
            pixel_is s (y * w + x) (R x y) (G x y) (B x y) 255)
      /\ (forall j, k * w * 4 <= j -> load s j = load outData j)));
      [done | | ].
    - split; [done |]. split; [intros; lia | done].
    - intros y s Hy (Hl & Hdone & Hrest).
      rewrite Hrow by done.
      assert (Hfit : (y * w + w) * 4 <= Z.of_nat (length s)) by nia.
      destruct (pixel_loop_spec (fun x => R x y) (fun x => G x y)
                  (fun x => B x y) (fun _ => 255) (y * w) w s Hw
                  ltac:(nia) Hfit) as (Hl' & Hnew & Hold).
      split; [congruence |]. split.
      + intros x' y' Hx' Hy'. destruct (Z.eq_dec y' y) as [-> | Hne].
        * apply Hnew. done.
        * unfold pixel_is. rewrite !Hold by nia. apply Hdone; lia.
      + intros j Hj. rewrite Hold by nia. apply Hrest. nia. }
  destruct Hinv as (Hl & Hpix & Hrest).
  split; [done |]. split; [intros x y Hx Hy; by apply Hpix |].
  intros j Hj. apply Hrest. lia.
Qed.

Lemma yuv_channels_neutral Y :
  yuv_red Y 128 128 = yuv_gray Y /\ yuv_green Y 128 128 = yuv_gray Y
  /\ yuv_blue Y 128 128 = yuv_gray Y.
Proof.
  unfold yuv_red, yuv_green, yuv_blue, yuv_gray.
  repeat split; do 2 f_equal; lia.
Qed.

(** X19. [yuv420ToRgba] writes the frame and nothing else: the output
    keeps its length, every byte after the first [width * height * 4] is
    untouched, and inside the frame each pixel has three colour bytes in
    [0,255] and alpha 255. *)
Theorem yuv420ToRgba_writes_frame_only
    (yData uData vData outData : list Z) (w h ys uvs uvp : Z) :
  0 <= w -> 0 <= h ->
  planes_cover yData uData vData outData w h ys uvs uvp ->
  exists out',
    NativeLib.yuv420ToRgba (Some yData) (Some uData) (Some vData) w h ys uvs
      uvp (Some outData) = Some out'
    /\ length out' = length outData
    /\ (forall j, w * h * 4 <= j -> load out' j = load outData j)
    /\ (forall k, 0 <= k < w * h ->
          is_byte (load out' (k * 4)) /\ is_byte (load out' (k * 4 + 1))
          /\ is_byte (load out' (k * 4 + 2)) /\ load out' (k * 4 + 3) = 255).
Proof.
  intros Hw Hh Hc.
  destruct (yuv420ToRgba_spec yData uData vData outData w h ys uvs uvp
              Hw Hh Hc) as (out' & E & Hl & Hpix & Hrest).
  exists out'. split; [done |]. split; [done |]. split; [done |].
  intros k Hk.
  assert (Hwpos : 0 < w) by nia.
  assert (Hxy : k = (k / w) * w + k mod w).
  { pose proof (Z.div_mod k w ltac:(lia)). lia. }
  pose proof (Z.mod_pos_bound k w Hwpos) as Hx.
  assert (Hy : 0 <= k / w < h).
  { split; [apply Z.div_pos; lia |].
    apply Z.div_lt_upper_bound; [lia | nia]. }
  destruct (Hpix (k mod w) (k / w) Hx Hy) as (Er & Eg & Eb & Ea).
  rewrite <- Hxy in Er, Eg, Eb, Ea.
  rewrite Er, Eg, Eb, Ea.
  repeat split; try apply clamp_0_255_byte.
Qed.

Lemma yuv420ToRgba_writes_frame_only_witness :
  exists out',
    NativeLib.yuv420ToRgba (Some [235; 16; 81; 145]) (Some [128])
      (Some [128]) 2 2 2 1 1 (Some (replicate 16 0 ++ [9])) = Some out'
    /\ length out' = length (replicate 16 0 ++ [9])
    /\ (forall j, 2 * 2 * 4 <= j ->
          load out' j = load (replicate 16 0 ++ [9]) j)
    /\ (forall k, 0 <= k < 2 * 2 ->
          is_byte (load out' (k * 4)) /\ is_byte (load out' (k * 4 + 1))
          /\ is_byte (load out' (k * 4 + 2)) /\ load out' (k * 4 + 3) = 255).
Proof.
  apply (yuv420ToRgba_writes_frame_only [235; 16; 81; 145] [128] [128]
           (replicate 16 0 ++ [9]) 2 2 2 1 1); [lia | lia |].
  unfold planes_cover.
  split; [repeat constructor; unfold is_byte; lia |].
  split; [repeat constructor; unfold is_byte; lia |].
  split; [repeat constructor; unfold is_byte; lia |].
  split; [simpl; lia |].
  intros x y Hx Hy. simpl length.
  assert (x = 0 \/ x = 1) as [-> | ->] by lia;
    assert (y = 0 \/ y = 1) as [-> | ->] by lia; simpl;
    Z.to_euclidean_division_equations; lia.
Defined.

(** X20. When [GetByteArrayElements] gives [nullptr] for one of the four
    arrays, [yuv420ToRgba] converts nothing: the output array is as it
    was. *)
Theorem yuv420ToRgba_null_plane
    (yPlane uPlane vPlane outputArray : option (list Z))
    (w h ys uvs uvp : Z) :
  yPlane = None \/ uPlane = None \/ vPlane = None \/ outputArray = None ->
  NativeLib.yuv420ToRgba yPlane uPlane vPlane w h ys uvs uvp outputArray
  = outputArray.
Proof.
  intros H. unfold NativeLib.yuv420ToRgba.
  destruct yPlane, uPlane, vPlane, outputArray; try done.
  destruct H as [H | [H | [H | H]]]; discriminate H.
Qed.

Lemma yuv420ToRgba_null_plane_witness :
  NativeLib.yuv420ToRgba (Some [235]) None (Some [128]) 1 1 1 1 1
    (Some [1; 2; 3; 4]) = Some [1; 2; 3; 4].
Proof.
  apply (yuv420ToRgba_null_plane (Some [235]) None (Some [128])
           (Some [1; 2; 3; 4]) 1 1 1 1 1).
  right. left. reflexivity.
Defined.

Lemma yuv_gray_range Y :
  (Y <= 16 -> yuv_gray Y = 0) /\ (235 <= Y -> yuv_gray Y = 255)
  /\ (16 <= Y <= 235 -> yuv_gray Y = (298 * (Y - 16) + 128) / 256).
Proof.
  unfold yuv_gray, clamp_0_255. rewrite Z.shiftr_div_pow2 by lia.
  change (2 ^ 8) with 256.
  repeat split; intros H; Z.to_euclidean_division_equations; lia.
Qed.

(** X21. Neutral chroma gives gray: a pixel whose [U] and [V] samples are
    both 128 gets the same value in its three colour channels, the luma
    rescaled from the video range, [(298 (Y - 16) + 128) / 256] for [Y]
    from 16 to 235; every [Y] of 16 or less gives black and every [Y] of
    235 or more gives white. *)
Theorem yuv420ToRgba_neutral_chroma
    (yData uData vData outData : list Z) (w h ys uvs uvp x y : Z) :
  0 <= w -> 0 <= h ->
  planes_cover yData uData vData outData w h ys uvs uvp ->
  0 <= x < w -> 0 <= y < h ->
  load uData ((y / 2) * uvs + (x / 2) * uvp) = 128 ->
  load vData ((y / 2) * uvs + (x / 2) * uvp) = 128 ->
  exists out',
    NativeLib.yuv420ToRgba (Some yData) (Some uData) (Some vData) w h ys uvs
      uvp (Some outData) = Some out'
    /\ let Y := load yData (y * ys + x) in
       pixel_is out' (y * w + x) (yuv_gray Y) (yuv_gray Y) (yuv_gray Y) 255
       /\ (Y <= 16 -> pixel_is out' (y * w + x) 0 0 0 255)
       /\ (235 <= Y -> pixel_is out' (y * w + x) 255 255 255 255)
       /\ (16 <= Y <= 235 -> yuv_gray Y = (298 * (Y - 16) + 128) / 256).
Proof.
  intros Hw Hh Hc Hx Hy HU HV.
  destruct (yuv420ToRgba_spec yData uData vData outData w h ys uvs uvp
              Hw Hh Hc) as (out' & E & _ & Hpix & _).
  exists out'. split; [done |]. intros Y.
  pose proof (Hpix x y Hx Hy) as Hp. cbv zeta in Hp.
  rewrite HU, HV in Hp. fold Y in Hp.
  destruct (yuv_channels_neutral Y) as (Er & Eg & Eb).
  rewrite Er, Eg, Eb in Hp.
  destruct (yuv_gray_range Y) as (Hlo & Hhi & Hmid).
  split; [done |]. split; [| split; [| done]].
  - intros HY. rewrite (Hlo HY) in Hp. done.
  - intros HY. rewrite (Hhi HY) in Hp. done.
Qed.

Lemma yuv420ToRgba_neutral_chroma_witness :
  exists out',
    NativeLib.yuv420ToRgba (Some [235; 16; 81; 145]) (Some [128])
      (Some [128]) 2 2 2 1 1 (Some (replicate 16 0)) = Some out'
    /\ let Y := load [235; 16; 81; 145] (1 * 2 + 0) in
       pixel_is out' (1 * 2 + 0) (yuv_gray Y) (yuv_gray Y) (yuv_gray Y) 255
       /\ (Y <= 16 -> pixel_is out' (1 * 2 + 0) 0 0 0 255)
       /\ (235 <= Y -> pixel_is out' (1 * 2 + 0) 255 255 255 255)
       /\ (16 <= Y <= 235 -> yuv_gray Y = (298 * (Y - 16) + 128) / 256).
Proof.
  apply (yuv420ToRgba_neutral_chroma [235; 16; 81; 145] [128] [128]
           (replicate 16 0) 2 2 2 1 1 0 1); try lia; try reflexivity.
  unfold planes_cover.
  split; [repeat constructor; unfold is_byte; lia |].
  split; [repeat constructor; unfold is_byte; lia |].
  split; [repeat constructor; unfold is_byte; lia |].
  split; [simpl; lia |].
  intros x y Hx Hy. simpl length.
  assert (x = 0 \/ x = 1) as [-> | ->] by lia;
    assert (y = 0 \/ y = 1) as [-> | ->] by lia; simpl;
    Z.to_euclidean_division_equations; lia.
Defined.

(** X22. The chroma is shared by each 2 x 2 block: two pixels of the same
    block ([x / 2] and [y / 2] equal) with the same luma sample get the
    same four output bytes. *)
Theorem yuv420ToRgba_block_chroma
    (yData uData vData outData : list Z) (w h ys uvs uvp x y x' y' : Z) :
  0 <= w -> 0 <= h ->
  planes_cover yData uData vData outData w h ys uvs uvp ->
  0 <= x < w -> 0 <= y < h -> 0 <= x' < w -> 0 <= y' < h ->
  x / 2 = x' / 2 -> y / 2 = y' / 2 ->
  load yData (y * ys + x) = load yData (y' * ys + x') ->
  exists out',
    NativeLib.yuv420ToRgba (Some yData) (Some uData) (Some vData) w h ys uvs
      uvp (Some outData) = Some out'
    /\ forall c, 0 <= c < 4 ->
         load out' ((y * w + x) * 4 + c) = load out' ((y' * w + x') * 4 + c).
Proof.
  intros Hw Hh Hc Hx Hy Hx' Hy' Ex Ey EY.
  destruct (yuv420ToRgba_spec yData uData vData outData w h ys uvs uvp
              Hw Hh Hc) as (out' & E & _ & Hpix & _).
  exists out'. split; [done |]. intros c Hcr.
  destruct (Hpix x y Hx Hy) as (Er & Eg & Eb & Ea).
  destruct (Hpix x' y' Hx' Hy') as (Er' & Eg' & Eb' & Ea').
  rewrite <- Ex, <- Ey, <- EY in Er', Eg', Eb'.
  assert (c = 0 \/ c = 1 \/ c = 2 \/ c = 3) as [-> | [-> | [-> | ->]]] by lia;
    rewrite ?Z.add_0_r; congruence.
Qed.

Lemma yuv420ToRgba_block_chroma_witness :
  exists out',
    NativeLib.yuv420ToRgba (Some [81; 16; 81; 145]) (Some [90])
      (Some [240]) 2 2 2 1 1 (Some (replicate 16 0)) = Some out'
    /\ forall c, 0 <= c < 4 ->
         load out' ((0 * 2 + 0) * 4 + c) = load out' ((1 * 2 + 0) * 4 + c).
Proof.
  apply (yuv420ToRgba_block_chroma [81; 16; 81; 145] [90] [240]
           (replicate 16 0) 2 2 2 1 1 0 0 0 1); try lia; try reflexivity.
  unfold planes_cover.
  split; [repeat constructor; unfold is_byte; lia |].
  split; [repeat constructor; unfold is_byte; lia |].
  split; [repeat constructor; unfold is_byte; lia |].
  split; [simpl; lia |].
  intros x y Hx Hy. simpl length.
  assert (x = 0 \/ x = 1) as [-> | ->] by lia;
    assert (y = 0 \/ y = 1) as [-> | ->] by lia; simpl;
    Z.to_euclidean_division_equations; lia.
Defined.

(** ** Grayscale between the channels *)

(** X24. The fallback gray value of a pixel lies between its channels:
    for an input of bytes, the value written for pixel [i] is at most the
    largest of its red, green and blue bytes and at least the smallest of
    them minus one. *)
Theorem grayscale_fallback_between_channels (input output : list Z)
    (w h i : Z) :
  frame_dims w h ->
  w * h * 4 <= Z.of_nat (length output) ->
  Forall is_byte input ->
  0 <= i < w * h ->
  let out' := snd (Processor.convertToGrayscaleFallback input w h output) in
  let r := load input (i * 4) in
  let g := load input (i * 4 + 1) in
  let b := load input (i * 4 + 2) in
  exists v,
    pixel_is out' i v v v 255
    /\ Z.min r (Z.min g b) - 1 <= v <= Z.max r (Z.max g b).
Proof.
  intros Hd Hlen Hbytes Hi out' r g b. subst out'.
  destruct (convertToGrayscaleFallback_spec input output w h Hd Hlen)
    as (out' & -> & _ & Hpix & _). simpl snd.
  exists (pixel_gray input i). split; [by apply Hpix |].
  unfold pixel_gray. fold r g b.
  assert (Hr : 0 <= r <= 255) by (apply load_byte; done).
  assert (Hg : 0 <= g <= 255) by (apply load_byte; done).
  assert (Hb : 0 <= b <= 255) by (apply load_byte; done).
  destruct (rgbaToGray_floor r g b Hr Hg Hb) as [Hfl _].
  unfold gray_floor in Hfl.
  assert (Hlo : Z.min r (Z.min g b) <= (299 * r + 587 * g + 114 * b) / 1000).
  { apply Z.div_le_lower_bound; lia. }
  assert (Hhi : (299 * r + 587 * g + 114 * b) / 1000 <= Z.max r (Z.max g b)).
  { apply Z.div_le_upper_bound; lia. }
  lia.
Qed.

Lemma grayscale_fallback_between_channels_witness :
  let out' := snd (Processor.convertToGrayscaleFallback gray_frame 2 2
                     (replicate 16 0)) in
  let r := load gray_frame (1 * 4) in
  let g := load gray_frame (1 * 4 + 1) in
  let b := load gray_frame (1 * 4 + 2) in
  exists v,
    pixel_is out' 1 v v v 255
    /\ Z.min r (Z.min g b) - 1 <= v <= Z.max r (Z.max g b).
Proof.
  apply (grayscale_fallback_between_channels gray_frame (replicate 16 0)
           2 2 1).
  - unfold frame_dims, INT_MAX. lia.
  - simpl. lia.
  - unfold gray_frame. simpl. repeat constructor; unfold is_byte; lia.
  - lia.
Defined.

(** ** Sequences of calls *)

Lemma same_configuration_trans p q r :
  same_configuration p q -> same_configuration q r -> same_configuration p r.
Proof.
  unfold same_configuration.
  intros (? & ? & ? & ? & ?) (? & ? & ? & ? & ?). repeat split; congruence.
Qed.

Lemma runCalls_configuration `{cv : OpenCV} `{heap : Allocator}
    (calls : list FrameCall) :
  forall p, same_configuration p (runCalls p calls)
            /\ (length (recordedTimes p calls) <= length calls)%nat.
Proof.
  induction calls as [|c rest IH]; intros p.
  - split; [by repeat split | done].
  - unfold runCalls in *. simpl. unfold callFrame in *.
    pose proof (processFrame_keeps_configuration p (callClock c) (callInput c)
                  (callOutput c) (callWidth c) (callHeight c) (callMode c))
      as Hc.
    destruct (Processor.processFrame p (callClock c) (callInput c)
                (callWidth c) (callHeight c) (callMode c) (callOutput c))
      as [[metrics p'] out']. simpl in Hc |- *.
    destruct (IH p') as [Hc' Hn]. split.
    + by apply (same_configuration_trans p p').
    + rewrite length_app. destruct (success metrics); simpl; lia.
Qed.

(** X25. Over any sequence of [processFrame] calls on one engine, of any
    modes and outcomes, the engine's configuration (initialized flag,
    backend flag, thresholds, aperture) never changes and the counters
    stay in the range of [uint64_t]; starting from any counters in that
    range, the frame counter has grown by the number of successful calls
    and the total time by the sum of their elapsed times, both modulo
    [2^64], and that number is at most the number of calls. *)
Theorem runCalls_accumulates `{cv : OpenCV} `{heap : Allocator}
    (p : OpenCVProcessor)
    (calls : list FrameCall) :
  counters_in_range p ->
  let ts := recordedTimes p calls in
  let q := runCalls p calls in
  same_configuration p q
  /\ counters_in_range q
  /\ (length ts <= length calls)%nat
  /\ mTotalFramesProcessed q
     = (mTotalFramesProcessed p + Z.of_nat (length ts)) mod 2^64
  /\ mTotalProcessingTimeMs q
     = (mTotalProcessingTimeMs p + total_time ts) mod 2^64
  /\ mLastProcessingTimeMs q = List.last ts (mLastProcessingTimeMs p).
Proof.
  intros Hp ts q.
  destruct (runCalls_configuration calls p) as [Hc Hn].
  destruct (runCalls_counters calls p Hp) as (Hf & Ht & Hl & _).
  fold ts q in Hf, Ht, Hl, Hc, Hn.
  split; [done |]. split.
  { unfold counters_in_range. rewrite Hf, Ht.
    split; apply Z.mod_pos_bound; done. }
  done.
Qed.

Lemma runCalls_accumulates_witness :
  let calls :=
    [ {| callClock := (0, 4); callInput := Some gray_frame; callWidth := 2;
         callHeight := 2; callMode := MODE_RAW;
         callOutput := Some (replicate 16 0) |};
      {| callClock := (4, 9); callInput := None; callWidth := 2;
         callHeight := 2; callMode := MODE_EDGE;
         callOutput := Some (replicate 16 0) |};
      {| callClock := (9, 16); callInput := Some gray_frame; callWidth := 2;
         callHeight := 2; callMode := MODE_GRAYSCALE;
         callOutput := Some (replicate 16 0) |} ] in
  let ts := recordedTimes (cv := no_opencv) (heap := stale_heap)
      ready_engine calls in
  let q := runCalls (cv := no_opencv) (heap := stale_heap) ready_engine calls in
  same_configuration ready_engine q
  /\ counters_in_range q
  /\ (length ts <= length calls)%nat
  /\ mTotalFramesProcessed q
     = (mTotalFramesProcessed ready_engine + Z.of_nat (length ts)) mod 2^64
  /\ mTotalProcessingTimeMs q
     = (mTotalProcessingTimeMs ready_engine + total_time ts) mod 2^64
  /\ mLastProcessingTimeMs q
     = List.last ts (mLastProcessingTimeMs ready_engine).
Proof.
  intros calls.
  apply (runCalls_accumulates (cv := no_opencv) ready_engine calls).
  unfold counters_in_range. simpl. lia.
Defined.

(** ** Thresholds *)

(** X26. The Canny thresholds matter to mode EdgeDetect only:
    [setCannyThresholds] stores any two values without a check, the later
    call overriding the earlier, and leaves [getStatistics] as it was;
    in every mode other than EdgeDetect, with any backend, [processFrame]
    gives the same metrics and the same output bytes before and after
    it. *)
Theorem thresholds_only_reach_edges `{cv : OpenCV} `{heap : Allocator}
    (p : OpenCVProcessor)
    (clock : Z * Z) (input output : option (list Z)) (w h m : Z)
    (lo hi lo' hi' : spec_float) :
  m <> MODE_EDGE ->
  let p1 := Processor.setCannyThresholds p lo hi in
  let r := Processor.processFrame p1 clock input w h m output in
  let r0 := Processor.processFrame p clock input w h m output in
  mCannyLowThreshold p1 = lo /\ mCannyHighThreshold p1 = hi
  /\ Processor.setCannyThresholds p1 lo' hi'
     = Processor.setCannyThresholds p lo' hi'
  /\ Processor.getStatistics p1 = Processor.getStatistics p
  /\ fst (fst r) = fst (fst r0) /\ snd r = snd r0
  /\ snd (fst r) = Processor.setCannyThresholds (snd (fst r0)) lo hi.
Proof.
  intros Hm p1 r r0. subst r r0 p1.
  split; [done |]. split; [done |]. split; [done |]. split; [done |].
  unfold Processor.processFrame.
  change (mInitialized (Processor.setCannyThresholds p lo hi))
    with (mInitialized p).
  destruct (mInitialized p); simpl negb; cbv iota; [| done].
  destruct input as [i|]; [| done]. destruct output as [o|]; [| done].
  destruct ((w <=? 0) || (h <=? 0)); [done |].
  destruct (Z.eqb_spec m MODE_EDGE) as [| _]; [done |].
  change (Processor.convertToGrayscale (Processor.setCannyThresholds p lo hi))
    with (Processor.convertToGrayscale p).
  destruct (if m =? MODE_RAW then Processor.copyRawFrame i w h o
            else if m =? MODE_GRAYSCALE
                 then Processor.convertToGrayscale p i w h o
                 else Processor.copyRawFrame i w h o) as [ok o'].
  done.
Qed.

Lemma thresholds_only_reach_edges_witness :
  let p1 := Processor.setCannyThresholds ready_engine (F64.of_Z 150)
              (F64.of_Z 50) in
  let r := Processor.processFrame (cv := no_opencv) (heap := stale_heap)
      p1 (0, 2)
             (Some gray_frame) 2 2 MODE_GRAYSCALE (Some (replicate 16 0)) in
  let r0 := Processor.processFrame (cv := no_opencv) (heap := stale_heap)
      ready_engine (0, 2)
              (Some gray_frame) 2 2 MODE_GRAYSCALE (Some (replicate 16 0)) in
  mCannyLowThreshold p1 = F64.of_Z 150 /\ mCannyHighThreshold p1 = F64.of_Z 50
  /\ Processor.setCannyThresholds p1 (F64.of_Z 1) (F64.of_Z 2)
     = Processor.setCannyThresholds ready_engine (F64.of_Z 1) (F64.of_Z 2)
  /\ Processor.getStatistics p1 = Processor.getStatistics ready_engine
  /\ fst (fst r) = fst (fst r0) /\ snd r = snd r0
  /\ snd (fst r)
     = Processor.setCannyThresholds (snd (fst r0)) (F64.of_Z 150)
         (F64.of_Z 50).
Proof.
  apply (thresholds_only_reach_edges (cv := no_opencv) ready_engine (0, 2)
           (Some gray_frame) (Some (replicate 16 0)) 2 2 MODE_GRAYSCALE
           (F64.of_Z 150) (F64.of_Z 50) (F64.of_Z 1) (F64.of_Z 2)).
  unfold MODE_GRAYSCALE, MODE_EDGE. lia.
Defined.

(** ** Stale memory *)

Lemma wrap_int_range x : - 2147483648 <= wrap_int x <= INT_MAX.
Proof.
  unfold wrap_int, INT_MAX.
  change (2 ^ 31) with 2147483648. change (2 ^ 32) with 4294967296.
  pose proof (Z.mod_pos_bound (x + 2147483648) 4294967296 ltac:(lia)). lia.
Qed.

Lemma new_uint8_nil (a : Allocator) (k : nat) (n : Z) :
  n <= 0 -> new_uint8 (Allocator := a) k n = [].
Proof.
  intros Hn. apply nil_length_inv. rewrite new_uint8_length. lia.
Qed.

Lemma applyCannyEdgeFallback_any_heap (a1 a2 : Allocator)
    (input output : list Z) (w h : Z) :
  Processor.applyCannyEdgeFallback (heap := a1) input w h output
  = Processor.applyCannyEdgeFallback (heap := a2) input w h output.
Proof.
  unfold Processor.applyCannyEdgeFallback. cbv zeta.
  pose proof (wrap_int_range (w * h)) as Hr. fold (int_mul w h) in Hr.
  set (n := int_mul w h) in *.
  assert (Hg : Processor.grayPlane input n (new_uint8 (Allocator := a1) 0 n)
               = Processor.grayPlane input n
                   (new_uint8 (Allocator := a2) 0 n)).
  { destruct (Z.le_gt_cases n 0) as [Hn | Hn].
    - by rewrite !new_uint8_nil.
    - rewrite (grayPlane_fresh input (new_uint8 (Allocator := a1) 0 n) n)
        by (lia || apply new_uint8_length).
      rewrite (grayPlane_fresh input (new_uint8 (Allocator := a2) 0 n) n)
        by (lia || apply new_uint8_length).
      done. }
  assert (He : forall g,
            ImageUtils.simpleEdgeDetection g w h
              (new_uint8 (Allocator := a1) 1 n)
            = ImageUtils.simpleEdgeDetection g w h
                (new_uint8 (Allocator := a2) 1 n)).
  { intros g. unfold ImageUtils.simpleEdgeDetection, ImageUtils.sobelPass.
    fold n. do 2 f_equal. unfold memset. f_equal.
    destruct (Z.le_gt_cases n 0) as [Hn | Hn].
    - by rewrite !new_uint8_nil.
    - rewrite to_size_t_id by lia.
      rewrite !drop_ge by (rewrite new_uint8_length; lia). done. }
  by rewrite Hg, He.
Qed.

(** X28. What the allocator left in the two arrays the fallback edge
    path allocates never reaches a result: the gray plane is assigned in
    every cell before it is read and the edge map is cleared before it
    is used, so the fallback edge path, the engine's [processFrame] and
    the boundary's [processFrame] return the same values for any two
    allocators, for all arguments. *)
Theorem processFrame_ignores_stale_memory `{cv : OpenCV}
    (a1 a2 : Allocator) (env : JNIEnv) (p : OpenCVProcessor)
    (g : option OpenCVProcessor) (clock : Z * Z)
    (input output : option (list Z)) (pixels buffer : list Z) (w h m : Z) :
  Processor.applyCannyEdgeFallback (heap := a1) pixels w h buffer
  = Processor.applyCannyEdgeFallback (heap := a2) pixels w h buffer
  /\ Processor.processFrame (heap := a1) p clock input w h m output
     = Processor.processFrame (heap := a2) p clock input w h m output
  /\ NativeLib.processFrame (heap := a1) env g clock input w h m output
     = NativeLib.processFrame (heap := a2) env g clock input w h m output.
Proof.
  assert (Hengine : forall q i o,
            Processor.processFrame (heap := a1) q clock i w h m o
            = Processor.processFrame (heap := a2) q clock i w h m o).
  { intros q i o. unfold Processor.processFrame, Processor.applyCannyEdge.
    destruct (negb (mInitialized q)); [done |].
    destruct i as [i|]; [| done]. destruct o as [o|]; [| done].
    by rewrite (applyCannyEdgeFallback_any_heap a1 a2 i o w h). }
  split; [apply applyCannyEdgeFallback_any_heap |].
  split; [apply Hengine |].
  unfold NativeLib.processFrame.
  destruct g as [q|]; [| done].
  destruct input as [i|]; [| done]. destruct output as [o|]; [| done].
  by rewrite (Hengine q (Some i) (Some o)).
Qed.
